(** * kimmeldrive: the path sandbox, the file operations and the share links

    A shallow embedding of [server.js], the Express application of the
    repository, and the properties of its path-sandboxing layer
    ([getSafePath]), of its file-operation handlers and of its share-link
    registry.

    Conventions of the embedding.
    - A JavaScript string is a [string]: the sequence of bytes of its UTF-8
      encoding (strings holding lone surrogates are outside the model).
    - Paths follow Node's POSIX [path] module ([path.sep] is ["/"]).
    - The file system is a finite map from absolute, normalized paths to
      nodes; [fs-extra] calls are functions on that map.
    - [shareLinks] is the insertion-ordered list of own properties of the
      JavaScript object, so that [Object.keys] enumerates it in order.
    - [new Date()] and [Date.now()] are readings of a clock the handler
      receives; times are milliseconds, as [Date.prototype.getTime] gives
      them, within the range a [Date] can hold.
    - A request body field is an [option string]: [None] is [undefined].
    - [res.download] is Express's: the checks its [send] stream makes on
      the path before it opens the file are part of the model, with the
      500 the callback of the handler answers to them; an error while the
      file is streamed, the headers being sent, is not.  A request carries
      no conditional and no range header. *)

From Stdlib Require Import ZArith Ascii List Lia DecimalString.
From Stdlib Require String.
From stdpp Require Import gmap strings.

Local Open Scope Z_scope.

(** ** JavaScript strings *)

Module Js.

Definition str_eqb (a b : string) : bool := bool_decide (a = b).

Fixpoint startsWith (s p : string) {struct p} : bool :=
  match p with
  | EmptyString => true
  | String c p' =>
      match s with
      | EmptyString => false
      | String d s' => Ascii.eqb c d && startsWith s' p'
      end
  end.

Definition endsWith (s p : string) : bool :=
  let n := String.length s in
  let m := String.length p in
  (m <=? n)%nat && str_eqb (String.substring (n - m) m s) p.

(** Truthiness of a string-or-undefined value: [!v] holds for [undefined]
    and for the empty string. *)
Definition falsy (v : option string) : bool :=
  match v with
  | None => true
  | Some s => str_eqb s ""
  end.

(** [v || ''] *)
Definition or_empty (v : option string) : string :=
  match v with
  | None => ""
  | Some s => s
  end.

(** [String(n)] for an integer [n], as a template literal renders it
    (decimal digits, for the integers below 10^21 in magnitude). *)
Definition of_int (n : Z) : string := NilZero.string_of_int (Z.to_int n).

(** The first [replace] of the sanitizers: every slash, backslash, question
    mark, percent sign, star, colon, bar, double quote (code 34) and angle
    bracket is replaced by an underscore. *)
Definition illegal_char (c : ascii) : bool :=
  existsb (Ascii.eqb c)
    ["/"; "\"; "?"; "%"; "*"; ":"; "|"; "034"; "<"; ">"]%char.

Fixpoint replace_illegal (s : string) : string :=
  match s with
  | EmptyString => EmptyString
  | String c s' =>
      String (if illegal_char c then "_"%char else c) (replace_illegal s')
  end.

(** [/^\.+$/] : one or more dots and nothing else. *)
Fixpoint all_dots (s : string) : bool :=
  match s with
  | EmptyString => true
  | String c s' => Ascii.eqb c "."%char && all_dots s'
  end.

Definition only_dots (s : string) : bool :=
  negb (str_eqb s "") && all_dots s.

(** [s.replace(/^\.+$/, '_')] *)
Definition replace_only_dots (s : string) : string :=
  if only_dots s then "_" else s.

(** *** decodeURIComponent

    Every escape [%XY] stands for one byte.  A byte below 0x80 is a
    character of its own; a higher byte must start a well-formed UTF-8
    sequence whose continuation bytes are escapes too.  Anything else
    throws a [URIError], here [None]. *)

Definition hex_digit (c : ascii) : option N :=
  let n := N_of_ascii c in
  (if (48 <=? n) && (n <=? 57) then Some (n - 48)
   else if (65 <=? n) && (n <=? 70) then Some (n - 55)
   else if (97 <=? n) && (n <=? 102) then Some (n - 87)
   else None)%N.

(** What is still owed after a lead byte: the number of continuation bytes
    and the range allowed for the next one. *)
Record pending := Pending { owed : nat; lo : N; hi : N }.

Definition nothing_owed : pending := Pending 0 128 191.

Definition after_lead (b : N) : option pending :=
  (if b <? 128 then Some nothing_owed
   else if b <? 194 then None
   else if b <? 224 then Some (Pending 1 128 191)
   else if b =? 224 then Some (Pending 2 160 191)
   else if b =? 237 then Some (Pending 2 128 159)
   else if b <? 240 then Some (Pending 2 128 191)
   else if b =? 240 then Some (Pending 3 144 191)
   else if b <? 244 then Some (Pending 3 128 191)
   else if b =? 244 then Some (Pending 3 128 143)
   else None)%N.

Definition after_byte (p : pending) (b : N) : option pending :=
  match owed p with
  | O => after_lead b
  | S k => if ((lo p <=? b) && (b <=? hi p))%N
           then Some (Pending k 128 191) else None
  end.

Inductive escape := NoEscape | SawPercent | SawHex (h : N).

Fixpoint decode_from (s : string) (p : pending) (e : escape) : option string :=
  match s with
  | EmptyString =>
      match e, owed p with
      | NoEscape, O => Some EmptyString
      | _, _ => None
      end
  | String c s' =>
      match e with
      | NoEscape =>
          if Ascii.eqb c "%"%char then decode_from s' p SawPercent
          else match owed p with
               | O => String c <$> decode_from s' p NoEscape
               | S _ => None
               end
      | SawPercent =>
          match hex_digit c with
          | Some h => decode_from s' p (SawHex h)
          | None => None
          end
      | SawHex h =>
          match hex_digit c with
          | Some l =>
              let b := (16 * h + l)%N in
              match after_byte p b with
              | Some p' => String (ascii_of_N b) <$> decode_from s' p' NoEscape
              | None => None
              end
          | None => None
          end
      end
  end.

Definition decodeURIComponent (s : string) : option string :=
  decode_from s nothing_owed NoEscape.

End Js.

(** ** Node's [path] module, POSIX flavour *)

Module Path.

Definition sep : string := "/".

Definition is_sep (c : ascii) : bool := Ascii.eqb c "/"%char.

(** The segments between separators; never the empty list. *)
Fixpoint split (s : string) : list string :=
  match s with
  | EmptyString => [EmptyString]
  | String c s' =>
      if is_sep c then EmptyString :: split s'
      else match split s' with
           | h :: t => String c h :: t
           | [] => [String c EmptyString]
           end
  end.

Definition isAbsolute (s : string) : bool :=
  match s with
  | String c _ => is_sep c
  | EmptyString => false
  end.

Fixpoint ends_with_sep (s : string) : bool :=
  match s with
  | EmptyString => false
  | String c EmptyString => is_sep c
  | String _ s' => ends_with_sep s'
  end.

(** One segment of [normalizeString]; the stack holds the segments kept so
    far, the last one first. *)
Definition normalize_step (allowAboveRoot : bool)
    (stack : list string) (seg : string) : list string :=
  if Js.str_eqb seg "" || Js.str_eqb seg "." then stack
  else if Js.str_eqb seg ".." then
    match stack with
    | top :: rest =>
        if Js.str_eqb top ".."
        then (if allowAboveRoot then ".." :: stack else stack)
        else rest
    | [] => if allowAboveRoot then [".."] else []
    end
  else seg :: stack.

Definition normalize_segments (allowAboveRoot : bool)
    (segs : list string) : list string :=
  rev (fold_left (normalize_step allowAboveRoot) segs []).

Definition join_segments (segs : list string) : string :=
  String.concat sep segs.

Definition normalizeString (path : string) (allowAboveRoot : bool) : string :=
  join_segments (normalize_segments allowAboveRoot (split path)).

(** The loop of [path.resolve], from the last argument to the first and
    then the working directory, until an absolute prefix is met. *)
Fixpoint resolve_loop (args_rev : list string) (resolvedPath : string)
    : string * bool :=
  match args_rev with
  | [] => (resolvedPath, false)
  | p :: rest =>
      if Js.str_eqb p "" then resolve_loop rest resolvedPath
      else
        let resolvedPath' := p +:+ "/" +:+ resolvedPath in
        if isAbsolute p then (resolvedPath', true)
        else resolve_loop rest resolvedPath'
  end.

Definition resolve (cwd : string) (args : list string) : string :=
  let '(resolvedPath, resolvedAbsolute) :=
    resolve_loop (rev args ++ [cwd]) "" in
  let res := normalizeString resolvedPath (negb resolvedAbsolute) in
  if resolvedAbsolute then "/" +:+ res
  else if Js.str_eqb res "" then "." else res.

Definition normalize (path : string) : string :=
  if Js.str_eqb path "" then "."
  else
    let abs := isAbsolute path in
    let trailing := ends_with_sep path in
    let res := normalizeString path (negb abs) in
    if Js.str_eqb res "" then
      (if abs then "/" else if trailing then "./" else ".")
    else
      let res' := if trailing then res +:+ "/" else res in
      if abs then "/" +:+ res' else res'.

(** [path.join(a, b)] *)
Definition join (a b : string) : string :=
  let joined :=
    if Js.str_eqb a "" then b
    else if Js.str_eqb b "" then a
    else a +:+ "/" +:+ b in
  if Js.str_eqb joined "" then "." else normalize joined.

(** [path.basename(p)]: the last segment that is not empty. *)
Definition last_nonempty (segs : list string) : string :=
  fold_left (fun acc seg => if Js.str_eqb seg "" then acc else seg) segs "".

Definition basename (p : string) : string := last_nonempty (split p).

(** The position of the last dot: what is before it, and the rest from the
    dot on. *)
Fixpoint last_dot (s : string) : option (string * string) :=
  match s with
  | EmptyString => None
  | String c s' =>
      match last_dot s' with
      | Some (pre, ext) => Some (String c pre, ext)
      | None => if Ascii.eqb c "."%char then Some (EmptyString, s) else None
      end
  end.

(** [path.extname(p)] *)
Definition extname (p : string) : string :=
  let b := basename p in
  match last_dot b with
  | None => ""
  | Some (pre, ext) =>
      if Js.str_eqb pre "" || Js.str_eqb b ".." then "" else ext
  end.

(** [path.basename(p, ext)] for a path [p] without separator, the only use
    the server makes of it: the suffix [ext] is dropped unless it is the
    whole name. *)
Definition basename_ext (p ext : string) : string :=
  if Js.str_eqb ext "" || (String.length p <? String.length ext)%nat
  then basename p
  else if Js.str_eqb ext p then ""
  else
    let b := basename p in
    if Js.endsWith b ext && negb (Js.str_eqb b ext)
    then String.substring 0 (String.length b - String.length ext) b
    else b.

End Path.

(** ** The file system behind [fs-extra]

    Keys are absolute normalized paths (["/"], ["/srv"], ["/srv/data"]).
    A call that rejects (an [Error] passed to the callback, a rejected
    promise) returns [None]. *)

Module Fs.

Inductive node := File (content : string) | Dir.

Definition is_dir (n : node) : bool :=
  match n with Dir => true | File _ => false end.

Definition is_file (n : node) : bool :=
  match n with File _ => true | Dir => false end.

Definition pathExists (fs : gmap string node) (p : string) : bool :=
  bool_decide (is_Some (fs !! p)).

(** [fs.stat(p)]; it rejects when nothing is at [p]. *)
Definition stat (fs : gmap string node) (p : string) : option node := fs !! p.

(** The segments of a key, and the key of a list of segments. *)
Definition segments (p : string) : list string :=
  filter (fun seg => seg <> "") (Path.split p).

Definition of_segments (segs : list string) : string :=
  "/" +:+ Path.join_segments segs.

Definition parent (p : string) : string :=
  of_segments (removelast (segments p)).

(** [q] is [p] or lies below [p]. *)
Definition within (p q : string) : bool :=
  Js.str_eqb q p
  || Js.startsWith q (if Js.str_eqb p "/" then "/" else p +:+ "/").

(** Creates the directory whose segments are given, the last one first, and
    the ancestors it lacks. *)
Fixpoint ensure_segments (segs_rev : list string) (fs : gmap string node)
    : option (gmap string node) :=
  let p := of_segments (rev segs_rev) in
  match fs !! p with
  | Some Dir => Some fs
  | Some (File _) => None
  | None =>
      match segs_rev with
      | [] => Some (<[p := Dir]> fs)
      | _ :: up => (fun fs' => <[p := Dir]> fs') <$> ensure_segments up fs
      end
  end.

(** [fs.ensureDir(p)]: nothing to do for a directory, an error for a file
    at [p] or on the way to it. *)
Definition ensureDir (p : string) (fs : gmap string node)
    : option (gmap string node) :=
  match fs !! p with
  | Some Dir => Some fs
  | Some (File _) => None
  | None => ensure_segments (rev (segments p)) fs
  end.

(** [fs.remove(p)]: the entry and everything below it. *)
Definition remove (p : string) (fs : gmap string node) : gmap string node :=
  filter (fun kv : string * node => within p kv.1 = false) fs.

(** Writing a whole file, as [fs.writeFile] and a write stream piped to
    the end do: a directory cannot be written, and a new file needs its
    directory. *)
Definition writeFile (p content : string) (fs : gmap string node)
    : option (gmap string node) :=
  match fs !! p with
  | Some (File _) => Some (<[p := File content]> fs)
  | Some Dir => None
  | None =>
      match fs !! parent p with
      | Some Dir => Some (<[p := File content]> fs)
      | _ => None
      end
  end.

Definition rebase (src dst q : string) : string :=
  dst +:+ String.substring (String.length src)
            (String.length q - String.length src) q.

(** [fs.move(src, dst)] without overwrite: the entry and what is below it
    change place. *)
Definition move (src dst : string) (fs : gmap string node)
    : option (gmap string node) :=
  if pathExists fs dst || negb (pathExists fs src) then None
  else
    let moved :=
      filter (fun kv : string * node => within src kv.1 = true) fs in
    Some (list_to_map
            (map (fun kv : string * node => (rebase src dst kv.1, kv.2))
                 (map_to_list moved))
          ∪ remove src fs).

End Fs.

(** ** The [shareLinks] object *)

Module Registry.

Record ShareInfo := { path : string; created_at : Z }.

(** What [shareLinks[id]] evaluates to.  The object is created by the
    literal [{}], so a name of [Object.prototype] that is no own property
    yields the inherited member, which is truthy and has no [created_at]. *)
Inductive property := Own (info : ShareInfo) | Inherited | Undefined.

Definition object_prototype_names : list string :=
  ["constructor"; "__defineGetter__"; "__defineSetter__"; "hasOwnProperty";
   "__lookupGetter__"; "__lookupSetter__"; "isPrototypeOf";
   "propertyIsEnumerable"; "toString"; "valueOf"; "__proto__";
   "toLocaleString"].

Fixpoint own (links : list (string * ShareInfo)) (id : string)
    : option ShareInfo :=
  match links with
  | [] => None
  | (k, v) :: rest => if Js.str_eqb k id then Some v else own rest id
  end.

Definition get (links : list (string * ShareInfo)) (id : string) : property :=
  match own links id with
  | Some info => Own info
  | None =>
      if existsb (Js.str_eqb id) object_prototype_names
      then Inherited else Undefined
  end.

(** [shareLinks[id] = info]: an own property keeps its place, a new one
    goes last. *)
Fixpoint set (links : list (string * ShareInfo)) (id : string)
    (info : ShareInfo) : list (string * ShareInfo) :=
  match links with
  | [] => [(id, info)]
  | (k, v) :: rest =>
      if Js.str_eqb k id then (k, info) :: rest
      else (k, v) :: set rest id info
  end.

(** [delete shareLinks[id]] *)
Definition delete (links : list (string * ShareInfo)) (id : string)
    : list (string * ShareInfo) :=
  filter (fun kv : string * ShareInfo => kv.1 <> id) links.

(** [Object.keys(shareLinks)]; the share ids are UUIDs, never array
    indices, so the order is the order of creation. *)
Definition keys (links : list (string * ShareInfo)) : list string :=
  map fst links.

(** An object has one own property per name. *)
Definition wf (links : list (string * ShareInfo)) : bool :=
  bool_decide (NoDup (keys links)).

End Registry.

(** ** Responses *)

Inductive JsonBody :=
| Error (error : string)
| Message (message : string)
| Listing (current_path : string)
| Share (share_id share_url : string).

(** [Uncaught] is an exception that leaves the [async] handler: no response
    is written by the handler.  The text of an I/O error ([err.message])
    is not modelled: a message built from it stops before it.  [Download]
    is the file that [res.download] sends, under the name given, once the
    stream has taken the path: the status is 200. *)
Inductive Response :=
| Json (status : Z) (body : JsonBody)
| Send (status : Z) (text : string)
| Download (fullPath filename : string)
| Uncaught.

Definition status_of (r : Response) : option Z :=
  match r with
  | Json st _ => Some st
  | Send st _ => Some st
  | Download _ _ => Some 200
  | Uncaught => None
  end.

Definition error (st : Z) (msg : string) : Response := Json st (Error msg).
Definition ok (msg : string) : Response := Json 200 (Message msg).

(** The state the handlers share: the disk and the [shareLinks] object. *)
Record Server := {
  fs : gmap string Fs.node;
  shareLinks : list (string * Registry.ShareInfo)
}.

Definition with_fs (s : Server) (fs' : gmap string Fs.node) : Server :=
  {| fs := fs'; shareLinks := shareLinks s |}.

Definition with_links (s : Server)
    (links : list (string * Registry.ShareInfo)) : Server :=
  {| fs := fs s; shareLinks := links |}.

(** A value that passes [if (v)]: a string that is not empty. *)
Definition truthy (v : option string) : option string :=
  match v with
  | Some s => if Js.falsy v then None else Some s
  | None => None
  end.

Definition dquote : string := String "034"%char EmptyString.

(** ** What Express's [res.download] sends

    [res.download(path, filename, callback)] resolves [path] and pipes it
    through a [send] stream with the default options.  Before a byte is
    written the stream looks at the path alone and may emit an error, which
    reaches the callback with the headers not yet sent: 400 for a NUL
    character, 403 for a [..] between slashes or backslashes, 404 for a
    name that begins with a dot (dot files are ignored by default). *)

Module Express.

Fixpoint has_nul (s : string) : bool :=
  match s with
  | EmptyString => false
  | String c s' => Ascii.eqb c "000"%char || has_nul s'
  end.

Definition is_slash (c : ascii) : bool :=
  Ascii.eqb c "/"%char || Ascii.eqb c "\"%char.

(** The segments between slashes and backslashes. *)
Fixpoint split_slashes (s : string) : list string :=
  match s with
  | EmptyString => [EmptyString]
  | String c s' =>
      if is_slash c then EmptyString :: split_slashes s'
      else match split_slashes s' with
           | h :: t => String c h :: t
           | [] => [String c EmptyString]
           end
  end.

(** [UP_PATH_REGEXP.test(path)]: two dots with a slash, a backslash or an
    end of the string on either side. *)
Definition up_path (path : string) : bool :=
  existsb (Js.str_eqb "..") (split_slashes path).

Definition starts_with_dot (part : string) : bool :=
  match part with
  | String c _ => Ascii.eqb c "."%char
  | EmptyString => false
  end.

(** [containsDotFile(parts)]: a part longer than one character whose first
    character is the dot. *)
Definition containsDotFile (parts : list string) : bool :=
  existsb (fun part => (1 <? String.length part)%nat && starts_with_dot part)
          parts.

(** [SendStream.prototype.pipe] for an absolute path and no root, up to the
    point where the file is opened: the status of the error it emits, if
    any.  No [dotfiles] option is given, so the last part decides. *)
Definition send_error (path : string) : option Z :=
  if has_nul path then Some 400
  else if up_path path then Some 403
  else
    let parts := Path.split (Path.normalize path) in
    if containsDotFile parts && starts_with_dot (List.last parts "")
    then Some 404
    else None.

End Express.

Section App.

(** [process.cwd()] and [process.env.STORAGE_PATH] when the server starts. *)
Variable cwd : string.
Variable STORAGE_PATH : string.

Definition SHARE_DURATION_HOURS : Z := 1.

Definition RESOLVED_UPLOAD_FOLDER_ROOT : string :=
  Path.resolve cwd [STORAGE_PATH].

(** *** getSafePath *)

Definition getSafePath (relativePathSuffix : string) : option string :=
  match Js.decodeURIComponent relativePathSuffix with
  | None => None
  | Some decodedSuffix =>
      let absoluteTargetPath :=
        Path.resolve cwd [RESOLVED_UPLOAD_FOLDER_ROOT; decodedSuffix] in
      if negb (Js.startsWith absoluteTargetPath
                 (RESOLVED_UPLOAD_FOLDER_ROOT +:+ Path.sep))
         && negb (Js.str_eqb absoluteTargetPath RESOLVED_UPLOAD_FOLDER_ROOT)
      then None
      else Some absoluteTargetPath
  end.

(** *** Uploads: the disk storage of multer *)

Definition storage_destination (subpath_param : option string)
    (fs0 : gmap string Fs.node) : string + string * gmap string Fs.node :=
  let subpath := Js.or_empty subpath_param in
  match truthy (getSafePath subpath) with
  | None =>
      inl "Invalid upload directory specified (path safety check failed)"
  | Some targetDir =>
      match Fs.ensureDir targetDir fs0 with
      | None => inl "Failed to create target directory"
      | Some fs1 => inr (targetDir, fs1)
      end
  end.

Definition storage_filename (subpath_param : option string)
    (originalname : string) (now : Z) (fs0 : gmap string Fs.node)
    : string + string :=
  let safeName := Js.replace_illegal originalname in
  match truthy (getSafePath (Js.or_empty subpath_param)) with
  | None => inl "Cannot determine safe parent directory for filename check"
  | Some parentDir =>
      let potentialPath := Path.join parentDir safeName in
      if Fs.pathExists fs0 potentialPath then
        let timestamp := now in
        let ext := Path.extname safeName in
        let base := Path.basename_ext safeName ext in
        let newName := base +:+ "_" +:+ Js.of_int timestamp +:+ ext in
        inr newName
      else inr safeName
  end.

(** multer's [DiskStorage._handleFile]: destination, then file name, then
    the body is piped to [path.join(destination, filename)]. *)
Definition storage_handle_file (subpath_param : option string)
    (originalname content : string) (now : Z) (fs0 : gmap string Fs.node)
    : (string + string) * gmap string Fs.node :=
  match storage_destination subpath_param fs0 with
  | inl err => (inl err, fs0)
  | inr (destination, fs1) =>
      match storage_filename subpath_param originalname now fs1 with
      | inl err => (inl err, fs1)
      | inr filename =>
          let finalPath := Path.join destination filename in
          match Fs.writeFile finalPath content fs1 with
          | None => (inl "write failed", fs1)
          | Some fs2 => (inr filename, fs2)
          end
      end
  end.

(** [POST /api/upload]; [file] is the part named [file] of the
    multipart body, its declared name and its bytes. *)
Definition api_upload (subpath_param : option string)
    (file : option (string * string)) (now : Z) (s : Server)
    : Response * Server :=
  match file with
  | None => (error 400 "File upload failed or was rejected.", s)
  | Some (originalname, content) =>
      match storage_handle_file subpath_param originalname content now (fs s)
      with
      | (inl err, fs') =>
          (error 400 ("Upload failed: " +:+ err), with_fs s fs')
      | (inr filename, fs') =>
          let subpath := Js.or_empty subpath_param in
          (ok ("File " +:+ dquote +:+ filename +:+ dquote
               +:+ " uploaded successfully to /" +:+ subpath),
           with_fs s fs')
      end
  end.

(** *** [GET /api/browse]

    The entries of the listing and its parent path are left out of the
    body: no property below speaks of them. *)
Definition api_browse (subpath_param : option string) (s : Server)
    : Response :=
  let subpath := Js.or_empty subpath_param in
  match truthy (getSafePath subpath) with
  | None => error 404 "Path not found"
  | Some currentPath =>
      if negb (Fs.pathExists (fs s) currentPath)
      then error 404 "Path not found"
      else
        match Fs.stat (fs s) currentPath with
        | None => Uncaught
        | Some n =>
            if negb (Fs.is_dir n) then error 400 "Path is not a directory"
            else Json 200 (Listing subpath)
        end
  end.

(** *** [res.download] with the callback of the two handlers that serve a
    file: an error of the stream is answered 500 with the handler's text,
    the headers being still unsent. *)
Definition res_download (fullPath filename failure : string) : Response :=
  match Express.send_error (Path.resolve cwd [fullPath]) with
  | Some _ => Send 500 failure
  | None => Download fullPath filename
  end.

(** *** [GET /download] *)
Definition download (filepath : string) (s : Server) : Response :=
  match truthy (getSafePath filepath) with
  | None => Send 400 "Invalid file path."
  | Some safeFullPath =>
      if negb (Fs.pathExists (fs s) safeFullPath)
      then Send 404 "File not found."
      else
        match Fs.stat (fs s) safeFullPath with
        | None => Send 500 "Server error accessing file."
        | Some stats =>
            if negb (Fs.is_file stats) then Send 400 "Path is not a file."
            else
              let filename := Path.basename safeFullPath in
              res_download safeFullPath filename
                "Error occurred during file download."
        end
  end.

(** *** [POST /api/mkdir] *)

Definition sanitize_dir_name (dir_name : string) : string :=
  Js.replace_only_dots (Js.replace_illegal dir_name).

Definition api_mkdir (parent_path dir_name : option string) (s : Server)
    : Response * Server :=
  match truthy dir_name with
  | None => (error 400 "Directory name is required.", s)
  | Some dir_name =>
      let safeDirName := sanitize_dir_name dir_name in
      if Js.falsy (Some safeDirName) || Js.str_eqb safeDirName "."
         || Js.str_eqb safeDirName ".."
      then (error 400 "Invalid directory name provided.", s)
      else
        let invalid_parent :=
          (error 400 "Invalid or non-existent parent path.", s) in
        match truthy (getSafePath (Js.or_empty parent_path)) with
        | None => invalid_parent
        | Some parentDir =>
            if negb (Fs.pathExists (fs s) parentDir) then invalid_parent
            else
              match Fs.stat (fs s) parentDir with
              | None => (Uncaught, s)
              | Some n =>
                  if negb (Fs.is_dir n) then invalid_parent
                  else
                    let newDirPath := Path.join parentDir safeDirName in
                    if Fs.pathExists (fs s) newDirPath then
                      (error 409 ("Directory or file '" +:+ safeDirName
                                  +:+ "' already exists."), s)
                    else
                      match Fs.ensureDir newDirPath (fs s) with
                      | Some fs' =>
                          (ok ("Directory '" +:+ safeDirName
                               +:+ "' created successfully in /"
                               +:+ Js.or_empty parent_path),
                           with_fs s fs')
                      | None => (error 500 "Could not create directory", s)
                      end
              end
        end
  end.

(** *** [POST /api/delete]

    [fs.remove] does not reject in the model, so the 500 of the [catch]
    has no branch here. *)
Definition api_delete (path : option string) (s : Server)
    : Response * Server :=
  match truthy path with
  | None => (error 400 "Missing 'path' in request", s)
  | Some itemPathSuffix =>
      let itemFullPath := getSafePath itemPathSuffix in
      if bool_decide (itemFullPath = Some RESOLVED_UPLOAD_FOLDER_ROOT)
      then (error 403 "Cannot delete the root storage directory", s)
      else
        match truthy itemFullPath with
        | None => (error 400 "Invalid path specified.", s)
        | Some itemFullPath =>
            if negb (Fs.pathExists (fs s) itemFullPath)
            then (error 404 "Item not found.", s)
            else
              let itemName := Path.basename itemFullPath in
              (ok ("Item '" +:+ itemName +:+ "' deleted successfully"),
               with_fs s (Fs.remove itemFullPath (fs s)))
        end
  end.

(** *** [POST /api/share]

    [shareId] is the value [uuidv4()] returns, [origin] the protocol and the
    host of the request, [now] the reading of [new Date()].  The QR code
    of the body is left out. *)
Definition api_share (path : option string) (shareId origin : string)
    (now : Z) (s : Server) : Response * Server :=
  match truthy path with
  | None => (error 400 "Missing 'path' in request", s)
  | Some filePathSuffix =>
      match truthy (getSafePath filePathSuffix) with
      | None => (error 400 "Invalid file path.", s)
      | Some fileFullPath =>
          if negb (Fs.pathExists (fs s) fileFullPath)
          then (error 404 "File not found for sharing.", s)
          else
            match Fs.stat (fs s) fileFullPath with
            | None => (error 500 "Server error processing share request.", s)
            | Some stats =>
                if negb (Fs.is_file stats)
                then (error 400 "Sharing is only supported for files.", s)
                else
                  let creationTime := now in
                  let links :=
                    Registry.set (shareLinks s) shareId
                      {| Registry.path := filePathSuffix;
                         Registry.created_at := creationTime |} in
                  let shareUrl := origin +:+ "/share/" +:+ shareId in
                  (Json 200 (Share shareId shareUrl), with_links s links)
            end
      end
  end.

(** *** [GET /share/:shareId] *)

Definition expiry_of (created_at : Z) : Z :=
  created_at + SHARE_DURATION_HOURS * 60 * 60 * 1000.

(** The clean-up of a miss: one pass over [Object.keys(shareLinks)], the
    clock read anew for every id; [clock k] is the [k]-th reading.  A name
    that is no own property any more would make [link.created_at] throw
    ([None]); it cannot happen on a well-formed object. *)
Fixpoint sweep (clock : nat -> Z) (k : nat) (ids : list string)
    (links : list (string * Registry.ShareInfo))
    : option (list (string * Registry.ShareInfo)) :=
  match ids with
  | [] => Some links
  | id :: rest =>
      match Registry.own links id with
      | None => None
      | Some link =>
          let expiryTime := expiry_of (Registry.created_at link) in
          if clock k >? expiryTime
          then sweep clock (S k) rest (Registry.delete links id)
          else sweep clock (S k) rest links
      end
  end.

Definition share_access (clock : nat -> Z) (shareId : string) (s : Server)
    : Response * Server :=
  match Registry.get (shareLinks s) shareId with
  | Registry.Undefined =>
      match sweep clock 0 (Registry.keys (shareLinks s)) (shareLinks s) with
      | Some links =>
          (Send 404 "Share link is invalid or has expired.",
           with_links s links)
      | None => (Uncaught, s)
      end
  | Registry.Inherited => (Uncaught, s)
  | Registry.Own shareInfo =>
      let creationTime := Registry.created_at shareInfo in
      let filePathSuffix := Registry.path shareInfo in
      let now := clock 0%nat in
      let expiryTime := expiry_of creationTime in
      let forget := with_links s (Registry.delete (shareLinks s) shareId) in
      if now >? expiryTime then
        (Send 410 ("Share link has expired (valid for "
                   +:+ Js.of_int SHARE_DURATION_HOURS +:+ " hour(s))."),
         forget)
      else
        match truthy (getSafePath filePathSuffix) with
        | None => (Send 404 "Shared file path is invalid.", forget)
        | Some safeFullPath =>
            if negb (Fs.pathExists (fs s) safeFullPath)
            then (Send 404 "The shared file is no longer available.", forget)
            else
              match Fs.stat (fs s) safeFullPath with
              | None => (Send 500 "Server error accessing shared file.", s)
              | Some stats =>
                  if negb (Fs.is_file stats)
                  then (Send 404 "The shared item is not a file.", forget)
                  else
                    let filename := Path.basename safeFullPath in
                    (res_download safeFullPath filename
                       "Error downloading shared file.", s)
              end
        end
  end.

(** *** [POST /api/move] *)
Definition api_move (sourcePath destinationPath : option string) (s : Server)
    : Response * Server :=
  match truthy sourcePath, destinationPath with
  | Some sourceSuffix, Some destinationSuffix =>
      match truthy (getSafePath sourceSuffix),
            truthy (getSafePath destinationSuffix) with
      | Some sourceFullPath, Some destinationDirFullPath =>
          if negb (Fs.pathExists (fs s) sourceFullPath) then
            (error 404 ("Source item not found: " +:+ sourceSuffix), s)
          else if negb (Fs.pathExists (fs s) destinationDirFullPath) then
            (error 404 ("Destination directory not found: "
                        +:+ destinationSuffix), s)
          else
            match Fs.stat (fs s) destinationDirFullPath with
            | None => (error 500 "Error checking destination directory", s)
            | Some destStat =>
                if negb (Fs.is_dir destStat) then
                  (error 400 ("Destination is not a directory: "
                              +:+ destinationSuffix), s)
                else
                  let itemName := Path.basename sourceFullPath in
                  let finalDestinationPath :=
                    Path.join destinationDirFullPath itemName in
                  if Js.str_eqb sourceFullPath finalDestinationPath
                     || Js.str_eqb sourceFullPath destinationDirFullPath
                  then
                    (error 400
                       "Cannot move item to the same location or into itself",
                     s)
                  else
                    match Fs.stat (fs s) sourceFullPath with
                    | None => (Uncaught, s)
                    | Some srcStat =>
                        if Fs.is_dir srcStat
                           && Js.startsWith finalDestinationPath
                                (sourceFullPath +:+ Path.sep)
                        then
                          (error 400
                             "Cannot move a folder into itself or one of its subdirectories.",
                           s)
                        else if Fs.pathExists (fs s) finalDestinationPath then
                          (error 409 ("An item named '" +:+ itemName
                                      +:+ "' already exists in the destination."),
                           s)
                        else
                          match Fs.move sourceFullPath finalDestinationPath
                                  (fs s) with
                          | Some fs' =>
                              (ok ("Successfully moved '" +:+ itemName
                                   +:+ "' to /" +:+ destinationSuffix),
                               with_fs s fs')
                          | None => (error 500 "Failed to move item", s)
                          end
                    end
            end
      | _, _ =>
          (error 400
             "Invalid source or destination path (safety check failed)", s)
      end
  | _, _ => (error 400 "Missing source or destination path", s)
  end.

(** *** [POST /api/save] *)
Definition api_save (filePath content : option string) (s : Server)
    : Response * Server :=
  match truthy filePath, content with
  | Some fileSuffix, Some content =>
      match truthy (getSafePath fileSuffix) with
      | None => (error 400 "Invalid file path (safety check failed)", s)
      | Some fileFullPath =>
          if negb (Fs.pathExists (fs s) fileFullPath) then
            (error 404 ("File not found: " +:+ fileSuffix), s)
          else
            match Fs.stat (fs s) fileFullPath with
            | None => (error 500 "Error checking file before save", s)
            | Some st =>
                if negb (Fs.is_file st) then
                  (error 400 "Target path is not a file.", s)
                else
                  match Fs.writeFile fileFullPath content (fs s) with
                  | Some fs' =>
                      (ok ("File '" +:+ Path.basename fileFullPath
                           +:+ "' saved successfully."),
                       with_fs s fs')
                  | None => (error 500 "Failed to save file", s)
                  end
            end
      end
  | _, _ => (error 400 "Missing file path or content", s)
  end.

End App.

(** ** The paths of a listing

    [GET /api/browse] sends, with the entries of the directory, the
    relative path of each entry and the relative path of the parent
    directory.  Both are computed from the subpath of the request alone. *)

(** The string without the separators at its end. *)
Fixpoint strip_trailing_seps (s : string) : string :=
  match s with
  | EmptyString => EmptyString
  | String c s' =>
      let r := strip_trailing_seps s' in
      if Js.str_eqb r "" && Path.is_sep c then EmptyString else String c r
  end.

(** What is before the last separator, if there is one. *)
Fixpoint before_last_sep (s : string) : option string :=
  match s with
  | EmptyString => None
  | String c s' =>
      match before_last_sep s' with
      | Some pre => Some (String c pre)
      | None => if Path.is_sep c then Some EmptyString else None
      end
  end.

(** [path.dirname(p)]: the loop runs from the end down to the second
    character, skips the separators at the end and stops at the separator
    before the last component. *)
Definition dirname (path : string) : string :=
  match path with
  | EmptyString => "."
  | String c0 rest =>
      let hasRoot := Path.is_sep c0 in
      match before_last_sep (strip_trailing_seps rest) with
      | None => if hasRoot then "/" else "."
      | Some pre =>
          if hasRoot && Js.str_eqb pre "" then "//" else String c0 pre
      end
  end.

(** [s.replace(/\\/g, '/')]: every backslash becomes a slash. *)
Fixpoint replace_backslashes (s : string) : string :=
  match s with
  | EmptyString => EmptyString
  | String c s' =>
      String (if Ascii.eqb c "\"%char then "/"%char else c)
        (replace_backslashes s')
  end.

(** [parent_path] of the listing; [None] is [null]. *)
Definition browse_parent_path (subpath : string) : option string :=
  if Js.falsy (Some subpath) then None
  else
    let parentPath := replace_backslashes (dirname subpath) in
    Some (if Js.str_eqb parentPath "." then "" else parentPath).

(** The [path] of the entry named [itemName]. *)
Definition browse_item_path (subpath itemName : string) : string :=
  replace_backslashes (Path.join subpath itemName).

(** ** Predicates on paths and names *)

(** No separator occurs in the string. *)
Fixpoint no_sep (s : string) : bool :=
  match s with
  | EmptyString => true
  | String c s' => negb (Path.is_sep c) && no_sep s'
  end.

(** A segment of a normalized absolute path. *)
Definition plain_segment (seg : string) : Prop :=
  no_sep seg = true ∧ seg ≠ "" ∧ seg ≠ "." ∧ seg ≠ "..".

(** The normalized absolute paths: a slash, then plain segments with a
    slash between them. *)
Definition canonical (p : string) : Prop :=
  ∃ segs, p = Fs.of_segments segs ∧ Forall plain_segment segs.

(** No character of the class the sanitizers replace is left. *)
Fixpoint clean (s : string) : bool :=
  match s with
  | EmptyString => true
  | String c s' => negb (Js.illegal_char c) && clean s'
  end.

(** No percent sign occurs in the string: nothing for
    [decodeURIComponent] to decode. *)
Fixpoint no_percent (s : string) : bool :=
  match s with
  | EmptyString => true
  | String c s' => negb (Ascii.eqb c "%"%char) && no_percent s'
  end.

(** The entries [Fs.move] puts under the new name: those within [src],
    each under [dst] in place of [src]. *)
Definition relocated (src dst : string) (disk : gmap string Fs.node)
    : gmap string Fs.node :=
  list_to_map
    (map (fun kv : string * Fs.node => (Fs.rebase src dst kv.1, kv.2))
       (map_to_list
          (filter (fun kv : string * Fs.node => Fs.within src kv.1 = true)
             disk))).

(** No backslash occurs in the string. *)
Fixpoint no_backslash (s : string) : bool :=
  match s with
  | EmptyString => true
  | String c s' => negb (Ascii.eqb c "\"%char) && no_backslash s'
  end.

(** ** Sample states

    A small disk under the storage root [/srv/data], and registries whose
    links were created at the times given. *)

Definition two_stale_links : list (string * Registry.ShareInfo) :=
  [("1b9d6bcd", {| Registry.path := "a.txt"; Registry.created_at := 0 |});
   ("7c9e6679", {| Registry.path := "b.txt"; Registry.created_at := 0 |})].

Definition small_disk : gmap string Fs.node :=
  list_to_map
    [("/", Fs.Dir); ("/srv", Fs.Dir); ("/srv/data", Fs.Dir);
     ("/srv/data/a.txt", Fs.File "alpha");
     ("/srv/data/b.txt", Fs.File "beta");
     ("/srv/data/dir", Fs.Dir); ("/srv/data/dir/sub", Fs.Dir)].

(** The same disk with a dot file in the storage root. *)
Definition disk_with_dot_file : gmap string Fs.node :=
  <["/srv/data/.env" := Fs.File "KEY=1"]> small_disk.

Definition fresh_and_stale : list (string * Registry.ShareInfo) :=
  [("1b9d6bcd", {| Registry.path := "a.txt"; Registry.created_at := 7000000 |});
   ("7c9e6679", {| Registry.path := "b.txt"; Registry.created_at := 0 |})].

Definition disk_with_stamped_dir : gmap string Fs.node :=
  <["/srv/data/a_1700000000000.txt" := Fs.Dir]> small_disk.

(** * Properties *)

(** ** Strings *)

Section StringFacts.

Lemma app_cons c (a b : string) : String c a +:+ b = String c (a +:+ b).
Proof. reflexivity. Qed.

Lemma app_empty_l (b : string) : "" +:+ b = b.
Proof. reflexivity. Qed.

Lemma app_empty_r (a : string) : a +:+ "" = a.
Proof. induction a as [|c a IH]; [done|]. by rewrite app_cons, IH. Qed.

Lemma app_assoc_s (a b c : string) : (a +:+ b) +:+ c = a +:+ (b +:+ c).
Proof.
  induction a as [|x a IH]; [done|]. by rewrite !app_cons, IH.
Qed.

Lemma length_app_s (a b : string) :
  String.length (a +:+ b) = (String.length a + String.length b)%nat.
Proof.
  induction a as [|x a IH]; [done|]. rewrite app_cons. simpl. by rewrite IH.
Qed.

Lemma str_eqb_true (a b : string) : Js.str_eqb a b = true ↔ a = b.
Proof. unfold Js.str_eqb. apply bool_decide_eq_true. Qed.

Lemma str_eqb_false (a b : string) : Js.str_eqb a b = false ↔ a ≠ b.
Proof. unfold Js.str_eqb. apply bool_decide_eq_false. Qed.

Lemma str_eqb_refl (a : string) : Js.str_eqb a a = true.
Proof. by apply str_eqb_true. Qed.

(** [startsWith] is the prefix relation. *)
Lemma startsWith_spec (s p : string) :
  Js.startsWith s p = true ↔ ∃ t, s = p +:+ t.
Proof.
  revert s. induction p as [|c p IH]; intros s; simpl.
  - split; [intros _; by exists s | reflexivity].
  - destruct s as [|d s].
    + split; [discriminate|]. intros [t Ht]. by rewrite app_cons in Ht.
    + rewrite andb_true_iff, IH. split.
      * intros [Hc [t ->]]. apply Ascii.eqb_eq in Hc as ->.
        exists t. by rewrite app_cons.
      * intros [t Ht]. rewrite app_cons in Ht. injection Ht as -> ->.
        split; [apply Ascii.eqb_refl | by exists t].
Qed.

Lemma substring_0_app (a b : string) :
  String.substring 0 (String.length a) (a +:+ b) = a.
Proof.
  induction a as [|c a IH].
  - simpl. by destruct b.
  - rewrite app_cons. simpl. by rewrite IH.
Qed.

Lemma substring_all (b : string) :
  String.substring 0 (String.length b) b = b.
Proof. induction b as [|c b IH]; [done|]. simpl. by rewrite IH. Qed.

Lemma substring_skip_app (a b : string) :
  String.substring (String.length a) (String.length b) (a +:+ b) = b.
Proof.
  induction a as [|c a IH].
  - rewrite app_empty_l. apply substring_all.
  - rewrite app_cons. simpl. apply IH.
Qed.

Lemma endsWith_app (a b : string) : Js.endsWith (a +:+ b) b = true.
Proof.
  unfold Js.endsWith. rewrite length_app_s.
  apply andb_true_iff. split.
  - apply Nat.leb_le. lia.
  - replace (String.length a + String.length b - String.length b)%nat
      with (String.length a) by lia.
    rewrite substring_skip_app. apply str_eqb_refl.
Qed.

End StringFacts.

(** ** Paths *)

Section PathFacts.

Lemma no_sep_app (a b : string) : no_sep (a +:+ b) = no_sep a && no_sep b.
Proof.
  induction a as [|c a IH]; [done|].
  rewrite app_cons. simpl. rewrite IH. by rewrite andb_assoc.
Qed.

Lemma split_not_nil (s : string) : Path.split s ≠ [].
Proof.
  induction s as [|c s IH]; simpl; [done|].
  destruct (Path.is_sep c); [done|]. by destruct (Path.split s).
Qed.

Lemma split_app_sep (a b : string) :
  Path.split (a +:+ "/" +:+ b) = Path.split a ++ Path.split b.
Proof.
  induction a as [|c a IH].
  - reflexivity.
  - rewrite app_cons. simpl. destruct (Path.is_sep c).
    + by rewrite IH.
    + rewrite IH. pose proof (split_not_nil a).
      by destruct (Path.split a).
Qed.

Lemma split_no_sep (s : string) : no_sep s = true → Path.split s = [s].
Proof.
  induction s as [|c s IH]; simpl; [done|].
  intros [Hc Hs]%andb_true_iff. apply negb_true_iff in Hc.
  by rewrite Hc, (IH Hs).
Qed.

Lemma split_segments_no_sep (s : string) :
  Forall (fun seg => no_sep seg = true) (Path.split s).
Proof.
  induction s as [|c s IH]; simpl.
  - by repeat constructor.
  - destruct (Path.is_sep c) eqn:Hc.
    + by constructor.
    + destruct (Path.split s) as [|h t].
      * constructor; [|constructor]. simpl. by rewrite Hc.
      * inversion IH; subst. constructor; [|done]. simpl. by rewrite Hc.
Qed.

Lemma join_segments_cons (x y : string) (l : list string) :
  Path.join_segments (x :: y :: l)
  = x +:+ "/" +:+ Path.join_segments (y :: l).
Proof. reflexivity. Qed.

Lemma split_join_segments (l : list string) :
  l ≠ [] → Forall (fun seg => no_sep seg = true) l →
  Path.split (Path.join_segments l) = l.
Proof.
  induction l as [|x l IH]; [done|]. intros _ Hl.
  inversion Hl as [|? ? Hx Hl']; subst.
  destruct l as [|y l].
  - by apply split_no_sep.
  - rewrite join_segments_cons, split_app_sep, split_no_sep by done.
    simpl. f_equal. by apply IH.
Qed.

Lemma plain_no_sep (l : list string) :
  Forall plain_segment l → Forall (fun seg => no_sep seg = true) l.
Proof. intros H. eapply Forall_impl; [exact H|]. by intros seg [? _]. Qed.

Lemma split_of_segments (l : list string) :
  l ≠ [] → Forall plain_segment l →
  Path.split (Fs.of_segments l) = "" :: l.
Proof.
  intros Hne Hl. unfold Fs.of_segments.
  change ("/" +:+ Path.join_segments l)
    with ("" +:+ "/" +:+ Path.join_segments l).
  rewrite split_app_sep. simpl. f_equal.
  apply split_join_segments; [done|]. by apply plain_no_sep.
Qed.

Lemma normalize_step_plain (allow : bool) (stack : list string) (seg : string) :
  plain_segment seg → Path.normalize_step allow stack seg = seg :: stack.
Proof.
  intros (_ & H1 & H2 & H3). unfold Path.normalize_step.
  apply str_eqb_false in H1, H2, H3. by rewrite H1, H2, H3.
Qed.

Lemma normalize_step_empty (allow : bool) (stack : list string) :
  Path.normalize_step allow stack "" = stack.
Proof. reflexivity. Qed.

Lemma fold_normalize_plain (allow : bool) (l stack : list string) :
  Forall plain_segment l →
  fold_left (Path.normalize_step allow) l stack = rev l ++ stack.
Proof.
  revert stack. induction l as [|x l IH]; intros stack Hl; [done|].
  inversion Hl; subst. simpl.
  rewrite normalize_step_plain by done. rewrite IH by done.
  by rewrite <- app_assoc.
Qed.

Lemma normalize_step_keeps_plain (stack : list string) (seg : string) :
  Forall plain_segment stack → no_sep seg = true →
  Forall plain_segment (Path.normalize_step false stack seg).
Proof.
  intros Hst Hseg. unfold Path.normalize_step.
  destruct (Js.str_eqb seg "") eqn:E1; [done|].
  destruct (Js.str_eqb seg ".") eqn:E2; [done|].
  destruct (Js.str_eqb seg "..") eqn:E3; simpl.
  - destruct stack as [|top rest]; [done|].
    destruct (Js.str_eqb top ".."); [done|]. by inversion Hst.
  - constructor; [|done].
    apply str_eqb_false in E1, E2, E3. by repeat split.
Qed.

Lemma fold_normalize_keeps_plain (l stack : list string) :
  Forall plain_segment stack → Forall (fun seg => no_sep seg = true) l →
  Forall plain_segment (fold_left (Path.normalize_step false) l stack).
Proof.
  revert stack. induction l as [|x l IH]; intros stack Hst Hl; [done|].
  inversion Hl; subst. simpl. apply IH; [|done].
  by apply normalize_step_keeps_plain.
Qed.

Lemma normalize_segments_plain (path : string) :
  Forall plain_segment (Path.normalize_segments false (Path.split path)).
Proof.
  unfold Path.normalize_segments. apply Forall_rev.
  apply fold_normalize_keeps_plain; [constructor|].
  apply split_segments_no_sep.
Qed.

(** With an absolute working directory the loop of [path.resolve] always
    ends on an absolute prefix. *)
Lemma resolve_loop_absolute (cwd : string) (l : list string) (acc : string) :
  Path.isAbsolute cwd = true → (Path.resolve_loop (l ++ [cwd]) acc).2 = true.
Proof.
  intros Hcwd. revert acc. induction l as [|p l IH]; intros acc; simpl.
  - destruct cwd as [|c cwd]; [done|].
    assert (Js.str_eqb (String c cwd) "" = false) as ->
      by by apply str_eqb_false.
    simpl in Hcwd. simpl. by rewrite Hcwd.
  - destruct (Js.str_eqb p ""); [apply IH|].
    destruct (Path.isAbsolute p); [done | apply IH].
Qed.

Lemma resolve_canonical (cwd : string) (args : list string) :
  Path.isAbsolute cwd = true → canonical (Path.resolve cwd args).
Proof.
  intros Hcwd. unfold Path.resolve.
  pose proof (resolve_loop_absolute cwd (rev args) "" Hcwd) as Habs.
  destruct (Path.resolve_loop (rev args ++ [cwd]) "") as [rp abs].
  simpl in Habs. subst abs. simpl.
  exists (Path.normalize_segments false (Path.split rp)).
  split; [done | apply normalize_segments_plain].
Qed.

Lemma resolve_not_empty (cwd : string) (args : list string) :
  Path.resolve cwd args ≠ "".
Proof.
  unfold Path.resolve.
  destruct (Path.resolve_loop (rev args ++ [cwd]) "") as [rp abs]. simpl.
  destruct abs; [done|].
  destruct (Js.str_eqb _ "") eqn:E; [done|]. by apply str_eqb_false in E.
Qed.

End PathFacts.

(** ** The sandbox of [getSafePath] *)

Section Sandbox.

Variables cwd STORAGE_PATH : string.

Abbreviation root := (RESOLVED_UPLOAD_FOLDER_ROOT cwd STORAGE_PATH).
Abbreviation safe := (getSafePath cwd STORAGE_PATH).

(** What [getSafePath] computes, case by case. *)
Lemma getSafePath_cases (suffix : string) :
  safe suffix =
    match Js.decodeURIComponent suffix with
    | None => None
    | Some decoded =>
        let candidate := Path.resolve cwd [root; decoded] in
        if Js.startsWith candidate (root +:+ Path.sep)
           || Js.str_eqb candidate root
        then Some candidate else None
    end.
Proof.
  unfold getSafePath. destruct (Js.decodeURIComponent suffix); [|done].
  simpl. by destruct (Js.startsWith _ _), (Js.str_eqb _ _).
Qed.

Lemma getSafePath_inv (suffix p : string) :
  safe suffix = Some p →
  ∃ decoded, Js.decodeURIComponent suffix = Some decoded
             ∧ p = Path.resolve cwd [root; decoded]
             ∧ (p = root ∨ Js.startsWith p (root +:+ Path.sep) = true).
Proof.
  rewrite getSafePath_cases.
  destruct (Js.decodeURIComponent suffix) as [decoded|]; [|done].
  simpl. destruct (Js.startsWith _ _) eqn:Hs; simpl.
  - intros [= <-]. eauto.
  - destruct (Js.str_eqb _ _) eqn:He; [|done].
    intros [= <-]. apply str_eqb_true in He. eauto.
Qed.

(** A path that passes is normalized: no empty segment, no [.] and no
    [..] is left in it. *)
Lemma getSafePath_canonical (suffix p : string) :
  Path.isAbsolute cwd = true → safe suffix = Some p → canonical p.
Proof.
  intros Hcwd (decoded & _ & -> & _)%getSafePath_inv.
  by apply resolve_canonical.
Qed.

(** A path that passes is never the empty string, so [if (!path)] tests
    exactly the rejection. *)
Lemma truthy_getSafePath (suffix : string) :
  truthy (safe suffix) = safe suffix.
Proof.
  destruct (safe suffix) as [p|] eqn:Hp; [|done].
  apply getSafePath_inv in Hp as (decoded & _ & -> & _).
  pose proof (resolve_not_empty cwd [root; decoded]) as Hne.
  destruct (Path.resolve cwd [root; decoded]); [done|reflexivity].
Qed.

End Sandbox.

(** C1. Whatever the suffix, a path that [getSafePath] returns is the
    storage root or begins with the storage root followed by the separator;
    a suffix whose decoded form resolves to a path that is neither (the
    [..] segments took it out of the root) is rejected, and so is a suffix
    that cannot be decoded. *)
Theorem getSafePath_sandbox (cwd STORAGE_PATH suffix : string) :
  let root := RESOLVED_UPLOAD_FOLDER_ROOT cwd STORAGE_PATH in
  (∀ p, getSafePath cwd STORAGE_PATH suffix = Some p →
        p = root ∨ ∃ rest, p = root +:+ Path.sep +:+ rest)
  ∧ (∀ decoded, Js.decodeURIComponent suffix = Some decoded →
       let candidate := Path.resolve cwd [root; decoded] in
       candidate ≠ root →
       (∀ rest, candidate ≠ root +:+ Path.sep +:+ rest) →
       getSafePath cwd STORAGE_PATH suffix = None)
  ∧ (Js.decodeURIComponent suffix = None →
     getSafePath cwd STORAGE_PATH suffix = None).
Proof.
  intros root. split; [|split].
  - intros p (decoded & _ & _ & [-> | Hs])%getSafePath_inv; [by left|].
    right. apply startsWith_spec in Hs as [rest ->].
    exists rest. by rewrite app_assoc_s.
  - intros decoded Hdec candidate Hne Hout.
    rewrite getSafePath_cases, Hdec. simpl. fold root. fold candidate.
    destruct (Js.startsWith candidate (root +:+ Path.sep)) eqn:Hs.
    + apply startsWith_spec in Hs as [rest Hrest].
      rewrite app_assoc_s in Hrest. by destruct (Hout rest).
    + simpl. by apply str_eqb_false in Hne as ->.
  - intros Hdec. by rewrite getSafePath_cases, Hdec.
Qed.

Lemma getSafePath_sandbox_witness :
  (∃ rest, "/srv/data/b.txt" = "/srv/data" +:+ "/" +:+ rest)
  ∧ getSafePath "/home/app" "/srv/data" "a/../../../etc/passwd" = None.
Proof.
  pose proof (getSafePath_sandbox "/home/app" "/srv/data" "docs/../b.txt")
    as (Hin & _ & _).
  pose proof (getSafePath_sandbox "/home/app" "/srv/data"
                "a/../../../etc/passwd") as (_ & Hout & _).
  split.
  - destruct (Hin "/srv/data/b.txt" eq_refl) as [H | H];
      [discriminate H | exact H].
  - apply (Hout "a/../../../etc/passwd" eq_refl).
    + vm_compute. discriminate.
    + intros rest. vm_compute. discriminate.
Defined.

(** Some suffixes that try to leave [/srv/data], and some that do not. *)
Example escape_dotdot :
  getSafePath "/home/app" "/srv/data" "../data/../../etc/passwd" = None.
Proof. reflexivity. Qed.

Example escape_encoded :
  getSafePath "/home/app" "/srv/data" "%2e%2e%2fsecret" = None.
Proof. reflexivity. Qed.

Example escape_absolute :
  getSafePath "/home/app" "/srv/data" "/etc/passwd" = None.
Proof. reflexivity. Qed.

Example escape_sibling :
  getSafePath "/home/app" "/srv/data" "../data2/x" = None.
Proof. reflexivity. Qed.

Example escape_bad_escape :
  getSafePath "/home/app" "/srv/data" "a%zz" = None.
Proof. reflexivity. Qed.

Example inside_after_dotdot :
  getSafePath "/home/app" "/srv/data" "a/b/../c"
  = Some "/srv/data/a/c".
Proof. reflexivity. Qed.

Example inside_root_itself :
  getSafePath "/home/app" "/srv/data" "a/.." = Some "/srv/data".
Proof. reflexivity. Qed.

(** ** The [shareLinks] object *)

Section RegistryFacts.

Implicit Types links : list (string * Registry.ShareInfo).

Lemma own_delete_eq links (id : string) :
  Registry.own (Registry.delete links id) id = None.
Proof.
  induction links as [|[k v] links IH]; [done|].
  unfold Registry.delete in *. rewrite filter_cons. simpl.
  destruct (decide (k ≠ id)) as [Hne|Heq]; simpl; [|done].
  by apply str_eqb_false in Hne as ->.
Qed.

Lemma own_delete_ne links (id id' : string) :
  id' ≠ id →
  Registry.own (Registry.delete links id) id' = Registry.own links id'.
Proof.
  intros Hne. induction links as [|[k v] links IH]; [done|].
  unfold Registry.delete in *. rewrite filter_cons. simpl.
  destruct (decide (k ≠ id)) as [Hk|Hk]; simpl.
  - by rewrite IH.
  - apply dec_stable in Hk. subst k.
    assert (Js.str_eqb id id' = false) as -> by by apply str_eqb_false.
    exact IH.
Qed.

Lemma own_delete_Some links (id id' : string) (v : Registry.ShareInfo) :
  Registry.own (Registry.delete links id) id' = Some v →
  id' ≠ id ∧ Registry.own links id' = Some v.
Proof.
  intros H. destruct (decide (id' = id)) as [->|Hne].
  - by rewrite own_delete_eq in H.
  - by rewrite own_delete_ne in H.
Qed.

Lemma get_own links (id : string) (info : Registry.ShareInfo) :
  Registry.get links id = Registry.Own info ↔ Registry.own links id = Some info.
Proof.
  unfold Registry.get. destruct (Registry.own links id).
  - split; congruence.
  - by destruct (existsb _ _).
Qed.

Lemma get_undefined_own links (id : string) :
  Registry.get links id = Registry.Undefined → Registry.own links id = None.
Proof. unfold Registry.get. by destruct (Registry.own links id). Qed.

Lemma own_keys links (id : string) :
  id ∈ Registry.keys links → is_Some (Registry.own links id).
Proof.
  induction links as [|[k v] links IH]; simpl.
  - by intros ?%elem_of_nil.
  - intros [->|Hin]%elem_of_cons.
    + rewrite str_eqb_refl. eauto.
    + destruct (Js.str_eqb k id); eauto.
Qed.

(** The pass over the keys: it ends without a throw, it drops the entries
    whose reading of the clock is past their expiry, and it keeps every
    other entry as it was. *)
Lemma sweep_spec (clock : nat → Z) (ids : list string) :
  NoDup ids →
  ∀ (k : nat) links,
    (∀ id, id ∈ ids → is_Some (Registry.own links id)) →
    ∃ links',
      sweep clock k ids links = Some links'
      ∧ (∀ id v, Registry.own links' id = Some v →
                 Registry.own links id = Some v)
      ∧ (∀ id v i, ids !! i = Some id → Registry.own links id = Some v →
                   clock (k + i)%nat > expiry_of (Registry.created_at v) →
                   Registry.own links' id = None)
      ∧ (∀ id v, Registry.own links id = Some v →
                 (∀ i, ids !! i = Some id →
                       clock (k + i)%nat <= expiry_of (Registry.created_at v)) →
                 Registry.own links' id = Some v).
Proof.
  induction 1 as [|id ids Hnotin Hnd IH]; intros k links Hown.
  - exists links. simpl. repeat split; done.
  - simpl. destruct (Hown id) as [link Hlink]; [by left|].
    rewrite Hlink.
    destruct (clock k >? expiry_of (Registry.created_at link)) eqn:Hexp.
    + destruct (IH (S k) (Registry.delete links id)) as
        (links' & Hs & Hsub & Hdrop & Hkeep).
      { intros id' Hin. rewrite own_delete_ne by (intros ->; done).
        apply Hown. by right. }
      exists links'. split; [done|]. split; [|split].
      * intros id' v Hv. by apply Hsub, own_delete_Some in Hv as [_ ?].
      * intros id' v [|i] Hi Hv Hgt; simpl in Hi.
        -- injection Hi as <-.
           destruct (Registry.own links' id) as [w|] eqn:Hw; [|done].
           apply Hsub in Hw. by rewrite own_delete_eq in Hw.
        -- assert (id' ≠ id) as Hne.
           { intros ->. apply Hnotin. by eapply list_elem_of_lookup_2. }
           apply (Hdrop id' v i Hi); [by rewrite own_delete_ne|].
           by replace (S k + i)%nat with (k + S i)%nat by lia.
      * intros id' v Hv Hle.
        assert (id' ≠ id) as Hne.
        { intros ->. rewrite Hlink in Hv. injection Hv as <-.
          specialize (Hle 0%nat eq_refl).
          rewrite Nat.add_0_r in Hle. apply Z.gtb_lt in Hexp. lia. }
        apply Hkeep; [by rewrite own_delete_ne|].
        intros i Hi. specialize (Hle (S i) Hi).
        by replace (S k + i)%nat with (k + S i)%nat by lia.
    + destruct (IH (S k) links) as (links' & Hs & Hsub & Hdrop & Hkeep).
      { intros id' Hin. apply Hown. by right. }
      exists links'. split; [done|]. split; [done|]. split.
      * intros id' v [|i] Hi Hv Hgt; simpl in Hi.
        -- injection Hi as <-. rewrite Hlink in Hv. injection Hv as <-.
           rewrite Nat.add_0_r in Hgt.
           rewrite Z.gtb_ltb in Hexp. apply Z.ltb_ge in Hexp. lia.
        -- apply (Hdrop id' v i Hi Hv).
           by replace (S k + i)%nat with (k + S i)%nat by lia.
      * intros id' v Hv Hle. apply Hkeep; [done|].
        intros i Hi.
        destruct (decide (id' = id)) as [->|Hne].
        -- exfalso. apply Hnotin. by eapply list_elem_of_lookup_2.
        -- specialize (Hle (S i) Hi).
           by replace (S k + i)%nat with (k + S i)%nat by lia.
Qed.

End RegistryFacts.

(** ** Access to a share *)

Section ShareAccess.

Variables cwd STORAGE_PATH : string.

Abbreviation access := (share_access cwd STORAGE_PATH).

(** The hit branch, outcome by outcome: the registry is left alone or
    loses the entry looked up, and the disk is not touched. *)
Lemma share_access_hit (clock : nat → Z) (shareId : string) (s : Server)
    (info : Registry.ShareInfo) :
  Registry.own (shareLinks s) shareId = Some info →
  let forget := with_links s (Registry.delete (shareLinks s) shareId) in
  if clock 0%nat >? expiry_of (Registry.created_at info) then
    access clock shareId s
    = (Send 410 "Share link has expired (valid for 1 hour(s)).", forget)
  else
    match getSafePath cwd STORAGE_PATH (Registry.path info) with
    | None =>
        access clock shareId s
        = (Send 404 "Shared file path is invalid.", forget)
    | Some p =>
        match fs s !! p with
        | None =>
            access clock shareId s
            = (Send 404 "The shared file is no longer available.", forget)
        | Some Fs.Dir =>
            access clock shareId s
            = (Send 404 "The shared item is not a file.", forget)
        | Some (Fs.File _) =>
            access clock shareId s
            = (res_download cwd p (Path.basename p)
                 "Error downloading shared file.", s)
        end
    end.
Proof.
  intros Hown forget. unfold share_access.
  apply get_own in Hown. rewrite Hown. fold forget.
  destruct (clock 0%nat >? _); [reflexivity|].
  rewrite truthy_getSafePath.
  destruct (getSafePath cwd STORAGE_PATH (Registry.path info)) as [p|];
    [|reflexivity].
  unfold Fs.pathExists, Fs.stat.
  destruct (fs s !! p) as [[content|]|] eqn:Hp.
  - rewrite bool_decide_eq_true_2 by eauto. reflexivity.
  - rewrite bool_decide_eq_true_2 by eauto. reflexivity.
  - rewrite bool_decide_eq_false_2 by (by intros [? ?]). reflexivity.
Qed.

End ShareAccess.

(** C2, as stated, fails: two hours after both links were created, a lookup
    of the first one (a hit) removes that one only; the second, as stale,
    is still in the registry afterwards. *)
Lemma share_hit_leaves_stale_counterexample :
  let s := {| fs := small_disk; shareLinks := two_stale_links |} in
  let clock := fun _ : nat => 7200000 in
  clock 0%nat > expiry_of 0
  ∧ (share_access "/home/app" "/srv/data" clock "1b9d6bcd" s).1
    = Send 410 "Share link has expired (valid for 1 hour(s))."
  ∧ Registry.own
      (shareLinks (share_access "/home/app" "/srv/data" clock "1b9d6bcd" s).2)
      "7c9e6679"
    = Some {| Registry.path := "b.txt"; Registry.created_at := 0 |}.
Proof. vm_compute. repeat split; reflexivity. Qed.

(** C2, amended. A lookup of an id for which [shareLinks[id]] is undefined
    (a miss: no entry, and no member of [Object.prototype] of that name)
    answers 404 and removes every entry that had expired when the request
    came in, whichever id it belongs to; the entries it leaves are
    unchanged.  [t0] is the time of the request; the clock is read
    afterwards and does not run backwards. *)
Theorem share_miss_sweeps_all (cwd STORAGE_PATH : string) (clock : nat → Z)
    (shareId : string) (s : Server) (t0 : Z) :
  Registry.wf (shareLinks s) = true →
  Registry.get (shareLinks s) shareId = Registry.Undefined →
  (∀ k, t0 <= clock k) →
  ∃ links',
    share_access cwd STORAGE_PATH clock shareId s
    = (Send 404 "Share link is invalid or has expired.", with_links s links')
    ∧ (∀ id info, Registry.own (shareLinks s) id = Some info →
                  t0 > expiry_of (Registry.created_at info) →
                  Registry.own links' id = None)
    ∧ (∀ id info, Registry.own links' id = Some info →
                  Registry.own (shareLinks s) id = Some info).
Proof.
  intros Hwf Hmiss Hclock. unfold share_access. rewrite Hmiss.
  apply bool_decide_eq_true in Hwf.
  destruct (sweep_spec clock (Registry.keys (shareLinks s)) Hwf 0%nat
              (shareLinks s) (own_keys (shareLinks s)))
    as (links' & -> & Hsub & Hdrop & _).
  exists links'. split; [done|]. split; [|done].
  intros id info Hown Hexp.
  assert (id ∈ Registry.keys (shareLinks s)) as Hin.
  { clear -Hown. induction (shareLinks s) as [|[k v] l IH]; [done|].
    simpl in *. destruct (Js.str_eqb k id) eqn:E.
    - apply str_eqb_true in E as ->. by left.
    - right. by apply IH. }
  apply list_elem_of_lookup_1 in Hin as [i Hi].
  apply (Hdrop id info i Hi Hown). specialize (Hclock (0 + i)%nat). lia.
Qed.

Lemma share_miss_sweeps_all_witness :
  ∃ links',
    share_access "/home/app" "/srv/data" (fun _ => 7200000) "0e37df36"
      {| fs := small_disk; shareLinks := two_stale_links |}
    = (Send 404 "Share link is invalid or has expired.",
       with_links {| fs := small_disk; shareLinks := two_stale_links |} links')
    ∧ (∀ id info, Registry.own two_stale_links id = Some info →
                  7200000 > expiry_of (Registry.created_at info) →
                  Registry.own links' id = None)
    ∧ (∀ id info, Registry.own links' id = Some info →
                  Registry.own two_stale_links id = Some info).
Proof.
  apply (share_miss_sweeps_all "/home/app" "/srv/data" (fun _ => 7200000)
           "0e37df36" {| fs := small_disk; shareLinks := two_stale_links |}
           7200000).
  - vm_compute. reflexivity.
  - vm_compute. reflexivity.
  - intros k. simpl. lia.
Defined.

Example share_miss_empties_stale_registry :
  (share_access "/home/app" "/srv/data" (fun _ => 7200000) "0e37df36"
     {| fs := small_disk; shareLinks := two_stale_links |}).2
  = {| fs := small_disk; shareLinks := [] |}.
Proof. vm_compute. reflexivity. Qed.

(** A name of [Object.prototype] is no miss: the handler throws. *)
Example share_access_inherited_name :
  share_access "/home/app" "/srv/data" (fun _ => 7200000) "constructor"
    {| fs := small_disk; shareLinks := two_stale_links |}
  = (Uncaught, {| fs := small_disk; shareLinks := two_stale_links |}).
Proof. reflexivity. Qed.

(** C6. On a lookup that finds an entry: when the age of the entry exceeds
    the window of one hour, the entry is deleted and the answer is 410 with
    the length of the window in its text; otherwise the answer is not 410
    and the entry is never replaced by another one (its [created_at] is what
    it was, if the entry is still there).  When, within the window, the
    target is a regular file, nothing changes at all, the entry included:
    the file is sent if the [send] stream takes its path, and the answer is
    500 if it refuses it, as it does for a name that begins with a dot. *)
Theorem share_hit_expiry (cwd STORAGE_PATH : string) (clock : nat → Z)
    (shareId : string) (s : Server) (info : Registry.ShareInfo) :
  Registry.own (shareLinks s) shareId = Some info →
  let now := clock 0%nat in
  let age := now - Registry.created_at info in
  let result := share_access cwd STORAGE_PATH clock shareId s in
  SHARE_DURATION_HOURS = 1
  ∧ (age > 3600000 →
       result.1 = Send 410 "Share link has expired (valid for 1 hour(s))."
       ∧ shareLinks result.2 = Registry.delete (shareLinks s) shareId
       ∧ Registry.own (shareLinks result.2) shareId = None)
  ∧ (age <= 3600000 →
       status_of result.1 ≠ Some 410
       ∧ (∀ info', Registry.own (shareLinks result.2) shareId = Some info' →
                   info' = info)
       ∧ (∀ p content,
            getSafePath cwd STORAGE_PATH (Registry.path info) = Some p →
            fs s !! p = Some (Fs.File content) →
            result.2 = s
            ∧ Registry.own (shareLinks result.2) shareId = Some info
            ∧ (Express.send_error (Path.resolve cwd [p]) = None →
               result.1 = Download p (Path.basename p))
            ∧ (Express.send_error (Path.resolve cwd [p]) ≠ None →
               result.1 = Send 500 "Error downloading shared file."))).
Proof.
  intros Hown now age result. split; [reflexivity|].
  pose proof (share_access_hit cwd STORAGE_PATH clock shareId s info Hown)
    as Hhit.
  simpl in Hhit. fold result in Hhit.
  assert (expiry_of (Registry.created_at info)
          = Registry.created_at info + 3600000) as Hexp by reflexivity.
  destruct (clock 0%nat >? expiry_of (Registry.created_at info)) eqn:Hgt.
  - apply Z.gtb_lt in Hgt. split; [|subst age now; lia].
    intros _. rewrite Hhit. simpl. repeat split. apply own_delete_eq.
  - rewrite Z.gtb_ltb in Hgt. apply Z.ltb_ge in Hgt.
    split; [subst age now; lia|]. intros _.
    destruct (getSafePath cwd STORAGE_PATH (Registry.path info)) as [p|].
    + destruct (fs s !! p) as [[content|]|] eqn:Hp; rewrite Hhit; simpl.
      * split; [|split].
        -- unfold res_download. by destruct (Express.send_error _).
        -- intros info' Hi. rewrite Hown in Hi. by injection Hi.
        -- intros ? ? [= <-] _. split; [done|]. split; [done|].
           unfold res_download.
           destruct (Express.send_error _); split; intros; congruence.
      * split; [done|split].
        -- intros info' Hi. by rewrite own_delete_eq in Hi.
        -- intros ? ? [= <-] Hf. by rewrite Hp in Hf.
      * split; [done|split].
        -- intros info' Hi. by rewrite own_delete_eq in Hi.
        -- intros ? ? [= <-] Hf. by rewrite Hp in Hf.
    + rewrite Hhit. simpl. split; [done|split]; [|done].
      intros info' Hi. by rewrite own_delete_eq in Hi.
Qed.

Lemma share_hit_expiry_witness :
  let s := {| fs := small_disk; shareLinks := fresh_and_stale |} in
  let clock := fun _ : nat => 7200000 in
  (share_access "/home/app" "/srv/data" clock "7c9e6679" s).1
  = Send 410 "Share link has expired (valid for 1 hour(s))."
  ∧ (share_access "/home/app" "/srv/data" clock "1b9d6bcd" s).1
    = Download "/srv/data/a.txt" "a.txt"
  ∧ (share_access "/home/app" "/srv/data" clock "1b9d6bcd" s).2 = s.
Proof.
  intros s clock. split.
  - pose proof (share_hit_expiry "/home/app" "/srv/data" clock "7c9e6679" s
                  {| Registry.path := "b.txt"; Registry.created_at := 0 |}
                  eq_refl) as (_ & Hold & _).
    apply Hold. vm_compute. reflexivity.
  - pose proof (share_hit_expiry "/home/app" "/srv/data" clock "1b9d6bcd" s
                  {| Registry.path := "a.txt";
                     Registry.created_at := 7000000 |}
                  eq_refl) as (_ & _ & Hfresh).
    destruct Hfresh as (_ & _ & Hserve).
    + vm_compute. discriminate.
    + destruct (Hserve "/srv/data/a.txt" "alpha") as (Hsame & _ & Hsent & _);
        [vm_compute; reflexivity..|].
      split; [|exact Hsame]. apply Hsent. vm_compute. reflexivity.
Defined.

(** A link to a dot file, within its hour: the stream refuses the name, the
    callback answers 500, and the link stays. *)
Example share_access_dot_file :
  let s := {| fs := disk_with_dot_file;
              shareLinks := [("1b9d6bcd",
                              {| Registry.path := ".env";
                                 Registry.created_at := 7000000 |})] |} in
  share_access "/home/app" "/srv/data" (fun _ => 7200000) "1b9d6bcd" s
  = (Send 500 "Error downloading shared file.", s).
Proof. vm_compute. reflexivity. Qed.

(** C10. A lookup that finds an entry removes at most that entry: the
    registry afterwards is the registry before, or the registry before
    without the id looked up; every other id keeps its entry, stale or
    not, and the disk is not written. *)
Theorem share_hit_frame (cwd STORAGE_PATH : string) (clock : nat → Z)
    (shareId : string) (s : Server) (info : Registry.ShareInfo) :
  Registry.own (shareLinks s) shareId = Some info →
  let s' := (share_access cwd STORAGE_PATH clock shareId s).2 in
  (shareLinks s' = shareLinks s
   ∨ shareLinks s' = Registry.delete (shareLinks s) shareId)
  ∧ (∀ id, id ≠ shareId →
           Registry.own (shareLinks s') id = Registry.own (shareLinks s) id)
  ∧ fs s' = fs s.
Proof.
  intros Hown s'.
  assert (s' = s
          ∨ s' = with_links s (Registry.delete (shareLinks s) shareId))
    as [Hs' | Hs'].
  { pose proof (share_access_hit cwd STORAGE_PATH clock shareId s info Hown)
      as Hhit.
    simpl in Hhit. subst s'.
    destruct (clock 0%nat >? _); [rewrite Hhit; by right|].
    destruct (getSafePath cwd STORAGE_PATH (Registry.path info)) as [p|];
      [|rewrite Hhit; by right].
    destruct (fs s !! p) as [[content|]|]; rewrite Hhit; auto. }
  - rewrite Hs'. by repeat split; [left|..].
  - rewrite Hs'. simpl. split; [by right|]. split; [|done].
    intros id Hne. by apply own_delete_ne.
Qed.

Lemma share_hit_frame_witness :
  let s := {| fs := small_disk; shareLinks := two_stale_links |} in
  let s' :=
    (share_access "/home/app" "/srv/data" (fun _ => 7200000) "1b9d6bcd" s).2 in
  (shareLinks s' = shareLinks s
   ∨ shareLinks s' = Registry.delete (shareLinks s) "1b9d6bcd")
  ∧ (∀ id, id ≠ "1b9d6bcd" →
           Registry.own (shareLinks s') id = Registry.own (shareLinks s) id)
  ∧ fs s' = fs s.
Proof.
  intros s.
  apply (share_hit_frame "/home/app" "/srv/data" (fun _ => 7200000)
           "1b9d6bcd" s
           {| Registry.path := "a.txt"; Registry.created_at := 0 |}).
  reflexivity.
Defined.

(** ** File operations *)

Section FileOperations.

Variables cwd STORAGE_PATH : string.

Abbreviation root := (RESOLVED_UPLOAD_FOLDER_ROOT cwd STORAGE_PATH).
Abbreviation safe := (getSafePath cwd STORAGE_PATH).

Lemma with_fs_same (s : Server) : with_fs s (fs s) = s.
Proof. by destruct s. Qed.

Lemma pathExists_true (disk : gmap string Fs.node) (p : string) :
  Fs.pathExists disk p = true ↔ is_Some (disk !! p).
Proof. unfold Fs.pathExists. apply bool_decide_eq_true. Qed.

Lemma pathExists_false (disk : gmap string Fs.node) (p : string) :
  Fs.pathExists disk p = false ↔ disk !! p = None.
Proof.
  unfold Fs.pathExists. rewrite bool_decide_eq_false.
  by rewrite eq_None_not_Some.
Qed.

Lemma truthy_Some (v : string) : v ≠ "" → truthy (Some v) = Some v.
Proof.
  intros Hv. unfold truthy, Js.falsy.
  by apply str_eqb_false in Hv as ->.
Qed.

Lemma truthy_inv (v : option string) (x : string) :
  truthy v = Some x → v = Some x ∧ x ≠ "".
Proof.
  destruct v as [y|]; [|done]. unfold truthy, Js.falsy.
  destruct (Js.str_eqb y "") eqn:E; [done|].
  intros [= ->]. by apply str_eqb_false in E.
Qed.

Lemma clean_replace_illegal (s : string) : clean (Js.replace_illegal s) = true.
Proof.
  induction s as [|c s IH]; [done|]. simpl. rewrite IH, andb_true_r.
  by destruct (Js.illegal_char c) eqn:E; [|rewrite E].
Qed.

Lemma replace_illegal_not_empty (s : string) :
  s ≠ "" → Js.replace_illegal s ≠ "".
Proof. by destruct s. Qed.

Lemma sanitize_dir_name_ok (dir_name : string) :
  dir_name ≠ "" →
  let name := sanitize_dir_name dir_name in
  clean name = true ∧ name ≠ "" ∧ name ≠ "." ∧ name ≠ "..".
Proof.
  intros Hne name. subst name. unfold sanitize_dir_name, Js.replace_only_dots.
  pose proof (replace_illegal_not_empty _ Hne) as Hne'.
  pose proof (clean_replace_illegal dir_name) as Hclean.
  destruct (Js.only_dots (Js.replace_illegal dir_name)) eqn:Hdots; [done|].
  repeat split; [done..| |]; intros Heq; by rewrite Heq in Hdots.
Qed.

Lemma sanitize_only_dots (dir_name : string) :
  Js.only_dots dir_name = true → sanitize_dir_name dir_name = "_".
Proof.
  intros Hd. unfold sanitize_dir_name, Js.replace_only_dots.
  assert (Js.replace_illegal dir_name = dir_name) as ->; [|by rewrite Hd].
  apply andb_true_iff in Hd as [_ Hd]. clear -Hd.
  induction dir_name as [|c d IH]; [done|]. simpl in *.
  apply andb_true_iff in Hd as [->%Ascii.eqb_eq Hd]. simpl.
  by rewrite IH.
Qed.

End FileOperations.

(** C3, as stated, fails: the name [..] is not rejected; the directory [_]
    is created in its place and the answer is 200. *)
Lemma mkdir_dotdot_counterexample :
  let s := {| fs := small_disk; shareLinks := [] |} in
  let result := api_mkdir "/home/app" "/srv/data" (Some "") (Some "..") s in
  result.1 = ok "Directory '_' created successfully in /"
  ∧ fs s !! "/srv/data/_" = None
  ∧ fs result.2 !! "/srv/data/_" = Some Fs.Dir.
Proof. vm_compute. repeat split; reflexivity. Qed.

(** C3, amended. [/api/mkdir] replaces every character illegal in a file
    name by the placeholder and a name made of dots only, [.] and [..]
    among them, by one placeholder: the sanitized name is never empty, [.]
    or [..], and no name that is not empty is answered with the 400 of an
    invalid name; a missing or empty name is answered 400; and when an
    entry exists at the target, under a parent that is a directory, the
    answer is 409 and nothing is created. *)
Theorem mkdir_sanitizes (cwd STORAGE_PATH : string)
    (parent_path : option string) (dir_name : string) (s : Server) :
  dir_name ≠ "" →
  let name := sanitize_dir_name dir_name in
  (clean name = true ∧ name ≠ "" ∧ name ≠ "." ∧ name ≠ "..")
  ∧ (Js.only_dots dir_name = true → name = "_")
  ∧ (api_mkdir cwd STORAGE_PATH parent_path (Some dir_name) s).1
    ≠ error 400 "Invalid directory name provided."
  ∧ api_mkdir cwd STORAGE_PATH parent_path None s
    = (error 400 "Directory name is required.", s)
  ∧ api_mkdir cwd STORAGE_PATH parent_path (Some "") s
    = (error 400 "Directory name is required.", s)
  ∧ (∀ parentDir,
       getSafePath cwd STORAGE_PATH (Js.or_empty parent_path) = Some parentDir →
       fs s !! parentDir = Some Fs.Dir →
       is_Some (fs s !! Path.join parentDir name) →
       api_mkdir cwd STORAGE_PATH parent_path (Some dir_name) s
       = (error 409 ("Directory or file '" +:+ name +:+ "' already exists."),
          s)).
Proof.
  intros Hne name.
  pose proof (sanitize_dir_name_ok dir_name Hne) as Hok.
  fold name in Hok. simpl in Hok. destruct Hok as (Hclean & H1 & H2 & H3).
  split; [done|]. split; [apply sanitize_only_dots|].
  assert (Js.falsy (Some name) || Js.str_eqb name "." || Js.str_eqb name ".."
          = false) as Hguard.
  { simpl. apply str_eqb_false in H1, H2, H3. by rewrite H1, H2, H3. }
  split; [|split; [done|split; [done|]]].
  - unfold api_mkdir. rewrite truthy_Some by done. fold name.
    rewrite Hguard, truthy_getSafePath.
    destruct (getSafePath _ _ _) as [parentDir|]; [|done].
    destruct (negb (Fs.pathExists (fs s) parentDir)); [done|].
    destruct (Fs.stat (fs s) parentDir) as [n|]; [|done].
    destruct (negb (Fs.is_dir n)); [done|].
    destruct (Fs.pathExists (fs s) (Path.join parentDir name)); [done|].
    by destruct (Fs.ensureDir _ _).
  - intros parentDir Hparent Hdir Htarget.
    unfold api_mkdir. rewrite truthy_Some by done. fold name.
    rewrite Hguard, truthy_getSafePath, Hparent.
    rewrite (proj2 (pathExists_true _ _)) by eauto.
    unfold Fs.stat. rewrite Hdir. simpl.
    by rewrite (proj2 (pathExists_true _ _)) by done.
Qed.

Lemma mkdir_sanitizes_witness :
  api_mkdir "/home/app" "/srv/data" (Some "") (Some "d?r") 
    {| fs := <["/srv/data/d_r" := Fs.Dir]> small_disk; shareLinks := [] |}
  = (error 409 "Directory or file 'd_r' already exists.",
     {| fs := <["/srv/data/d_r" := Fs.Dir]> small_disk; shareLinks := [] |}).
Proof.
  pose proof (mkdir_sanitizes "/home/app" "/srv/data" (Some "") "d?r"
                {| fs := <["/srv/data/d_r" := Fs.Dir]> small_disk;
                   shareLinks := [] |}) as H.
  destruct H as (_ & _ & _ & _ & _ & Hconflict); [discriminate|].
  apply (Hconflict "/srv/data").
  - reflexivity.
  - vm_compute. reflexivity.
  - vm_compute. eexists. reflexivity.
Defined.

(** C4. The code departs from the claim at [GET /api/browse]: the subpath
    [../../etc] fails the sandbox check, and the handler answers 404 (Path
    not found), where the claim says 400 and where [GET /download],
    [/api/delete] and [/api/save] answer 400 to the same path. *)
Theorem browse_rejected_path_is_404 :
  let s := {| fs := small_disk; shareLinks := [] |} in
  getSafePath "/home/app" "/srv/data" "../../etc" = None
  ∧ api_browse "/home/app" "/srv/data" (Some "../../etc") s
    = error 404 "Path not found"
  ∧ status_of (api_browse "/home/app" "/srv/data" (Some "../../etc") s)
    ≠ Some 400
  ∧ download "/home/app" "/srv/data" "../../etc" s
    = Send 400 "Invalid file path."
  ∧ api_delete "/home/app" "/srv/data" (Some "../../etc") s
    = (error 400 "Invalid path specified.", s)
  ∧ api_save "/home/app" "/srv/data" (Some "../../etc") (Some "x") s
    = (error 400 "Invalid file path (safety check failed)", s).
Proof. vm_compute. repeat split; (reflexivity || discriminate). Qed.

(** What each handler answers to a path that [getSafePath] rejects: the
    handlers that test the rejection on its own answer 400 and leave the
    state as it was; [GET /api/browse] tests it together with the existence
    of the path and answers 404. *)
Lemma unsafe_path_status (cwd STORAGE_PATH suffix : string) (s : Server) :
  getSafePath cwd STORAGE_PATH suffix = None →
  api_browse cwd STORAGE_PATH (Some suffix) s = error 404 "Path not found"
  ∧ status_of (download cwd STORAGE_PATH suffix s) = Some 400
  ∧ (∀ file now,
       let r := api_upload cwd STORAGE_PATH (Some suffix) file now s in
       status_of r.1 = Some 400 ∧ r.2 = s)
  ∧ (∀ dir_name,
       let r := api_mkdir cwd STORAGE_PATH (Some suffix) dir_name s in
       status_of r.1 = Some 400 ∧ r.2 = s)
  ∧ (let r := api_delete cwd STORAGE_PATH (Some suffix) s in
     status_of r.1 = Some 400 ∧ r.2 = s)
  ∧ (∀ shareId origin now,
       let r := api_share cwd STORAGE_PATH (Some suffix) shareId origin now s in
       status_of r.1 = Some 400 ∧ r.2 = s)
  ∧ (∀ other,
       let r := api_move cwd STORAGE_PATH (Some suffix) other s in
       status_of r.1 = Some 400 ∧ r.2 = s)
  ∧ (∀ other,
       let r := api_move cwd STORAGE_PATH other (Some suffix) s in
       status_of r.1 = Some 400 ∧ r.2 = s)
  ∧ (∀ content,
       let r := api_save cwd STORAGE_PATH (Some suffix) content s in
       status_of r.1 = Some 400 ∧ r.2 = s).
Proof.
  intros Hrej.
  assert (truthy (getSafePath cwd STORAGE_PATH suffix) = None) as Htr
    by by rewrite Hrej.
  assert (∃ msg, api_delete cwd STORAGE_PATH (Some suffix) s
                 = (error 400 msg, s)) as [msg Hdel].
  { unfold api_delete.
    destruct (truthy (Some suffix)) as [x|] eqn:E; [|by eexists].
    apply truthy_inv in E as [[= <-] _]. rewrite Hrej.
    destruct (bool_decide _) eqn:Hb; [by apply bool_decide_eq_true in Hb|].
    by eexists. }
  repeat apply conj.
  - unfold api_browse. simpl. by rewrite Htr.
  - unfold download. by rewrite Htr.
  - intros [[originalname content]|] now; [|done].
    unfold api_upload, storage_handle_file, storage_destination. simpl.
    rewrite Htr. simpl. by rewrite with_fs_same.
  - intros dir_name. unfold api_mkdir.
    destruct (truthy dir_name) as [d|]; [|done].
    destruct (_ || _); [done|]. simpl. by rewrite Htr.
  - by rewrite Hdel.
  - by rewrite Hdel.
  - intros shareId origin now. unfold api_share.
    destruct (truthy (Some suffix)) as [x|] eqn:E; [|done].
    apply truthy_inv in E as [[= <-] _]. by rewrite Htr.
  - intros other. unfold api_move.
    destruct (truthy (Some suffix)) as [x|] eqn:E; [|done].
    apply truthy_inv in E as [[= <-] _].
    destruct other as [dst|]; [|done]. by rewrite Htr.
  - intros other. unfold api_move.
    destruct (truthy other) as [src|]; [|done]. rewrite Htr.
    by destruct (truthy (getSafePath cwd STORAGE_PATH src)).
  - intros content. unfold api_save.
    destruct (truthy (Some suffix)) as [x|] eqn:E; [|done].
    apply truthy_inv in E as [[= <-] _].
    destruct content as [text|]; [|done]. by rewrite Htr.
Qed.

Lemma unsafe_path_status_witness :
  api_browse "/home/app" "/srv/data" (Some "%2e%2e/x")
    {| fs := small_disk; shareLinks := [] |}
  = error 404 "Path not found"
  ∧ status_of (download "/home/app" "/srv/data" "%2e%2e/x"
                 {| fs := small_disk; shareLinks := [] |}) = Some 400.
Proof.
  pose proof (unsafe_path_status "/home/app" "/srv/data" "%2e%2e/x"
                {| fs := small_disk; shareLinks := [] |} eq_refl)
    as (Hbrowse & Hdownload & _).
  exact (conj Hbrowse Hdownload).
Defined.

(** C5, as stated, fails: the empty path resolves to the storage root, and
    the request is answered 400, not 403. *)
Lemma delete_empty_path_counterexample :
  getSafePath "/home/app" "/srv/data" ""
  = Some (RESOLVED_UPLOAD_FOLDER_ROOT "/home/app" "/srv/data")
  ∧ api_delete "/home/app" "/srv/data" (Some "")
      {| fs := small_disk; shareLinks := [] |}
    = (error 400 "Missing 'path' in request",
       {| fs := small_disk; shareLinks := [] |}).
Proof. split; reflexivity. Qed.

(** C5, amended. A request to [/api/delete] whose path is not empty and
    resolves to the storage root is answered 403, whatever the disk holds,
    and removes nothing; a request with an empty or missing path is
    answered 400 and removes nothing either. *)
Theorem delete_root_forbidden (cwd STORAGE_PATH path : string) (s : Server) :
  getSafePath cwd STORAGE_PATH path
  = Some (RESOLVED_UPLOAD_FOLDER_ROOT cwd STORAGE_PATH) →
  (path ≠ "" →
   api_delete cwd STORAGE_PATH (Some path) s
   = (error 403 "Cannot delete the root storage directory", s))
  ∧ api_delete cwd STORAGE_PATH (Some "") s
    = (error 400 "Missing 'path' in request", s)
  ∧ api_delete cwd STORAGE_PATH None s
    = (error 400 "Missing 'path' in request", s).
Proof.
  intros Hroot. split; [|done]. intros Hne.
  unfold api_delete. rewrite truthy_Some by done.
  by rewrite Hroot, bool_decide_eq_true_2.
Qed.

Lemma delete_root_forbidden_witness :
  api_delete "/home/app" "/srv/data" (Some "dir/..")
    {| fs := small_disk; shareLinks := two_stale_links |}
  = (error 403 "Cannot delete the root storage directory",
     {| fs := small_disk; shareLinks := two_stale_links |}).
Proof.
  apply (delete_root_forbidden "/home/app" "/srv/data" "dir/..").
  - reflexivity.
  - discriminate.
Defined.

(** C7, as stated, fails: [dir] is a directory and the final destination
    [dir/missing/dir] lies below it, but the destination directory does not
    exist, and the answer is 404. *)
Lemma move_missing_destination_counterexample :
  let s := {| fs := small_disk; shareLinks := [] |} in
  fs s !! "/srv/data/dir" = Some Fs.Dir
  ∧ getSafePath "/home/app" "/srv/data" "dir" = Some "/srv/data/dir"
  ∧ getSafePath "/home/app" "/srv/data" "dir/missing"
    = Some "/srv/data/dir/missing"
  ∧ Js.startsWith
      (Path.join "/srv/data/dir/missing" (Path.basename "/srv/data/dir"))
      ("/srv/data/dir" +:+ Path.sep) = true
  ∧ api_move "/home/app" "/srv/data" (Some "dir") (Some "dir/missing") s
    = (error 404 "Destination directory not found: dir/missing", s).
Proof. vm_compute. repeat split; reflexivity. Qed.

(** C7, amended. When the source of a move is a directory, the final
    destination (the destination directory joined with the base name of
    the source) lies below the source, and the destination directory
    exists, the answer is 400.  When the destination directory does not
    exist, the answer is 404 if the source path of the request is not the
    empty string, and 400 if it is (the request is then refused before any
    path is resolved).  In every case the state is what it was: no rename
    is attempted. *)
Theorem move_into_own_subtree (cwd STORAGE_PATH src dst srcPath dstPath : string)
    (s : Server) :
  getSafePath cwd STORAGE_PATH src = Some srcPath →
  getSafePath cwd STORAGE_PATH dst = Some dstPath →
  fs s !! srcPath = Some Fs.Dir →
  Js.startsWith (Path.join dstPath (Path.basename srcPath))
    (srcPath +:+ Path.sep) = true →
  let r := api_move cwd STORAGE_PATH (Some src) (Some dst) s in
  r.2 = s
  ∧ (is_Some (fs s !! dstPath) → status_of r.1 = Some 400)
  ∧ (src ≠ "" → fs s !! dstPath = None → status_of r.1 = Some 404)
  ∧ (src = "" → r.1 = error 400 "Missing source or destination path").
Proof.
  intros Hsrc Hdst Hdir Hbelow r. subst r. unfold api_move.
  destruct (truthy (Some src)) as [x|] eqn:E.
  2:{ split; [done|]. split; [done|]. split; [|done].
      intros Hne. by rewrite truthy_Some in E. }
  apply truthy_inv in E as [[= <-] Hne].
  rewrite !truthy_getSafePath, Hsrc, Hdst.
  rewrite (proj2 (pathExists_true _ _)) by eauto. simpl.
  unfold Fs.stat. rewrite Hdir.
  destruct (fs s !! dstPath) as [n|] eqn:Hn.
  - rewrite (proj2 (pathExists_true _ _)) by eauto. simpl.
    destruct n as [content|]; simpl; [done|].
    destruct (_ || _); [done|]. simpl. by rewrite Hbelow.
  - rewrite (proj2 (pathExists_false _ _)) by done. simpl.
    split; [done|]. split; [|done]. by intros [? ?].
Qed.

Lemma move_into_own_subtree_witness :
  let s := {| fs := small_disk; shareLinks := [] |} in
  let r := api_move "/home/app" "/srv/data" (Some "dir") (Some "dir/sub") s in
  r.2 = s ∧ status_of r.1 = Some 400.
Proof.
  intros s.
  destruct (move_into_own_subtree "/home/app" "/srv/data" "dir" "dir/sub"
              "/srv/data/dir" "/srv/data/dir/sub" s)
    as (Hstate & Hbad & _).
  - reflexivity.
  - reflexivity.
  - vm_compute. reflexivity.
  - vm_compute. reflexivity.
  - split; [exact Hstate|]. apply Hbad. vm_compute. eexists. reflexivity.
Defined.

(** The storage root as the source, named by the empty path: the final
    destination lies below it, the destination is missing, and the request
    is answered 400 for its empty source path. *)
Example move_empty_source_missing_destination :
  let s := {| fs := small_disk; shareLinks := [] |} in
  getSafePath "/home/app" "/srv/data" "" = Some "/srv/data"
  ∧ fs s !! "/srv/data/missing" = None
  ∧ api_move "/home/app" "/srv/data" (Some "") (Some "missing") s
    = (error 400 "Missing source or destination path", s).
Proof. vm_compute. repeat split; reflexivity. Qed.

(** C8, as stated, fails: the target [new.txt] is absent, but the request
    carries no content, and the answer is 400, not 404; so is the answer to
    a request with an empty path. *)
Lemma save_missing_content_counterexample :
  let s := {| fs := small_disk; shareLinks := [] |} in
  getSafePath "/home/app" "/srv/data" "new.txt" = Some "/srv/data/new.txt"
  ∧ fs s !! "/srv/data/new.txt" = None
  ∧ api_save "/home/app" "/srv/data" (Some "new.txt") None s
    = (error 400 "Missing file path or content", s)
  ∧ api_save "/home/app" "/srv/data" (Some "") (Some "gamma") s
    = (error 400 "Missing file path or content", s).
Proof. vm_compute. repeat split; reflexivity. Qed.

(** C8, amended. [/api/save] writes only over a regular file that is
    already there.  A request without a content, or whose path is missing
    or empty, is answered 400 before the target is looked at.  For a
    request that carries both, with a path that passes the sandbox: a
    target that is absent gives 404, a target that is no regular file gives
    400, and a regular file is overwritten: it holds the whole new content
    afterwards, and every other path holds what it held.  An answer of 200
    is given in that last case only; any other answer leaves the state as
    it was, and in every case the disk holds the same paths as before, so
    no file is created. *)
Theorem save_only_existing_file (cwd STORAGE_PATH : string)
    (filePath content : option string) (s : Server) :
  let r := api_save cwd STORAGE_PATH filePath content s in
  (status_of r.1 = Some 200 →
   ∃ suffix text p old,
     filePath = Some suffix ∧ suffix ≠ "" ∧ content = Some text
     ∧ getSafePath cwd STORAGE_PATH suffix = Some p
     ∧ fs s !! p = Some (Fs.File old)
     ∧ fs r.2 !! p = Some (Fs.File text)
     ∧ (∀ q, q ≠ p → fs r.2 !! q = fs s !! q)
     ∧ shareLinks r.2 = shareLinks s)
  ∧ (status_of r.1 ≠ Some 200 → r.2 = s)
  ∧ dom (fs r.2) = dom (fs s)
  ∧ (filePath = None ∨ filePath = Some "" ∨ content = None →
     r = (error 400 "Missing file path or content", s))
  ∧ (∀ suffix text p,
       filePath = Some suffix → suffix ≠ "" → content = Some text →
       getSafePath cwd STORAGE_PATH suffix = Some p →
       match fs s !! p with
       | None => r = (error 404 ("File not found: " +:+ suffix), s)
       | Some Fs.Dir => r = (error 400 "Target path is not a file.", s)
       | Some (Fs.File _) =>
           r.1 = ok ("File '" +:+ Path.basename p +:+ "' saved successfully.")
           ∧ fs r.2 !! p = Some (Fs.File text)
           ∧ (∀ q, q ≠ p → fs r.2 !! q = fs s !! q)
           ∧ shareLinks r.2 = shareLinks s
       end).
Proof.
  intros r.
  assert (r = api_save cwd STORAGE_PATH filePath content s) as Hr by done.
  clearbody r. unfold api_save in Hr.
  destruct (truthy filePath) as [suffix|] eqn:Hpath.
  2:{ subst r. split; [done|]. split; [done|]. split; [done|].
      split; [done|].
      intros suffix text p -> Hne. by rewrite truthy_Some in Hpath. }
  apply truthy_inv in Hpath as [-> Hne].
  destruct content as [text|].
  2:{ subst r. split; [done|]. split; [done|]. split; [done|]. done. }
  assert (¬ (Some suffix = None ∨ Some suffix = Some "" ∨ Some text = None))
    as Hgiven.
  { intros [Hn | [Hn | Hn]]; [done| |done]. by injection Hn. }
  rewrite truthy_getSafePath in Hr.
  destruct (getSafePath cwd STORAGE_PATH suffix) as [p|] eqn:Hp.
  2:{ subst r. split; [done|]. split; [done|]. split; [done|].
      split; [done|].
      intros ? ? ? [= <-] _ _ Hq. by rewrite Hp in Hq. }
  unfold Fs.stat, Fs.writeFile in Hr.
  destruct (fs s !! p) as [[old|]|] eqn:Hnode.
  - rewrite (proj2 (pathExists_true _ _)) in Hr by eauto. simpl in Hr.
    assert (fs r.2 !! p = Some (Fs.File text)
            ∧ (∀ q, q ≠ p → fs r.2 !! q = fs s !! q)
            ∧ shareLinks r.2 = shareLinks s) as Hwritten.
    { subst r. simpl. split; [apply lookup_insert_eq|]. split; [|done].
      intros q Hq. by apply lookup_insert_ne. }
    split; [|split; [|split; [|split]]].
    + intros _. exists suffix, text, p, old. by repeat split; try apply Hwritten.
    + subst r. simpl. done.
    + subst r. simpl. rewrite dom_insert_L. apply elem_of_dom_2 in Hnode.
      apply subseteq_union_1_L. by apply singleton_subseteq_l.
    + intros Hmissing. by destruct Hgiven.
    + intros ? ? q [= <-] _ [= <-] Hq. rewrite Hp in Hq.
      assert (q = p) as -> by congruence. rewrite Hnode.
      split; [by subst r|]. exact Hwritten.
  - rewrite (proj2 (pathExists_true _ _)) in Hr by eauto. simpl in Hr.
    subst r. simpl. split; [done|]. split; [done|]. split; [done|].
    split; [intros Hmissing; by destruct Hgiven|].
    intros ? ? q [= <-] _ [= <-] Hq. rewrite Hp in Hq.
    assert (q = p) as -> by congruence. by rewrite Hnode.
  - rewrite (proj2 (pathExists_false _ _)) in Hr by done. simpl in Hr.
    subst r. simpl. split; [done|]. split; [done|]. split; [done|].
    split; [intros Hmissing; by destruct Hgiven|].
    intros ? ? q [= <-] _ [= <-] Hq. rewrite Hp in Hq.
    assert (q = p) as -> by congruence. by rewrite Hnode.
Qed.

Lemma save_only_existing_file_witness :
  let s := {| fs := small_disk; shareLinks := [] |} in
  (let r := api_save "/home/app" "/srv/data" (Some "a.txt") (Some "gamma") s in
   r.1 = ok "File 'a.txt' saved successfully."
   ∧ fs r.2 !! "/srv/data/a.txt" = Some (Fs.File "gamma")
   ∧ fs r.2 !! "/srv/data/b.txt" = Some (Fs.File "beta"))
  ∧ api_save "/home/app" "/srv/data" (Some "new.txt") (Some "gamma") s
    = (error 404 "File not found: new.txt", s)
  ∧ api_save "/home/app" "/srv/data" (Some "dir") (Some "gamma") s
    = (error 400 "Target path is not a file.", s).
Proof.
  intros s. split; [|split].
  - destruct (save_only_existing_file "/home/app" "/srv/data" (Some "a.txt")
                (Some "gamma") s) as (_ & _ & _ & _ & H).
    destruct (H "a.txt" "gamma" "/srv/data/a.txt" eq_refl
                ltac:(discriminate) eq_refl eq_refl)
      as (Hanswer & Hnew & Hothers & _).
    split; [exact Hanswer|]. split; [exact Hnew|].
    rewrite (Hothers "/srv/data/b.txt") by discriminate.
    vm_compute. reflexivity.
  - destruct (save_only_existing_file "/home/app" "/srv/data" (Some "new.txt")
                (Some "gamma") s) as (_ & _ & _ & _ & H).
    exact (H "new.txt" "gamma" "/srv/data/new.txt" eq_refl
             ltac:(discriminate) eq_refl eq_refl).
  - destruct (save_only_existing_file "/home/app" "/srv/data" (Some "dir")
                (Some "gamma") s) as (_ & _ & _ & _ & H).
    exact (H "dir" "gamma" "/srv/data/dir" eq_refl
             ltac:(discriminate) eq_refl eq_refl).
Defined.

(** ** Joining a canonical directory and a name *)

Section JoinFacts.

Lemma join_segments_not_empty (x : string) (l : list string) :
  x ≠ "" → Path.join_segments (x :: l) ≠ "".
Proof.
  intros Hx. destruct l as [|y l]; [done|].
  rewrite join_segments_cons. by destruct x.
Qed.

Lemma ends_with_sep_app (a x : string) :
  x ≠ "" → Path.ends_with_sep (a +:+ x) = Path.ends_with_sep x.
Proof.
  intros Hx. induction a as [|c a IH]; [done|].
  rewrite app_cons. simpl. rewrite IH.
  destruct (a +:+ x) eqn:E; [|done].
  destruct a; [|done]. rewrite app_empty_l in E. by subst x.
Qed.

Lemma ends_with_sep_no_sep (x : string) :
  no_sep x = true → Path.ends_with_sep x = false.
Proof.
  induction x as [|c x IH]; [done|]. simpl.
  intros [Hc Hx]%andb_true_iff. apply negb_true_iff in Hc.
  destruct x; [done | by apply IH].
Qed.

Lemma ends_with_sep_join (l : list string) :
  l ≠ [] → Forall plain_segment l →
  Path.ends_with_sep (Path.join_segments l) = false.
Proof.
  induction l as [|x l IH]; [done|]. intros _ Hl.
  inversion Hl as [|? ? Hx Hl']; subst.
  destruct l as [|y l].
  - apply ends_with_sep_no_sep, Hx.
  - rewrite join_segments_cons, <- app_assoc_s, ends_with_sep_app.
    + by apply IH.
    + inversion Hl' as [|? ? Hy _]; subst.
      apply join_segments_not_empty, Hy.
Qed.

Lemma fold_split_of_segments (segs : list string) :
  Forall plain_segment segs →
  fold_left (Path.normalize_step false) (Path.split (Fs.of_segments segs)) []
  = rev segs.
Proof.
  intros Hsegs. destruct segs as [|x l]; [done|].
  rewrite split_of_segments by done.
  change ("" :: x :: l) with ([""] ++ x :: l). rewrite fold_left_app.
  change (fold_left (Path.normalize_step false) [""] []) with (@nil string).
  rewrite fold_normalize_plain by exact Hsegs. by rewrite app_nil_r.
Qed.

Lemma normalize_absolute (j : string) :
  Path.isAbsolute j = true →
  Path.ends_with_sep j = false ∨ Path.normalizeString j false = "" →
  Path.normalize j = "/" +:+ Path.normalizeString j false.
Proof.
  intros Habs Htrail. unfold Path.normalize.
  destruct j as [|c j]; [done|].
  assert (Js.str_eqb (String c j) "" = false) as -> by by apply str_eqb_false.
  rewrite Habs. simpl negb.
  destruct (Js.str_eqb (Path.normalizeString (String c j) false) "") eqn:E.
  - apply str_eqb_true in E. by rewrite E.
  - destruct Htrail as [-> | Hres]; [done|].
    apply str_eqb_false in E. by destruct E.
Qed.

(** [path.join] of a canonical directory and a name without separator
    applies one step of the normalization to the segments of the
    directory. *)
Lemma join_canonical (segs : list string) (x : string) :
  Forall plain_segment segs → no_sep x = true →
  Path.join (Fs.of_segments segs) x
  = Fs.of_segments (rev (Path.normalize_step false (rev segs) x)).
Proof.
  intros Hsegs Hx. unfold Path.join.
  assert (Js.str_eqb (Fs.of_segments segs) "" = false) as ->
    by by apply str_eqb_false.
  destruct (Js.str_eqb x "") eqn:Ex.
  - apply str_eqb_true in Ex as ->. rewrite normalize_step_empty, rev_involutive.
    assert (Js.str_eqb (Fs.of_segments segs) "" = false) as ->
      by by apply str_eqb_false.
    rewrite normalize_absolute; [| done |].
    + unfold Path.normalizeString, Path.normalize_segments.
      by rewrite fold_split_of_segments, rev_involutive.
    + destruct segs as [|y l]; [by right|]. left.
      unfold Fs.of_segments. rewrite ends_with_sep_app.
      * by apply ends_with_sep_join.
      * inversion Hsegs as [|? ? Hy _]; subst.
        apply join_segments_not_empty, Hy.
  - apply str_eqb_false in Ex.
    assert (Js.str_eqb (Fs.of_segments segs +:+ "/" +:+ x) "" = false) as ->
      by by apply str_eqb_false.
    rewrite normalize_absolute; [| done |].
    + unfold Path.normalizeString, Path.normalize_segments.
      rewrite split_app_sep, (split_no_sep x Hx), fold_left_app.
      by rewrite fold_split_of_segments.
    + left. rewrite <- app_assoc_s, ends_with_sep_app by done.
      by apply ends_with_sep_no_sep.
Qed.

Lemma join_canonical_plain (segs : list string) (x : string) :
  Forall plain_segment segs → plain_segment x →
  Path.join (Fs.of_segments segs) x = Fs.of_segments (segs ++ [x]).
Proof.
  intros Hsegs Hx. rewrite join_canonical by (done || apply Hx).
  rewrite normalize_step_plain by done. simpl. by rewrite rev_involutive.
Qed.

Lemma segments_of_segments (l : list string) :
  Forall plain_segment l → Fs.segments (Fs.of_segments l) = l.
Proof.
  intros Hl. unfold Fs.segments. destruct l as [|x l]; [done|].
  rewrite split_of_segments by done.
  rewrite filter_cons_False by (by intros ?).
  induction Hl as [|y l' Hy Hl' IH]; [done|].
  rewrite filter_cons_True by apply Hy. by rewrite IH.
Qed.

Lemma of_segments_inj (l1 l2 : list string) :
  Forall plain_segment l1 → Forall plain_segment l2 →
  Fs.of_segments l1 = Fs.of_segments l2 → l1 = l2.
Proof.
  intros H1 H2 Heq.
  by rewrite <- (segments_of_segments l1), <- (segments_of_segments l2), Heq.
Qed.

Lemma parent_of_segments (l : list string) (x : string) :
  Forall plain_segment l → plain_segment x →
  Fs.parent (Fs.of_segments (l ++ [x])) = Fs.of_segments l.
Proof.
  intros Hl Hx. unfold Fs.parent.
  rewrite segments_of_segments
    by (apply Forall_app_2; [done | by apply Forall_singleton]).
  by rewrite removelast_last.
Qed.

End JoinFacts.

(** ** The sandbox, segment by segment *)

(** X1. A path that passes is canonical and its segments begin with the
    segments of the storage root: it is the root or lies below it, and no
    [..] is left that could lead out again. *)
Lemma getSafePath_descendant (cwd STORAGE_PATH suffix p : string) :
  Path.isAbsolute cwd = true →
  getSafePath cwd STORAGE_PATH suffix = Some p →
  ∃ root_segs rest,
    RESOLVED_UPLOAD_FOLDER_ROOT cwd STORAGE_PATH = Fs.of_segments root_segs
    ∧ p = Fs.of_segments (root_segs ++ rest)
    ∧ Forall plain_segment (root_segs ++ rest).
Proof.
  intros Hcwd Hp.
  destruct (resolve_canonical cwd [STORAGE_PATH] Hcwd) as (rs & Hroot & Hrs).
  fold (RESOLVED_UPLOAD_FOLDER_ROOT cwd STORAGE_PATH) in Hroot.
  destruct (getSafePath_canonical _ _ _ _ Hcwd Hp) as (ps & -> & Hps).
  apply getSafePath_inv in Hp as (decoded & _ & _ & [Heq | Hstart]).
  - exists rs, []. rewrite app_nil_r. rewrite Hroot in Heq.
    apply of_segments_inj in Heq; [|done..]. by subst ps.
  - apply startsWith_spec in Hstart as [t Ht].
    rewrite Hroot in Ht. unfold Path.sep in Ht. rewrite app_assoc_s in Ht.
    apply (f_equal Path.split) in Ht. rewrite split_app_sep in Ht.
    pose proof (split_not_nil t) as Hnil.
    destruct ps as [|x ps'].
    + exfalso. apply (f_equal (@length string)) in Ht.
      rewrite length_app in Ht.
      destruct rs as [|y rs'].
      * destruct (Path.split t); [done|]. simpl in Ht. lia.
      * rewrite (split_of_segments (y :: rs')) in Ht by done.
        destruct (Path.split t); [done|]. simpl in Ht. lia.
    + rewrite (split_of_segments (x :: ps')) in Ht by done.
      destruct rs as [|y rs'].
      * exfalso. change (Path.split (Fs.of_segments [])) with ["";""] in Ht.
        injection Ht as Hx _. inversion Hps as [|? ? (_ & Hne & _) _]; subst.
        done.
      * rewrite (split_of_segments (y :: rs')) in Ht by done.
        simpl in Ht. injection Ht as Hx Hrest.
        subst x ps'. by exists (y :: rs'), (Path.split t).
Qed.

Example descendant_of_root :
  getSafePath "/home/app" "/srv/data" "docs/./2024//notes.txt"
  = Some (Fs.of_segments (["srv"; "data"] ++ ["docs"; "2024"; "notes.txt"])).
Proof. reflexivity. Qed.

(** ** Uploads *)

Section UploadFacts.

Lemma is_sep_illegal (c : ascii) :
  Path.is_sep c = true → Js.illegal_char c = true.
Proof. unfold Path.is_sep. by intros ->%Ascii.eqb_eq. Qed.

Lemma no_sep_replace_illegal (s : string) :
  no_sep (Js.replace_illegal s) = true.
Proof.
  induction s as [|c s IH]; [done|]. simpl. rewrite IH, andb_true_r.
  destruct (Js.illegal_char c) eqn:E; [done|].
  destruct (Path.is_sep c) eqn:Hc; [|done].
  apply is_sep_illegal in Hc. congruence.
Qed.

Lemma no_sep_of_uint (d : Decimal.uint) :
  no_sep (NilEmpty.string_of_uint d) = true.
Proof. induction d; simpl; auto. Qed.

Lemma no_sep_of_int (n : Z) : no_sep (Js.of_int n) = true.
Proof.
  unfold Js.of_int, NilZero.string_of_int, NilZero.string_of_uint.
  destruct (Z.to_int n) as [d|d]; destruct d; simpl;
    auto using no_sep_of_uint.
Qed.

Lemma last_dot_app (s pre ext : string) :
  Path.last_dot s = Some (pre, ext) → s = pre +:+ ext ∧ ext ≠ "".
Proof.
  revert pre ext. induction s as [|c s IH]; intros pre ext; simpl; [done|].
  destruct (Path.last_dot s) as [[pre' ext']|].
  - intros [= <- <-]. destruct (IH pre' ext' eq_refl) as [-> ?].
    by rewrite app_cons.
  - destruct (Ascii.eqb c "."); [|done]. by intros [= <- <-].
Qed.

Lemma no_sep_basename (s : string) : no_sep s = true → Path.basename s = s.
Proof.
  intros Hs. unfold Path.basename. rewrite split_no_sep by done.
  unfold Path.last_nonempty. cbn [fold_left].
  destruct (Js.str_eqb s "") eqn:E; [|done]. by apply str_eqb_true in E.
Qed.

(** The base and the extension of a name without separator make up the
    name. *)
Lemma base_ext_app (name : string) :
  no_sep name = true →
  Path.basename_ext name (Path.extname name) +:+ Path.extname name = name.
Proof.
  intros Hname.
  assert (Path.basename_ext name "" +:+ "" = name) as Hplain.
  { unfold Path.basename_ext. simpl.
    by rewrite app_empty_r, no_sep_basename. }
  unfold Path.extname. rewrite no_sep_basename by done.
  destruct (Path.last_dot name) as [[pre ext]|] eqn:Hdot; [|done].
  destruct (Js.str_eqb pre "" || Js.str_eqb name "..") eqn:Hguard; [done|].
  apply last_dot_app in Hdot as [-> Hext].
  apply orb_false_iff in Hguard as [Hpre%str_eqb_false _].
  unfold Path.basename_ext. rewrite no_sep_basename by done.
  apply str_eqb_false in Hext as Hext'. rewrite Hext'. simpl.
  assert ((String.length (pre +:+ ext) <? String.length ext)%nat = false) as ->.
  { apply Nat.ltb_ge. rewrite length_app_s. lia. }
  assert (ext ≠ pre +:+ ext) as Hne.
  { intros Heq. apply (f_equal String.length) in Heq.
    rewrite length_app_s in Heq. destruct pre; [done|]. simpl in Heq. lia. }
  assert (Js.str_eqb ext (pre +:+ ext) = false) as ->
    by by apply str_eqb_false.
  assert (Js.str_eqb (pre +:+ ext) ext = false) as ->
    by (apply str_eqb_false; congruence).
  rewrite endsWith_app. simpl.
  rewrite length_app_s.
  replace (String.length pre + String.length ext - String.length ext)%nat
    with (String.length pre) by lia.
  by rewrite substring_0_app.
Qed.

Lemma all_dots_app (a b : string) :
  Js.all_dots (a +:+ b) = Js.all_dots a && Js.all_dots b.
Proof.
  induction a as [|c a IH]; [done|].
  rewrite app_cons. simpl. by rewrite IH, andb_assoc.
Qed.

(** A name with the time stamp in it is a plain segment, and it is longer
    than the name it comes from. *)
Lemma stamped_plain (base ext : string) (now : Z) :
  no_sep (base +:+ ext) = true →
  plain_segment (base +:+ "_" +:+ Js.of_int now +:+ ext).
Proof.
  intros Hsep. rewrite no_sep_app in Hsep.
  apply andb_true_iff in Hsep as [Hb He].
  assert (Js.all_dots (base +:+ "_" +:+ Js.of_int now +:+ ext) = false) as Hd.
  { rewrite all_dots_app. apply andb_false_iff. by right. }
  split; [|repeat split; intros Heq; by rewrite Heq in Hd].
  rewrite !no_sep_app, Hb, He, no_sep_of_int. done.
Qed.

Lemma stamped_longer (base ext : string) (now : Z) :
  (String.length (base +:+ ext)
   < String.length (base +:+ "_" +:+ Js.of_int now +:+ ext))%nat.
Proof. rewrite !length_app_s. simpl. lia. Qed.

(** A step of the normalization never yields the segments followed by a
    longer name than the one it was given. *)
Lemma normalize_step_other (segs : list string) (x y : string) :
  Forall plain_segment segs → plain_segment y →
  (String.length x < String.length y)%nat →
  rev (Path.normalize_step false (rev segs) x) ≠ segs ++ [y].
Proof.
  intros Hsegs Hy Hlen Heq.
  apply (f_equal (@rev string)) in Heq.
  rewrite rev_involutive, rev_app_distr in Heq. simpl in Heq.
  unfold Path.normalize_step in Heq.
  assert (∀ l : list string, l ≠ y :: l) as Hcons.
  { intros l Hl. apply (f_equal (@length string)) in Hl. simpl in Hl. lia. }
  destruct (Js.str_eqb x "" || Js.str_eqb x "."); [by apply Hcons in Heq|].
  destruct (Js.str_eqb x "..").
  - destruct (rev segs) as [|top rest]; [done|].
    destruct (Js.str_eqb top ".."); [by apply Hcons in Heq|].
    apply (f_equal (@length string)) in Heq. simpl in Heq. lia.
  - injection Heq as ->. lia.
Qed.

End UploadFacts.

(** C9, as stated, fails: [a.txt] exists in the destination, but the name
    with the time stamp is already the name of a directory there; the write
    stream cannot be opened on it, the upload is answered 400 and no new
    file is stored. *)
Lemma upload_collision_counterexample :
  let s := {| fs := disk_with_stamped_dir; shareLinks := [] |} in
  let r := api_upload "/home/app" "/srv/data" None
             (Some ("a.txt", "fresh")) 1700000000000 s in
  fs s !! "/srv/data/a.txt" = Some (Fs.File "alpha")
  ∧ storage_filename "/home/app" "/srv/data" None "a.txt" 1700000000000 (fs s)
    = inr "a_1700000000000.txt"
  ∧ status_of r.1 = Some 400
  ∧ r.2 = s.
Proof. vm_compute. repeat split; reflexivity. Qed.

(** C9, amended. When the sanitized name of an upload already exists in
    the destination directory, the file is stored under the name made of
    the base name, an underscore, the time in milliseconds and the
    extension, provided no directory has that name already (a file of
    that name is overwritten): the upload is answered 200, the new file
    holds the uploaded content, and the entry that was there under the
    sanitized name is what it was. *)
Theorem upload_collision_renames (cwd STORAGE_PATH : string)
    (subpath : option string) (originalname content : string) (now : Z)
    (s : Server) (dir : string) :
  Path.isAbsolute cwd = true →
  getSafePath cwd STORAGE_PATH (Js.or_empty subpath) = Some dir →
  fs s !! dir = Some Fs.Dir →
  let safeName := Js.replace_illegal originalname in
  let ext := Path.extname safeName in
  let base := Path.basename_ext safeName ext in
  let newName := base +:+ "_" +:+ Js.of_int now +:+ ext in
  let existing := Path.join dir safeName in
  let stored := Path.join dir newName in
  is_Some (fs s !! existing) →
  fs s !! stored ≠ Some Fs.Dir →
  let r := api_upload cwd STORAGE_PATH subpath
             (Some (originalname, content)) now s in
  safeName = base +:+ ext
  ∧ r.1 = ok ("File " +:+ dquote +:+ newName +:+ dquote
              +:+ " uploaded successfully to /" +:+ Js.or_empty subpath)
  ∧ stored ≠ existing
  ∧ r.2 = with_fs s (<[stored := Fs.File content]> (fs s))
  ∧ fs r.2 !! stored = Some (Fs.File content)
  ∧ fs r.2 !! existing = fs s !! existing.
Proof.
  intros Hcwd Hsafe Hdir safeName ext base newName existing stored
    Hexists Hnodir r.
  destruct (getSafePath_canonical _ _ _ _ Hcwd Hsafe) as (segs & -> & Hsegs).
  pose proof (no_sep_replace_illegal originalname) as Hsep.
  fold safeName in Hsep.
  pose proof (base_ext_app safeName Hsep) as Hname.
  fold ext base in Hname.
  assert (plain_segment newName) as Hplain.
  { apply stamped_plain. by rewrite Hname. }
  assert (existing
          = Fs.of_segments (rev (Path.normalize_step false (rev segs) safeName)))
    as Hexisting by by apply join_canonical.
  assert (stored = Fs.of_segments (segs ++ [newName])) as Hstored
    by by apply join_canonical_plain.
  assert (stored ≠ existing) as Hne.
  { rewrite Hstored, Hexisting. intros Heq.
    apply of_segments_inj in Heq.
    - symmetry in Heq. revert Heq. apply normalize_step_other; [done..|].
      rewrite <- Hname. apply stamped_longer.
    - apply Forall_app_2; [done | by apply Forall_singleton].
    - apply Forall_rev, normalize_step_keeps_plain; [|done].
      by apply Forall_rev. }
  assert (Fs.writeFile stored content (fs s)
          = Some (<[stored := Fs.File content]> (fs s))) as Hwrite.
  { unfold Fs.writeFile.
    destruct (fs s !! stored) as [[old|]|] eqn:Hold; [done|done|].
    rewrite Hstored, parent_of_segments by done. by rewrite Hdir. }
  assert (r = (ok ("File " +:+ dquote +:+ newName +:+ dquote
                   +:+ " uploaded successfully to /" +:+ Js.or_empty subpath),
               with_fs s (<[stored := Fs.File content]> (fs s)))) as ->.
  { subst r. unfold api_upload, storage_handle_file, storage_destination,
      storage_filename.
    rewrite truthy_getSafePath, Hsafe. unfold Fs.ensureDir. rewrite Hdir.
    fold safeName existing.
    rewrite (proj2 (pathExists_true _ _)) by done.
    fold ext base newName stored. by rewrite Hwrite. }
  simpl. split; [done|]. split; [done|]. split; [done|]. split; [done|].
  split; [apply lookup_insert_eq | by apply lookup_insert_ne].
Qed.

Lemma upload_collision_renames_witness :
  let s := {| fs := small_disk; shareLinks := [] |} in
  let r := api_upload "/home/app" "/srv/data" None
             (Some ("a.txt", "fresh")) 1700000000000 s in
  r.1 = ok ("File " +:+ dquote +:+ "a_1700000000000.txt" +:+ dquote
            +:+ " uploaded successfully to /")
  ∧ fs r.2 !! "/srv/data/a_1700000000000.txt" = Some (Fs.File "fresh")
  ∧ fs r.2 !! "/srv/data/a.txt" = Some (Fs.File "alpha").
Proof.
  intros s.
  destruct (upload_collision_renames "/home/app" "/srv/data" None "a.txt"
              "fresh" 1700000000000 s "/srv/data")
    as (_ & Hanswer & _ & _ & Hnew & Hold).
  - reflexivity.
  - reflexivity.
  - vm_compute. reflexivity.
  - vm_compute. eexists. reflexivity.
  - vm_compute. discriminate.
  - split; [exact Hanswer|]. split; [exact Hnew|].
    etransitivity; [exact Hold|]. vm_compute. reflexivity.
Defined.

(** * Further properties *)

(** ** What [getSafePath] accepts *)

Section Accepted.

Variables cwd STORAGE_PATH : string.
Hypothesis cwd_absolute : Path.isAbsolute cwd = true.

Abbreviation root := (RESOLVED_UPLOAD_FOLDER_ROOT cwd STORAGE_PATH).
Abbreviation safe := (getSafePath cwd STORAGE_PATH).

Lemma root_canonical : canonical root.
Proof. by apply resolve_canonical. Qed.

Lemma no_percent_app (a b : string) :
  no_percent (a +:+ b) = no_percent a && no_percent b.
Proof.
  induction a as [|c a IH]; [done|].
  rewrite app_cons. simpl. by rewrite IH, andb_assoc.
Qed.

Lemma no_percent_join (segs : list string) :
  Forall (fun seg => no_percent seg = true) segs →
  no_percent (Path.join_segments segs) = true.
Proof.
  induction 1 as [|x l Hx Hl IH]; [done|].
  destruct l as [|y l]; [done|].
  rewrite join_segments_cons, !no_percent_app, Hx, IH. done.
Qed.

Lemma decode_no_percent (s : string) :
  no_percent s = true → Js.decodeURIComponent s = Some s.
Proof.
  unfold Js.decodeURIComponent.
  induction s as [|c s IH]; [done|]. simpl.
  intros [Hc Hs]%andb_true_iff. apply negb_true_iff in Hc.
  by rewrite Hc, (IH Hs).
Qed.

Lemma join_segments_app (l1 l2 : list string) :
  l1 ≠ [] → l2 ≠ [] →
  Path.join_segments (l1 ++ l2)
  = Path.join_segments l1 +:+ "/" +:+ Path.join_segments l2.
Proof.
  intros H1 H2. induction l1 as [|x l1 IH]; [done|].
  destruct l1 as [|y l1].
  - destruct l2 as [|z l2]; [done|]. reflexivity.
  - change ((x :: y :: l1) ++ l2) with (x :: y :: (l1 ++ l2)).
    rewrite !join_segments_cons.
    change (y :: l1 ++ l2) with ((y :: l1) ++ l2).
    rewrite IH by done. by rewrite !app_assoc_s.
Qed.

Lemma join_segments_relative (segs : list string) :
  segs ≠ [] → Forall plain_segment segs →
  Path.join_segments segs ≠ ""
  ∧ Path.isAbsolute (Path.join_segments segs) = false.
Proof.
  intros Hne Hsegs. destruct segs as [|x l]; [done|].
  inversion Hsegs as [|? ? (Hsep & Hx & _) _]; subst.
  split; [by apply join_segments_not_empty|].
  destruct x as [|c x]; [done|]. simpl in Hsep.
  apply andb_true_iff in Hsep as [Hc%negb_true_iff _].
  destruct l as [|y l]; [done|].
  rewrite join_segments_cons, app_cons. done.
Qed.

(** [path.resolve] of a canonical root and a relative path of plain
    segments appends the segments. *)
Lemma resolve_plain_relative (rs segs : list string) :
  Forall plain_segment rs → segs ≠ [] → Forall plain_segment segs →
  Path.resolve cwd [Fs.of_segments rs; Path.join_segments segs]
  = Fs.of_segments (rs ++ segs).
Proof.
  intros Hrs Hne Hsegs.
  destruct (join_segments_relative segs Hne Hsegs) as [Hnot_empty Hrel].
  unfold Path.resolve. simpl rev. simpl app.
  cbn [Path.resolve_loop].
  apply str_eqb_false in Hnot_empty as ->. rewrite Hrel.
  assert (Js.str_eqb (Fs.of_segments rs) "" = false) as ->
    by by apply str_eqb_false.
  change (Path.isAbsolute (Fs.of_segments rs)) with true. cbn iota beta.
  unfold Path.normalizeString, Path.normalize_segments. simpl negb.
  rewrite !split_app_sep, !fold_left_app, fold_split_of_segments by done.
  rewrite split_join_segments by (done || by apply plain_no_sep).
  rewrite (fold_normalize_plain false segs) by done.
  change (Path.split "") with [""]. cbn [fold_left].
  rewrite normalize_step_empty, rev_app_distr, !rev_involutive.
  reflexivity.
Qed.

Lemma resolve_empty_suffix (rs : list string) :
  Forall plain_segment rs →
  Path.resolve cwd [Fs.of_segments rs; ""] = Fs.of_segments rs.
Proof.
  intros Hrs. unfold Path.resolve. simpl rev. simpl app.
  cbn [Path.resolve_loop].
  change (Js.str_eqb "" "") with true. cbn iota.
  assert (Js.str_eqb (Fs.of_segments rs) "" = false) as ->
    by by apply str_eqb_false.
  change (Path.isAbsolute (Fs.of_segments rs)) with true. cbn iota beta.
  unfold Path.normalizeString, Path.normalize_segments. simpl negb.
  rewrite split_app_sep, fold_left_app, fold_split_of_segments by done.
  change (Path.split "") with [""]. cbn [fold_left].
  by rewrite normalize_step_empty, rev_involutive.
Qed.

End Accepted.

Lemma getSafePath_descendant_witness :
  ∃ root_segs rest,
    RESOLVED_UPLOAD_FOLDER_ROOT "/home/app" "/srv/data"
    = Fs.of_segments root_segs
    ∧ "/srv/data/docs/a.txt" = Fs.of_segments (root_segs ++ rest)
    ∧ Forall plain_segment (root_segs ++ rest).
Proof.
  apply (getSafePath_descendant "/home/app" "/srv/data"
           "docs/x/../a.txt" "/srv/data/docs/a.txt").
  - reflexivity.
  - vm_compute. reflexivity.
Defined.

Lemma canonical_no_double_slash (p t : string) :
  canonical p → p ≠ "/" +:+ "/" +:+ t.
Proof.
  intros (ps & -> & Hps) Heq.
  change ("/" +:+ "/" +:+ t) with ("" +:+ "/" +:+ "" +:+ "/" +:+ t) in Heq.
  apply (f_equal Path.split) in Heq. rewrite !split_app_sep in Heq.
  change (Path.split "") with [""] in Heq.
  destruct ps as [|x ps].
  - pose proof (split_not_nil t).
    change (Path.split (Fs.of_segments [])) with ["";""] in Heq.
    destruct (Path.split t); [done|]. discriminate Heq.
  - rewrite split_of_segments in Heq by done. simpl in Heq.
    injection Heq as Hx _.
    inversion Hps as [|? ? (_ & Hne & _) _]; subst. done.
Qed.

(** X2. Every relative path made of plain segments without escapes is
    accepted, and resolves to the root followed by the path, unless the
    root is the root of the file system. *)
Theorem getSafePath_accepts_plain (cwd STORAGE_PATH : string)
    (segs : list string) :
  Path.isAbsolute cwd = true →
  RESOLVED_UPLOAD_FOLDER_ROOT cwd STORAGE_PATH ≠ "/" →
  segs ≠ [] →
  Forall plain_segment segs →
  Forall (fun seg => no_percent seg = true) segs →
  getSafePath cwd STORAGE_PATH (Path.join_segments segs)
  = Some (RESOLVED_UPLOAD_FOLDER_ROOT cwd STORAGE_PATH
          +:+ "/" +:+ Path.join_segments segs).
Proof.
  intros Hcwd Hroot Hne Hsegs Hpct.
  destruct (root_canonical cwd STORAGE_PATH Hcwd) as (rs & Hrs_eq & Hrs).
  rewrite getSafePath_cases, decode_no_percent by by apply no_percent_join.
  cbn zeta. rewrite Hrs_eq in *.
  rewrite resolve_plain_relative by done.
  assert (rs ≠ []) as Hrs_ne by (intros ->; by apply Hroot).
  assert (Fs.of_segments (rs ++ segs)
          = Fs.of_segments rs +:+ "/" +:+ Path.join_segments segs) as ->.
  { unfold Fs.of_segments. rewrite join_segments_app by done.
    by rewrite !app_assoc_s. }
  assert (Js.startsWith
            (Fs.of_segments rs +:+ "/" +:+ Path.join_segments segs)
            (Fs.of_segments rs +:+ Path.sep) = true) as ->; [|done].
  apply startsWith_spec. exists (Path.join_segments segs).
  unfold Path.sep. by rewrite app_assoc_s.
Qed.

Lemma getSafePath_accepts_plain_witness :
  getSafePath "/home/app" "/srv/data" (Path.join_segments ["docs"; "a.txt"])
  = Some (RESOLVED_UPLOAD_FOLDER_ROOT "/home/app" "/srv/data"
          +:+ "/" +:+ Path.join_segments ["docs"; "a.txt"]).
Proof.
  apply (getSafePath_accepts_plain "/home/app" "/srv/data" ["docs"; "a.txt"]).
  - reflexivity.
  - vm_compute. discriminate.
  - discriminate.
  - repeat constructor; discriminate.
  - repeat constructor.
Defined.

(** X3. The empty suffix is the storage root. *)
Theorem getSafePath_empty_is_root (cwd STORAGE_PATH : string) :
  Path.isAbsolute cwd = true →
  getSafePath cwd STORAGE_PATH ""
  = Some (RESOLVED_UPLOAD_FOLDER_ROOT cwd STORAGE_PATH).
Proof.
  intros Hcwd.
  destruct (root_canonical cwd STORAGE_PATH Hcwd) as (rs & Hrs_eq & Hrs).
  rewrite getSafePath_cases. change (Js.decodeURIComponent "") with (Some "").
  cbn zeta iota beta. rewrite Hrs_eq, resolve_empty_suffix by done.
  by rewrite str_eqb_refl, orb_true_r.
Qed.

Lemma getSafePath_empty_is_root_witness :
  getSafePath "/home/app" "storage" "" = Some "/home/app/storage".
Proof.
  apply (getSafePath_empty_is_root "/home/app" "storage"). reflexivity.
Defined.

(** X4. When the storage root is the root of the file system, the test on
    [root + sep] looks for a double slash, which no resolved path begins
    with: the root itself is the only path accepted. *)
Theorem getSafePath_root_slash (cwd STORAGE_PATH suffix : string) :
  Path.isAbsolute cwd = true →
  RESOLVED_UPLOAD_FOLDER_ROOT cwd STORAGE_PATH = "/" →
  getSafePath cwd STORAGE_PATH suffix = None
  ∨ getSafePath cwd STORAGE_PATH suffix = Some "/".
Proof.
  intros Hcwd Hroot.
  destruct (getSafePath cwd STORAGE_PATH suffix) as [p|] eqn:Hp; [|by left].
  right. f_equal.
  pose proof (getSafePath_canonical _ _ _ _ Hcwd Hp) as Hcanon.
  apply getSafePath_inv in Hp as (_ & _ & _ & [-> | Hstart]); [done|].
  apply startsWith_spec in Hstart as [t Ht]. rewrite Hroot in Ht.
  unfold Path.sep in Ht. rewrite app_assoc_s in Ht.
  by apply canonical_no_double_slash in Ht.
Qed.

Lemma getSafePath_root_slash_witness :
  getSafePath "/home/app" "/" "etc/passwd" = None
  ∨ getSafePath "/home/app" "/" "etc/passwd" = Some "/".
Proof.
  apply (getSafePath_root_slash "/home/app" "/" "etc/passwd"); reflexivity.
Defined.

Example root_slash_rejects_children :
  getSafePath "/home/app" "/" "etc/passwd" = None.
Proof. reflexivity. Qed.

(** ** What the handlers serve and what they remove *)

Section Served.

Variables cwd STORAGE_PATH : string.

Abbreviation root := (RESOLVED_UPLOAD_FOLDER_ROOT cwd STORAGE_PATH).
Abbreviation safe := (getSafePath cwd STORAGE_PATH).

Lemma getSafePath_inside (suffix p : string) :
  safe suffix = Some p → p = root ∨ ∃ rest, p = root +:+ "/" +:+ rest.
Proof.
  intros (_ & _ & _ & [-> | Hs])%getSafePath_inv; [by left|].
  right. apply startsWith_spec in Hs as [rest ->].
  exists rest. unfold Path.sep. by rewrite app_assoc_s.
Qed.

Lemma root_not_empty : root ≠ "".
Proof. apply resolve_not_empty. Qed.

Lemma remove_lookup (p q : string) (disk : gmap string Fs.node) :
  Fs.remove p disk !! q = if Fs.within p q then None else disk !! q.
Proof.
  unfold Fs.remove. destruct (Fs.within p q) eqn:E.
  - apply map_lookup_filter_None. right. intros x _. simpl. by rewrite E.
  - destruct (disk !! q) as [n|] eqn:Hq.
    + by apply map_lookup_filter_Some.
    + apply map_lookup_filter_None. by left.
Qed.

Lemma within_self (p : string) : Fs.within p p = true.
Proof. unfold Fs.within. by rewrite str_eqb_refl. Qed.

Lemma within_inv (p q : string) :
  Fs.within p q = true →
  q = p ∨ (p = "/" ∧ ∃ t, q = "/" +:+ t) ∨ (p ≠ "/" ∧ ∃ t, q = p +:+ "/" +:+ t).
Proof.
  unfold Fs.within. intros [Heq | Hs]%orb_true_iff.
  - left. by apply str_eqb_true.
  - right. destruct (Js.str_eqb p "/") eqn:E.
    + left. apply str_eqb_true in E. split; [done|].
      by apply startsWith_spec in Hs.
    + right. apply str_eqb_false in E. split; [done|].
      apply startsWith_spec in Hs as [t ->]. exists t.
      by rewrite app_assoc_s.
Qed.

Lemma within_below (p t : string) : Fs.within p (p +:+ "/" +:+ t) = true.
Proof.
  unfold Fs.within. apply orb_true_iff. right.
  destruct (Js.str_eqb p "/") eqn:E.
  - apply str_eqb_true in E as ->. apply startsWith_spec. by exists ("/" +:+ t).
  - apply startsWith_spec. exists t. by rewrite app_assoc_s.
Qed.

(** What lies within a path below the root lies within the root, and the
    root does not lie within it. *)
Lemma within_inside (rest q : string) :
  Fs.within (root +:+ "/" +:+ rest) q = true → Fs.within root q = true.
Proof.
  pose proof root_not_empty as Hne.
  intros [-> | [[Hp _] | [_ [t ->]]]]%within_inv.
  - apply within_below.
  - apply (f_equal String.length) in Hp. rewrite length_app_s in Hp.
    destruct root; [done|]. simpl in Hp. lia.
  - rewrite app_assoc_s. apply within_below.
Qed.

Lemma root_not_within_inside (rest : string) :
  Fs.within (root +:+ "/" +:+ rest) root = false.
Proof.
  destruct (Fs.within (root +:+ "/" +:+ rest) root) eqn:E; [|done].
  exfalso. pose proof root_not_empty as Hne.
  apply within_inv in E as [Heq | [[Heq _] | [_ [t Heq]]]];
    apply (f_equal String.length) in Heq;
    rewrite ?length_app_s in Heq; simpl in Heq;
    destruct root; try done; simpl in Heq; lia.
Qed.

End Served.

(** ** What the [send] stream refuses *)

Section Streams.

Lemma normalize_canonical (segs : list string) :
  Forall plain_segment segs →
  Path.normalize (Fs.of_segments segs) = Fs.of_segments segs.
Proof.
  intros Hsegs. rewrite normalize_absolute; [| done |].
  - unfold Path.normalizeString, Path.normalize_segments.
    by rewrite fold_split_of_segments, rev_involutive.
  - destruct segs as [|y l]; [by right|]. left.
    unfold Fs.of_segments. rewrite ends_with_sep_app.
    + by apply ends_with_sep_join.
    + inversion Hsegs as [|? ? Hy _]; subst.
      apply join_segments_not_empty, Hy.
Qed.

(** [path.resolve] of a canonical path alone is that path, whatever the
    working directory. *)
Lemma resolve_canonical_id (cwd : string) (segs : list string) :
  Forall plain_segment segs →
  Path.resolve cwd [Fs.of_segments segs] = Fs.of_segments segs.
Proof.
  intros Hsegs. unfold Path.resolve. simpl rev. simpl app.
  cbn [Path.resolve_loop].
  assert (Js.str_eqb (Fs.of_segments segs) "" = false) as ->
    by by apply str_eqb_false.
  change (Path.isAbsolute (Fs.of_segments segs)) with true. cbn iota beta.
  unfold Path.normalizeString, Path.normalize_segments. simpl negb.
  rewrite split_app_sep, fold_left_app, fold_split_of_segments by done.
  change (Path.split "") with [""]. cbn [fold_left].
  by rewrite normalize_step_empty, rev_involutive.
Qed.

Lemma basename_of_segments (l : list string) (x : string) :
  Forall plain_segment (l ++ [x]) →
  Path.basename (Fs.of_segments (l ++ [x])) = x.
Proof.
  intros Hsegs. unfold Path.basename, Path.last_nonempty.
  rewrite split_of_segments by (done || by destruct l).
  change ("" :: l ++ [x]) with (("" :: l) ++ [x]).
  rewrite fold_left_app. cbn [fold_left].
  apply Forall_app in Hsegs as [_ Hx]. inversion Hx as [|? ? (_ & Hne & _) _].
  by apply str_eqb_false in Hne as ->.
Qed.

(** A canonical path whose last segment begins with a dot is refused. *)
Lemma send_error_dot_file (l : list string) (x : string) :
  Forall plain_segment (l ++ [x]) → Express.starts_with_dot x = true →
  Express.send_error (Fs.of_segments (l ++ [x])) ≠ None.
Proof.
  intros Hsegs Hdot. unfold Express.send_error.
  destruct (Express.has_nul _); [done|].
  destruct (Express.up_path _); [done|].
  rewrite normalize_canonical by done.
  rewrite split_of_segments by (done || by destruct l).
  assert (Express.containsDotFile ("" :: l ++ [x]) = true) as ->.
  { unfold Express.containsDotFile. apply existsb_exists. exists x. split.
    - right. apply in_or_app. right. by left.
    - rewrite Hdot, andb_true_r.
      apply Forall_app in Hsegs as [_ Hx].
      inversion Hx as [|? ? (_ & _ & Hone & _) _]; subst.
      destruct x as [|c [|d x]]; [done| |done].
      simpl in Hdot. apply Ascii.eqb_eq in Hdot as ->. done. }
  change ("" :: l ++ [x]) with (("" :: l) ++ [x]).
  by rewrite List.last_last, Hdot.
Qed.

Lemma split_slashes_no_backslash (s : string) :
  no_backslash s = true → Express.split_slashes s = Path.split s.
Proof.
  induction s as [|c s IH]; [done|]. simpl.
  intros [Hc Hs]%andb_true_iff. apply negb_true_iff in Hc.
  unfold Express.is_slash, Path.is_sep. rewrite Hc, orb_false_r.
  by rewrite (IH Hs).
Qed.

(** A canonical path without NUL and without backslash whose last segment
    does not begin with a dot is taken. *)
Lemma send_error_plain_name (segs : list string) :
  Forall plain_segment segs →
  Express.has_nul (Fs.of_segments segs) = false →
  no_backslash (Fs.of_segments segs) = true →
  Express.starts_with_dot (List.last segs "") = false →
  Express.send_error (Fs.of_segments segs) = None.
Proof.
  intros Hsegs Hnul Hback Hdot. unfold Express.send_error.
  rewrite Hnul, normalize_canonical by done.
  destruct segs as [|x l]; [done|].
  assert (Express.up_path (Fs.of_segments (x :: l)) = false) as ->.
  { unfold Express.up_path.
    rewrite split_slashes_no_backslash, split_of_segments by done.
    destruct (existsb _ _) eqn:E; [|done]. exfalso.
    apply existsb_exists in E as (y & Hin & Hy).
    apply str_eqb_true in Hy as <-. destruct Hin as [Hin | Hin]; [done|].
    apply list_elem_of_In in Hin.
    rewrite Forall_forall in Hsegs. by destruct (Hsegs _ Hin) as (_ & _ & _ & ?). }
  rewrite split_of_segments by done.
  change (List.last ("" :: x :: l) "") with (List.last (x :: l) "").
  by rewrite Hdot, andb_false_r.
Qed.

End Streams.

(** X5. [GET /download] sends a file exactly when the path passes the
    sandbox, names a regular file and is a path the [send] stream takes:
    what it sends lies in the storage root, is no directory, and carries
    its base name.  A regular file whose path the stream refuses is
    answered 500; such is, the working directory being absolute, every
    file whose name begins with a dot, while a file of another name is
    sent if its path holds neither a NUL nor a backslash. *)
Theorem download_serves_regular_files (cwd STORAGE_PATH filepath : string)
    (s : Server) :
  let root := RESOLVED_UPLOAD_FOLDER_ROOT cwd STORAGE_PATH in
  let refused := "Error occurred during file download." in
  (∀ p f, download cwd STORAGE_PATH filepath s = Download p f →
          getSafePath cwd STORAGE_PATH filepath = Some p
          ∧ (p = root ∨ ∃ rest, p = root +:+ "/" +:+ rest)
          ∧ (∃ content, fs s !! p = Some (Fs.File content))
          ∧ f = Path.basename p
          ∧ Express.send_error (Path.resolve cwd [p]) = None)
  ∧ (∀ p content, getSafePath cwd STORAGE_PATH filepath = Some p →
                  fs s !! p = Some (Fs.File content) →
                  (Express.send_error (Path.resolve cwd [p]) = None →
                   download cwd STORAGE_PATH filepath s
                   = Download p (Path.basename p))
                  ∧ (Express.send_error (Path.resolve cwd [p]) ≠ None →
                     download cwd STORAGE_PATH filepath s = Send 500 refused))
  ∧ (Path.isAbsolute cwd = true →
     ∀ p content, getSafePath cwd STORAGE_PATH filepath = Some p →
                  fs s !! p = Some (Fs.File content) →
                  Express.starts_with_dot (Path.basename p) = true →
                  download cwd STORAGE_PATH filepath s = Send 500 refused)
  ∧ (Path.isAbsolute cwd = true →
     ∀ p content, getSafePath cwd STORAGE_PATH filepath = Some p →
                  fs s !! p = Some (Fs.File content) →
                  Express.starts_with_dot (Path.basename p) = false →
                  Express.has_nul p = false → no_backslash p = true →
                  download cwd STORAGE_PATH filepath s
                  = Download p (Path.basename p)).
Proof.
  intros root refused.
  assert (∀ p content, getSafePath cwd STORAGE_PATH filepath = Some p →
                       fs s !! p = Some (Fs.File content) →
                       download cwd STORAGE_PATH filepath s
                       = res_download cwd p (Path.basename p) refused)
    as Hfile.
  { intros p content Hp Hnode. unfold download.
    rewrite truthy_getSafePath, Hp.
    rewrite (proj2 (pathExists_true _ _)) by eauto.
    unfold Fs.stat. by rewrite Hnode. }
  assert (∀ p content, getSafePath cwd STORAGE_PATH filepath = Some p →
            fs s !! p = Some (Fs.File content) →
            (Express.send_error (Path.resolve cwd [p]) = None →
             download cwd STORAGE_PATH filepath s
             = Download p (Path.basename p))
            ∧ (Express.send_error (Path.resolve cwd [p]) ≠ None →
               download cwd STORAGE_PATH filepath s = Send 500 refused))
    as Hcases.
  { intros p content Hp Hnode. rewrite (Hfile p content Hp Hnode).
    unfold res_download.
    destruct (Express.send_error _); split; intros; congruence. }
  split; [|split; [exact Hcases|split]].
  - intros p f Hsent.
    destruct (getSafePath cwd STORAGE_PATH filepath) as [q|] eqn:Hq.
    2:{ unfold download in Hsent. by rewrite truthy_getSafePath, Hq in Hsent. }
    pose proof (getSafePath_inside _ _ _ _ Hq) as Hin.
    destruct (fs s !! q) as [[content|]|] eqn:Hnode.
    + rewrite (Hfile q content eq_refl Hnode) in Hsent.
      unfold res_download in Hsent.
      destruct (Express.send_error _) eqn:Herr; [done|].
      injection Hsent as <- <-. eauto 10.
    + exfalso. unfold download in Hsent.
      rewrite truthy_getSafePath, Hq in Hsent.
      rewrite (proj2 (pathExists_true _ _)) in Hsent by eauto.
      unfold Fs.stat in Hsent. by rewrite Hnode in Hsent.
    + exfalso. unfold download in Hsent.
      rewrite truthy_getSafePath, Hq in Hsent.
      by rewrite (proj2 (pathExists_false _ _)) in Hsent.
  - intros Hcwd p content Hp Hnode Hdot.
    apply (Hcases p content Hp Hnode).
    destruct (getSafePath_canonical _ _ _ _ Hcwd Hp) as (segs & -> & Hsegs).
    rewrite resolve_canonical_id by done.
    destruct segs as [|x l _] using rev_ind; [done|].
    rewrite basename_of_segments in Hdot by done.
    by apply send_error_dot_file.
  - intros Hcwd p content Hp Hnode Hdot Hnul Hback.
    apply (Hcases p content Hp Hnode).
    destruct (getSafePath_canonical _ _ _ _ Hcwd Hp) as (segs & -> & Hsegs).
    rewrite resolve_canonical_id by done.
    apply send_error_plain_name; [done..|].
    destruct segs as [|x l _] using rev_ind; [done|].
    rewrite basename_of_segments in Hdot by done.
    by rewrite List.last_last.
Qed.

Lemma download_serves_regular_files_witness :
  download "/home/app" "/srv/data" "dir/../a.txt"
    {| fs := small_disk; shareLinks := [] |}
  = Download "/srv/data/a.txt" "a.txt"
  ∧ download "/home/app" "/srv/data" ".env"
      {| fs := disk_with_dot_file; shareLinks := [] |}
    = Send 500 "Error occurred during file download.".
Proof.
  split.
  - destruct (download_serves_regular_files "/home/app" "/srv/data"
                "dir/../a.txt" {| fs := small_disk; shareLinks := [] |})
      as (_ & _ & _ & Hserve).
    apply (Hserve eq_refl "/srv/data/a.txt" "alpha"); vm_compute; reflexivity.
  - destruct (download_serves_regular_files "/home/app" "/srv/data"
                ".env" {| fs := disk_with_dot_file; shareLinks := [] |})
      as (_ & _ & Hdot & _).
    apply (Hdot eq_refl "/srv/data/.env" "KEY=1"); vm_compute; reflexivity.
Defined.

(** What the stream makes of a backslash: a name that holds two dots next
    to a backslash is refused as well, and a dot file below a directory
    whose own name begins with a dot is refused for its own name only. *)
Example send_error_samples :
  Express.send_error "/srv/data/a.txt" = None
  ∧ Express.send_error "/srv/data/.env" = Some 404
  ∧ Express.send_error "/srv/data/.git/config" = None
  ∧ Express.send_error "/srv/data/..\evil" = Some 403
  ∧ Express.send_error "/srv/data/a..b" = None.
Proof. vm_compute. repeat split; reflexivity. Qed.

(** X6. [GET /api/browse] answers 200 exactly for an existing directory
    behind a path that passes, 400 for a file, and 404 for a path that is
    rejected or names nothing. *)
Theorem browse_outcomes (cwd STORAGE_PATH : string) (subpath : option string)
    (s : Server) :
  let r := api_browse cwd STORAGE_PATH subpath s in
  let resolved := getSafePath cwd STORAGE_PATH (Js.or_empty subpath) in
  (status_of r = Some 200 ↔ ∃ p, resolved = Some p ∧ fs s !! p = Some Fs.Dir)
  ∧ (status_of r = Some 400 ↔
     ∃ p content, resolved = Some p ∧ fs s !! p = Some (Fs.File content))
  ∧ (status_of r = Some 404 ↔
     resolved = None ∨ ∃ p, resolved = Some p ∧ fs s !! p = None).
Proof.
  intros r resolved. subst r resolved. unfold api_browse.
  rewrite truthy_getSafePath. cbn zeta.
  destruct (getSafePath cwd STORAGE_PATH (Js.or_empty subpath)) as [q|].
  2:{ simpl. split; [|split]; split; try done.
      - by intros (? & ? & _).
      - by intros (? & ? & ? & _).
      - by left. }
  unfold Fs.pathExists, Fs.stat.
  destruct (fs s !! q) as [[content|]|] eqn:Hnode.
  - rewrite bool_decide_eq_true_2 by eauto. simpl.
    split; [|split]; split; try done.
    + intros (p & [= <-] & Hp). by rewrite Hnode in Hp.
    + intros _. by exists q, content.
    + intros [? | (p & [= <-] & Hp)]; [done|]. by rewrite Hnode in Hp.
  - rewrite bool_decide_eq_true_2 by eauto. simpl.
    split; [|split]; split; try done.
    + intros _. by exists q.
    + intros (p & c & [= <-] & Hp). by rewrite Hnode in Hp.
    + intros [? | (p & [= <-] & Hp)]; [done|]. by rewrite Hnode in Hp.
  - rewrite bool_decide_eq_false_2 by (by intros [? ?]). simpl.
    split; [|split]; split; try done.
    + intros (p & [= <-] & Hp). by rewrite Hnode in Hp.
    + intros (p & c & [= <-] & Hp). by rewrite Hnode in Hp.
    + intros _. right. by exists q.
Qed.

Lemma browse_outcomes_witness :
  status_of (api_browse "/home/app" "/srv/data" (Some "dir")
               {| fs := small_disk; shareLinks := [] |}) = Some 200
  ∧ status_of (api_browse "/home/app" "/srv/data" (Some "a.txt")
                 {| fs := small_disk; shareLinks := [] |}) = Some 400.
Proof.
  split.
  - apply (browse_outcomes "/home/app" "/srv/data" (Some "dir")
             {| fs := small_disk; shareLinks := [] |}).
    exists "/srv/data/dir". split; vm_compute; reflexivity.
  - apply (browse_outcomes "/home/app" "/srv/data" (Some "a.txt")
             {| fs := small_disk; shareLinks := [] |}).
    exists "/srv/data/a.txt", "alpha". split; vm_compute; reflexivity.
Defined.

(** X7. A delete that succeeds removes the entry and all that lies below it,
    and nothing else; the share links are not looked at. *)
Theorem delete_removes_subtree (cwd STORAGE_PATH path p : string)
    (s : Server) :
  path ≠ "" →
  getSafePath cwd STORAGE_PATH path = Some p →
  p ≠ RESOLVED_UPLOAD_FOLDER_ROOT cwd STORAGE_PATH →
  is_Some (fs s !! p) →
  let r := api_delete cwd STORAGE_PATH (Some path) s in
  r.1 = ok ("Item '" +:+ Path.basename p +:+ "' deleted successfully")
  ∧ shareLinks r.2 = shareLinks s
  ∧ (∀ q, fs r.2 !! q = if Fs.within p q then None else fs s !! q).
Proof.
  intros Hne Hp Hroot Hex r. subst r. unfold api_delete.
  rewrite truthy_Some by done. rewrite truthy_getSafePath, Hp.
  rewrite bool_decide_eq_false_2 by congruence.
  rewrite (proj2 (pathExists_true _ _)) by done. simpl.
  split; [done|]. split; [done|]. intros q. apply remove_lookup.
Qed.

Lemma delete_removes_subtree_witness :
  let s := {| fs := small_disk; shareLinks := two_stale_links |} in
  let r := api_delete "/home/app" "/srv/data" (Some "dir") s in
  r.1 = ok "Item 'dir' deleted successfully"
  ∧ fs r.2 !! "/srv/data/dir/sub" = None
  ∧ fs r.2 !! "/srv/data/a.txt" = Some (Fs.File "alpha").
Proof.
  intros s.
  destruct (delete_removes_subtree "/home/app" "/srv/data" "dir"
              "/srv/data/dir" s) as (Hanswer & _ & Heffect).
  - discriminate.
  - reflexivity.
  - vm_compute. discriminate.
  - vm_compute. eexists. reflexivity.
  - split; [exact Hanswer|]. split.
    + exact (Heffect "/srv/data/dir/sub").
    + exact (Heffect "/srv/data/a.txt").
Defined.

(** X8. Whatever the request, [/api/delete] leaves the storage root in place,
    and every entry that does not lie within the storage root, and the
    share links. *)
Theorem delete_keeps_root_and_outside (cwd STORAGE_PATH : string)
    (path : option string) (s : Server) :
  let root := RESOLVED_UPLOAD_FOLDER_ROOT cwd STORAGE_PATH in
  let s' := (api_delete cwd STORAGE_PATH path s).2 in
  fs s' !! root = fs s !! root
  ∧ (∀ q, Fs.within root q = false → fs s' !! q = fs s !! q)
  ∧ shareLinks s' = shareLinks s.
Proof.
  intros root s'. subst root s'. unfold api_delete.
  destruct (truthy path) as [suffix|]; [|done].
  destruct (bool_decide _) eqn:Hb; [done|]. apply bool_decide_eq_false in Hb.
  rewrite truthy_getSafePath.
  destruct (getSafePath cwd STORAGE_PATH suffix) as [p|] eqn:Hp; [|done].
  destruct (negb (Fs.pathExists (fs s) p)); [done|]. simpl.
  destruct (getSafePath_inside _ _ _ _ Hp) as [-> | [rest ->]]; [done|].
  split; [|split; [|done]].
  - by rewrite remove_lookup, root_not_within_inside.
  - intros q Hq. rewrite remove_lookup.
    destruct (Fs.within (RESOLVED_UPLOAD_FOLDER_ROOT cwd STORAGE_PATH
                         +:+ "/" +:+ rest) q) eqn:E; [|done].
    apply within_inside in E. congruence.
Qed.

(** X9. After a delete that succeeded, the same request is answered 404 and
    changes nothing. *)
Theorem delete_twice_not_found (cwd STORAGE_PATH path p : string)
    (s : Server) :
  path ≠ "" →
  getSafePath cwd STORAGE_PATH path = Some p →
  p ≠ RESOLVED_UPLOAD_FOLDER_ROOT cwd STORAGE_PATH →
  is_Some (fs s !! p) →
  let s1 := (api_delete cwd STORAGE_PATH (Some path) s).2 in
  api_delete cwd STORAGE_PATH (Some path) s1 = (error 404 "Item not found.", s1).
Proof.
  intros Hne Hp Hroot Hex s1.
  assert (fs s1 !! p = None) as Hgone.
  { subst s1. unfold api_delete.
    rewrite truthy_Some by done. rewrite truthy_getSafePath, Hp.
    rewrite bool_decide_eq_false_2 by congruence.
    rewrite (proj2 (pathExists_true _ _)) by done. simpl.
    by rewrite remove_lookup, within_self. }
  unfold api_delete at 1.
  rewrite truthy_Some by done. rewrite truthy_getSafePath, Hp.
  rewrite bool_decide_eq_false_2 by congruence.
  by rewrite (proj2 (pathExists_false _ _)) by done.
Qed.

Lemma delete_twice_not_found_witness :
  let s := {| fs := small_disk; shareLinks := [] |} in
  let s1 := (api_delete "/home/app" "/srv/data" (Some "a.txt") s).2 in
  api_delete "/home/app" "/srv/data" (Some "a.txt") s1
  = (error 404 "Item not found.", s1).
Proof.
  intros s.
  apply (delete_twice_not_found "/home/app" "/srv/data" "a.txt"
           "/srv/data/a.txt" s).
  - discriminate.
  - reflexivity.
  - vm_compute. discriminate.
  - vm_compute. eexists. reflexivity.
Defined.

Lemma delete_keeps_root_and_outside_witness :
  let s := {| fs := small_disk; shareLinks := two_stale_links |} in
  let s' := (api_delete "/home/app" "/srv/data" (Some "dir") s).2 in
  fs s' !! "/srv/data" = Some Fs.Dir ∧ fs s' !! "/srv" = Some Fs.Dir.
Proof.
  intros s.
  destruct (delete_keeps_root_and_outside "/home/app" "/srv/data"
              (Some "dir") s) as (Hroot & Hout & _).
  split.
  - etransitivity; [exact Hroot|]. vm_compute. reflexivity.
  - etransitivity; [apply (Hout "/srv")|]; vm_compute; reflexivity.
Defined.

(** ** Creating directories *)

Section Directories.

Lemma clean_no_sep (s : string) : clean s = true → no_sep s = true.
Proof.
  induction s as [|c s IH]; [done|]. simpl.
  intros [Hc Hs]%andb_true_iff. rewrite (IH Hs), andb_true_r.
  destruct (Path.is_sep c) eqn:E; [|done].
  apply is_sep_illegal in E. by rewrite E in Hc.
Qed.

Lemma sanitize_dir_name_plain (dir_name : string) :
  dir_name ≠ "" → plain_segment (sanitize_dir_name dir_name).
Proof.
  intros Hne.
  destruct (sanitize_dir_name_ok dir_name Hne) as (Hclean & H1 & H2 & H3).
  split; [by apply clean_no_sep | done].
Qed.

Lemma ensure_segments_existing (segs_rev : list string)
    (disk : gmap string Fs.node) :
  disk !! Fs.of_segments (rev segs_rev) = Some Fs.Dir →
  Fs.ensure_segments segs_rev disk = Some disk.
Proof. intros H. destruct segs_rev; simpl in *; by rewrite H. Qed.

(** [ensureDir] of a missing name under a directory that exists creates
    that one directory. *)
Lemma ensureDir_child (segs : list string) (x : string)
    (disk : gmap string Fs.node) :
  Forall plain_segment segs → plain_segment x →
  disk !! Fs.of_segments segs = Some Fs.Dir →
  disk !! Fs.of_segments (segs ++ [x]) = None →
  Fs.ensureDir (Fs.of_segments (segs ++ [x])) disk
  = Some (<[Fs.of_segments (segs ++ [x]) := Fs.Dir]> disk).
Proof.
  intros Hsegs Hx Hparent Hnone. unfold Fs.ensureDir. rewrite Hnone.
  rewrite segments_of_segments
    by (apply Forall_app_2; [done | by apply Forall_singleton]).
  rewrite rev_app_distr. simpl rev. simpl app.
  cbn [Fs.ensure_segments]. simpl rev. rewrite rev_involutive, Hnone.
  rewrite ensure_segments_existing by by rewrite rev_involutive.
  reflexivity.
Qed.

Lemma of_segments_snoc_ne (segs : list string) (x : string) :
  Forall plain_segment segs → plain_segment x →
  Fs.of_segments (segs ++ [x]) ≠ Fs.of_segments segs.
Proof.
  intros Hsegs Hx Heq. apply of_segments_inj in Heq; [|
    by apply Forall_app_2; [|apply Forall_singleton] | done].
  apply (f_equal (@length string)) in Heq.
  rewrite length_app in Heq. simpl in Heq. lia.
Qed.

End Directories.

(** X10. [/api/mkdir] under an existing directory, with a name that is free,
    creates one directory, directly below the parent and named by the
    sanitized name; nothing else on the disk changes. *)
Theorem mkdir_creates (cwd STORAGE_PATH : string) (parent_path : option string)
    (dir_name : string) (s : Server) (parentDir : string) :
  Path.isAbsolute cwd = true →
  dir_name ≠ "" →
  getSafePath cwd STORAGE_PATH (Js.or_empty parent_path) = Some parentDir →
  fs s !! parentDir = Some Fs.Dir →
  let name := sanitize_dir_name dir_name in
  let target := Path.join parentDir name in
  fs s !! target = None →
  api_mkdir cwd STORAGE_PATH parent_path (Some dir_name) s
  = (ok ("Directory '" +:+ name +:+ "' created successfully in /"
         +:+ Js.or_empty parent_path),
     with_fs s (<[target := Fs.Dir]> (fs s)))
  ∧ Fs.parent target = parentDir
  ∧ target ≠ parentDir.
Proof.
  intros Hcwd Hne Hparent Hdir name target Hfree.
  destruct (getSafePath_canonical _ _ _ _ Hcwd Hparent) as (segs & -> & Hsegs).
  pose proof (sanitize_dir_name_plain dir_name Hne) as Hplain.
  fold name in Hplain.
  assert (target = Fs.of_segments (segs ++ [name])) as Htarget
    by by apply join_canonical_plain.
  split; [|split].
  - unfold api_mkdir. rewrite truthy_Some by done. fold name.
    destruct Hplain as (Hsep & H1 & H2 & H3).
    assert (Js.falsy (Some name) || Js.str_eqb name "."
            || Js.str_eqb name ".." = false) as ->.
    { simpl. apply str_eqb_false in H1, H2, H3. by rewrite H1, H2, H3. }
    rewrite truthy_getSafePath, Hparent.
    rewrite (proj2 (pathExists_true _ _)) by eauto.
    unfold Fs.stat. rewrite Hdir. simpl. fold target.
    rewrite (proj2 (pathExists_false _ _)) by done.
    rewrite Htarget in *. by rewrite ensureDir_child.
  - rewrite Htarget. by apply parent_of_segments.
  - rewrite Htarget. by apply of_segments_snoc_ne.
Qed.

Lemma mkdir_creates_witness :
  let s := {| fs := small_disk; shareLinks := [] |} in
  api_mkdir "/home/app" "/srv/data" (Some "dir") (Some "new:dir") s
  = (ok "Directory 'new_dir' created successfully in /dir",
     with_fs s (<["/srv/data/dir/new_dir" := Fs.Dir]> (fs s))).
Proof.
  intros s.
  destruct (mkdir_creates "/home/app" "/srv/data" (Some "dir") "new:dir" s
              "/srv/data/dir") as (Hanswer & _ & _).
  - reflexivity.
  - discriminate.
  - reflexivity.
  - vm_compute. reflexivity.
  - vm_compute. reflexivity.
  - exact Hanswer.
Defined.

(** X11. A directory just created is in the way of the same request made
    again: the second one is answered 409 and changes nothing. *)
Theorem mkdir_twice_conflicts (cwd STORAGE_PATH : string)
    (parent_path : option string) (dir_name : string) (s : Server)
    (parentDir : string) :
  Path.isAbsolute cwd = true →
  dir_name ≠ "" →
  getSafePath cwd STORAGE_PATH (Js.or_empty parent_path) = Some parentDir →
  fs s !! parentDir = Some Fs.Dir →
  fs s !! Path.join parentDir (sanitize_dir_name dir_name) = None →
  let s1 := (api_mkdir cwd STORAGE_PATH parent_path (Some dir_name) s).2 in
  api_mkdir cwd STORAGE_PATH parent_path (Some dir_name) s1
  = (error 409 ("Directory or file '" +:+ sanitize_dir_name dir_name
                +:+ "' already exists."), s1).
Proof.
  intros Hcwd Hne Hparent Hdir Hfree s1.
  destruct (getSafePath_canonical _ _ _ _ Hcwd Hparent) as (segs & Hseg & Hsegs).
  pose proof (sanitize_dir_name_plain dir_name Hne) as Hplain.
  set (name := sanitize_dir_name dir_name) in *.
  set (target := Path.join parentDir name) in *.
  assert (target = Fs.of_segments (segs ++ [name])) as Htarget
    by (subst target; rewrite Hseg; by apply join_canonical_plain).
  assert (target ≠ parentDir) as Hdiff
    by (rewrite Htarget, Hseg; by apply of_segments_snoc_ne).
  assert (Js.falsy (Some name) || Js.str_eqb name "."
          || Js.str_eqb name ".." = false) as Hguard.
  { destruct Hplain as (Hsep & H1 & H2 & H3).
    simpl. apply str_eqb_false in H1, H2, H3. by rewrite H1, H2, H3. }
  assert (fs s1 = <[target := Fs.Dir]> (fs s)) as Hfs1.
  { subst s1. unfold api_mkdir. rewrite truthy_Some by done. fold name.
    rewrite Hguard, truthy_getSafePath, Hparent.
    rewrite (proj2 (pathExists_true _ _)) by eauto.
    unfold Fs.stat. rewrite Hdir. simpl. fold target.
    rewrite (proj2 (pathExists_false _ _)) by done.
    rewrite Htarget, Hseg in *. by rewrite ensureDir_child. }
  unfold api_mkdir at 1. rewrite truthy_Some by done. fold name.
  rewrite Hguard, truthy_getSafePath, Hparent.
  assert (fs s1 !! parentDir = Some Fs.Dir) as Hdir1
    by by rewrite Hfs1, lookup_insert_ne.
  assert (fs s1 !! target = Some Fs.Dir) as Htarget1
    by by rewrite Hfs1, lookup_insert_eq.
  rewrite (proj2 (pathExists_true _ _)) by eauto.
  unfold Fs.stat. rewrite Hdir1. simpl. fold target.
  by rewrite (proj2 (pathExists_true _ _)) by eauto.
Qed.

Lemma mkdir_twice_conflicts_witness :
  let s := {| fs := small_disk; shareLinks := [] |} in
  let s1 := (api_mkdir "/home/app" "/srv/data" None (Some "photos") s).2 in
  api_mkdir "/home/app" "/srv/data" None (Some "photos") s1
  = (error 409 "Directory or file 'photos' already exists.", s1).
Proof.
  intros s.
  apply (mkdir_twice_conflicts "/home/app" "/srv/data" None "photos" s
           "/srv/data").
  - reflexivity.
  - discriminate.
  - reflexivity.
  - vm_compute. reflexivity.
  - vm_compute. reflexivity.
Defined.

(** ** The destination and the name of an upload *)

Section UploadPipeline.

Lemma ensure_segments_spec (segs_rev : list string) :
  ∀ disk disk' : gmap string Fs.node,
    Fs.ensure_segments segs_rev disk = Some disk' →
    disk' !! Fs.of_segments (rev segs_rev) = Some Fs.Dir
    ∧ (∀ q n, disk !! q = Some n → disk' !! q = Some n)
    ∧ (∀ q n, disk' !! q = Some n → disk !! q = Some n ∨ n = Fs.Dir).
Proof.
  induction segs_rev as [|x up IH]; intros disk disk';
    cbn [Fs.ensure_segments];
    destruct (disk !! Fs.of_segments (rev _)) as [[c|]|] eqn:Hp;
    try done; simpl rev in *.
  - intros [= <-]. eauto.
  - intros [= <-]. split; [apply lookup_insert_eq|]. split.
    + intros q n Hq. rewrite lookup_insert_ne; [done|]. congruence.
    + intros q n. rewrite lookup_insert. case_decide; [|by left].
      intros [= <-]. by right.
  - intros [= <-]. eauto.
  - destruct (Fs.ensure_segments up disk) as [disk1|] eqn:Hup; [|done].
    intros [= <-]. destruct (IH _ _ Hup) as (_ & Hkeep & Honly).
    split; [apply lookup_insert_eq|]. split.
    + intros q n Hq. rewrite lookup_insert_ne by congruence. by apply Hkeep.
    + intros q n. rewrite lookup_insert. case_decide.
      * intros [= <-]. by right.
      * apply Honly.
Qed.

Lemma ensureDir_spec (p : string) (disk disk' : gmap string Fs.node) :
  canonical p → Fs.ensureDir p disk = Some disk' →
  disk' !! p = Some Fs.Dir
  ∧ (∀ q n, disk !! q = Some n → disk' !! q = Some n)
  ∧ (∀ q n, disk' !! q = Some n → disk !! q = Some n ∨ n = Fs.Dir).
Proof.
  intros (segs & -> & Hsegs). unfold Fs.ensureDir.
  destruct (disk !! Fs.of_segments segs) as [[c|]|] eqn:Hp; [done| |].
  - intros [= <-]. eauto.
  - rewrite segments_of_segments by done.
    intros H%ensure_segments_spec. by rewrite rev_involutive in H.
Qed.

Lemma clean_app (a b : string) : clean (a +:+ b) = clean a && clean b.
Proof.
  induction a as [|c a IH]; [done|].
  rewrite app_cons. simpl. by rewrite IH, andb_assoc.
Qed.

Lemma clean_of_uint (d : Decimal.uint) :
  clean (NilEmpty.string_of_uint d) = true.
Proof. induction d; simpl; auto. Qed.

Lemma clean_of_int (n : Z) : clean (Js.of_int n) = true.
Proof.
  unfold Js.of_int, NilZero.string_of_int, NilZero.string_of_uint.
  destruct (Z.to_int n) as [d|d]; destruct d; simpl;
    auto using clean_of_uint.
Qed.

End UploadPipeline.

(** X12. The destination callback of an upload: when it succeeds, the
    destination is a directory afterwards, every entry that was on the
    disk is still there unchanged, and whatever was added is a directory;
    it fails when a file sits at the destination. *)
Theorem upload_destination_ensured (cwd STORAGE_PATH : string)
    (subpath : option string) (disk : gmap string Fs.node) :
  Path.isAbsolute cwd = true →
  (∀ dir disk1,
     storage_destination cwd STORAGE_PATH subpath disk = inr (dir, disk1) →
     getSafePath cwd STORAGE_PATH (Js.or_empty subpath) = Some dir
     ∧ disk1 !! dir = Some Fs.Dir
     ∧ (∀ q n, disk !! q = Some n → disk1 !! q = Some n)
     ∧ (∀ q n, disk1 !! q = Some n → disk !! q = Some n ∨ n = Fs.Dir))
  ∧ (∀ dir content,
       getSafePath cwd STORAGE_PATH (Js.or_empty subpath) = Some dir →
       disk !! dir = Some (Fs.File content) →
       storage_destination cwd STORAGE_PATH subpath disk
       = inl "Failed to create target directory").
Proof.
  intros Hcwd. unfold storage_destination. rewrite truthy_getSafePath.
  destruct (getSafePath cwd STORAGE_PATH (Js.or_empty subpath)) as [d|] eqn:Hd;
    [|by split].
  pose proof (getSafePath_canonical _ _ _ _ Hcwd Hd) as Hcanon.
  split.
  - intros dir disk1.
    destruct (Fs.ensureDir d disk) as [disk'|] eqn:He; [|done].
    intros [= <- <-]. split; [done|]. by apply ensureDir_spec.
  - intros dir content [= <-] Hfile. unfold Fs.ensureDir. by rewrite Hfile.
Qed.

Lemma upload_destination_ensured_witness :
  ∃ disk1,
    storage_destination "/home/app" "/srv/data" (Some "new/deep") small_disk
    = inr ("/srv/data/new/deep", disk1)
    ∧ disk1 !! "/srv/data/new/deep" = Some Fs.Dir
    ∧ disk1 !! "/srv/data/a.txt" = Some (Fs.File "alpha").
Proof.
  destruct (upload_destination_ensured "/home/app" "/srv/data"
              (Some "new/deep") small_disk eq_refl) as [Hok _].
  destruct (storage_destination "/home/app" "/srv/data" (Some "new/deep")
              small_disk) as [err|[dir disk1]] eqn:Hdest.
  - vm_compute in Hdest. discriminate Hdest.
  - assert (dir = "/srv/data/new/deep") as ->.
    { vm_compute in Hdest. congruence. }
    exists disk1. split; [reflexivity|].
    destruct (Hok _ _ eq_refl) as (_ & Hdir & Hkeep & _).
    split; [exact Hdir|]. apply Hkeep. vm_compute. reflexivity.
Defined.

(** X13. The name an upload is stored under holds no character of the class
    the sanitizer replaces, whatever name the client declared: no
    separator in particular, so the name cannot point below or above the
    destination. *)
Theorem upload_name_is_clean (cwd STORAGE_PATH : string)
    (subpath : option string) (originalname : string) (now : Z)
    (disk : gmap string Fs.node) (filename : string) :
  storage_filename cwd STORAGE_PATH subpath originalname now disk
  = inr filename →
  clean filename = true ∧ no_sep filename = true.
Proof.
  unfold storage_filename.
  destruct (truthy _) as [parentDir|]; [|done].
  pose proof (clean_replace_illegal originalname) as Hclean.
  pose proof (no_sep_replace_illegal originalname) as Hsep.
  set (safeName := Js.replace_illegal originalname) in *.
  assert (∀ name, clean name = true → clean name = true ∧ no_sep name = true)
    as Hboth by (intros name Hn; split; [done | by apply clean_no_sep]).
  destruct (Fs.pathExists disk (Path.join parentDir safeName)).
  - intros [= <-]. apply Hboth.
    pose proof (base_ext_app safeName Hsep) as Hname.
    rewrite <- Hname, clean_app in Hclean.
    apply andb_true_iff in Hclean as [Hbase Hext].
    by rewrite !clean_app, Hbase, Hext, clean_of_int.
  - intros [= <-]. by apply Hboth.
Qed.

Lemma upload_name_is_clean_witness :
  clean "a_b_1700000000000.txt" = true
  ∧ no_sep "a_b_1700000000000.txt" = true.
Proof.
  apply (upload_name_is_clean "/home/app" "/srv/data" None "a/b.txt"
           1700000000000 (<["/srv/data/a_b.txt" := Fs.File "x"]> small_disk)).
  vm_compute. reflexivity.
Defined.

(** An upload into an existing directory, under a name that is a plain
    segment and is not the name of a directory there, writes that one
    file. *)
Lemma upload_stores (cwd STORAGE_PATH : string) (subpath : option string)
    (originalname content : string) (now : Z) (s : Server)
    (segs : list string) (filename : string) :
  Forall plain_segment segs →
  getSafePath cwd STORAGE_PATH (Js.or_empty subpath)
  = Some (Fs.of_segments segs) →
  fs s !! Fs.of_segments segs = Some Fs.Dir →
  storage_filename cwd STORAGE_PATH subpath originalname now (fs s)
  = inr filename →
  plain_segment filename →
  fs s !! Fs.of_segments (segs ++ [filename]) ≠ Some Fs.Dir →
  api_upload cwd STORAGE_PATH subpath (Some (originalname, content)) now s
  = (ok ("File " +:+ dquote +:+ filename +:+ dquote
         +:+ " uploaded successfully to /" +:+ Js.or_empty subpath),
     with_fs s (<[Fs.of_segments (segs ++ [filename]) := Fs.File content]>
                  (fs s))).
Proof.
  intros Hsegs Hsafe Hdir Hname Hplain Hnodir.
  unfold api_upload, storage_handle_file, storage_destination.
  rewrite truthy_getSafePath, Hsafe. unfold Fs.ensureDir. rewrite Hdir.
  rewrite Hname, join_canonical_plain by done.
  unfold Fs.writeFile.
  destruct (fs s !! Fs.of_segments (segs ++ [filename])) as [[old|]|] eqn:Hold;
    [done|done|].
  rewrite parent_of_segments by done. by rewrite Hdir.
Qed.

Lemma of_segments_snoc_inj (segs : list string) (x y : string) :
  Forall plain_segment segs → plain_segment x → plain_segment y →
  Fs.of_segments (segs ++ [x]) = Fs.of_segments (segs ++ [y]) → x = y.
Proof.
  intros Hsegs Hx Hy Heq.
  apply of_segments_inj in Heq;
    [| by apply Forall_app_2; [|apply Forall_singleton]..].
  by apply app_inv_head in Heq as [= ->].
Qed.

(** X14. An upload whose sanitized name is free in the destination directory
    is stored under that name, directly below the destination, with the
    content sent; no other entry changes. *)
Theorem upload_stores_new_name (cwd STORAGE_PATH : string)
    (subpath : option string) (originalname content : string) (now : Z)
    (s : Server) (dir : string) :
  Path.isAbsolute cwd = true →
  getSafePath cwd STORAGE_PATH (Js.or_empty subpath) = Some dir →
  fs s !! dir = Some Fs.Dir →
  let safeName := Js.replace_illegal originalname in
  let stored := Path.join dir safeName in
  safeName ≠ "" → safeName ≠ "." → safeName ≠ ".." →
  fs s !! stored = None →
  let r := api_upload cwd STORAGE_PATH subpath
             (Some (originalname, content)) now s in
  r = (ok ("File " +:+ dquote +:+ safeName +:+ dquote
           +:+ " uploaded successfully to /" +:+ Js.or_empty subpath),
       with_fs s (<[stored := Fs.File content]> (fs s)))
  ∧ Fs.parent stored = dir
  ∧ (∀ q, q ≠ stored → fs r.2 !! q = fs s !! q).
Proof.
  intros Hcwd Hsafe Hdir safeName stored H1 H2 H3 Hfree r.
  destruct (getSafePath_canonical _ _ _ _ Hcwd Hsafe) as (segs & -> & Hsegs).
  assert (plain_segment safeName) as Hplain
    by (split; [apply no_sep_replace_illegal | done]).
  assert (stored = Fs.of_segments (segs ++ [safeName])) as Hstored
    by by apply join_canonical_plain.
  assert (storage_filename cwd STORAGE_PATH subpath originalname now (fs s)
          = inr safeName) as Hname.
  { unfold storage_filename. rewrite truthy_getSafePath, Hsafe.
    fold safeName stored. by rewrite (proj2 (pathExists_false _ _)). }
  assert (r = (ok ("File " +:+ dquote +:+ safeName +:+ dquote
                   +:+ " uploaded successfully to /" +:+ Js.or_empty subpath),
               with_fs s (<[stored := Fs.File content]> (fs s)))) as ->.
  { subst r. rewrite Hstored. apply upload_stores; try done.
    rewrite <- Hstored, Hfree. done. }
  split; [done|]. split.
  - rewrite Hstored. by apply parent_of_segments.
  - intros q Hq. simpl. by rewrite lookup_insert_ne.
Qed.

Lemma upload_stores_new_name_witness :
  let s := {| fs := small_disk; shareLinks := [] |} in
  api_upload "/home/app" "/srv/data" (Some "dir") (Some ("c?t.png", "bytes"))
    1700000000000 s
  = (ok ("File " +:+ dquote +:+ "c_t.png" +:+ dquote
         +:+ " uploaded successfully to /dir"),
     with_fs s (<["/srv/data/dir/c_t.png" := Fs.File "bytes"]> (fs s))).
Proof.
  intros s.
  destruct (upload_stores_new_name "/home/app" "/srv/data" (Some "dir")
              "c?t.png" "bytes" 1700000000000 s "/srv/data/dir")
    as (Hanswer & _ & _).
  - reflexivity.
  - reflexivity.
  - vm_compute. reflexivity.
  - discriminate.
  - discriminate.
  - discriminate.
  - vm_compute. reflexivity.
  - exact Hanswer.
Defined.

(** X15. The same name uploaded twice into the same directory, free at first:
    the second file gets the name with the time stamp, and afterwards both
    files are there, each with the content it was sent with (as long as no
    directory has the stamped name). *)
Theorem upload_twice_keeps_both (cwd STORAGE_PATH : string)
    (subpath : option string) (originalname c1 c2 : string) (now1 now2 : Z)
    (s : Server) (dir : string) :
  Path.isAbsolute cwd = true →
  getSafePath cwd STORAGE_PATH (Js.or_empty subpath) = Some dir →
  fs s !! dir = Some Fs.Dir →
  let safeName := Js.replace_illegal originalname in
  let ext := Path.extname safeName in
  let base := Path.basename_ext safeName ext in
  let newName := base +:+ "_" +:+ Js.of_int now2 +:+ ext in
  safeName ≠ "" → safeName ≠ "." → safeName ≠ ".." →
  fs s !! Path.join dir safeName = None →
  fs s !! Path.join dir newName ≠ Some Fs.Dir →
  let s1 := (api_upload cwd STORAGE_PATH subpath
               (Some (originalname, c1)) now1 s).2 in
  let r2 := api_upload cwd STORAGE_PATH subpath
              (Some (originalname, c2)) now2 s1 in
  r2.1 = ok ("File " +:+ dquote +:+ newName +:+ dquote
             +:+ " uploaded successfully to /" +:+ Js.or_empty subpath)
  ∧ Path.join dir newName ≠ Path.join dir safeName
  ∧ fs r2.2 !! Path.join dir safeName = Some (Fs.File c1)
  ∧ fs r2.2 !! Path.join dir newName = Some (Fs.File c2).
Proof.
  intros Hcwd Hsafe Hdir safeName ext base newName H1 H2 H3 Hfree Hnodir s1 r2.
  destruct (getSafePath_canonical _ _ _ _ Hcwd Hsafe) as (segs & -> & Hsegs).
  pose proof (no_sep_replace_illegal originalname) as Hsep.
  fold safeName in Hsep.
  assert (plain_segment safeName) as Hplain by done.
  pose proof (base_ext_app safeName Hsep) as Happ. fold ext base in Happ.
  assert (plain_segment newName) as Hnew
    by (apply stamped_plain; by rewrite Happ).
  assert (newName ≠ safeName) as Hdiff.
  { intros Heq. pose proof (stamped_longer base ext now2) as Hlen.
    fold newName in Hlen. rewrite Happ, Heq in Hlen. lia. }
  rewrite !join_canonical_plain in * by done.
  set (first := Fs.of_segments (segs ++ [safeName])) in *.
  set (second := Fs.of_segments (segs ++ [newName])) in *.
  assert (second ≠ first) as Hpaths
    by (intros Heq; by apply of_segments_snoc_inj in Heq).
  assert (first ≠ Fs.of_segments segs) as Hfirst_dir
    by by apply of_segments_snoc_ne.
  assert (s1 = with_fs s (<[first := Fs.File c1]> (fs s))) as Hs1.
  { subst s1. rewrite (upload_stores _ _ _ _ _ _ _ segs safeName);
      try done.
    - unfold storage_filename. rewrite truthy_getSafePath, Hsafe.
      fold safeName. rewrite join_canonical_plain by done. fold first.
      by rewrite (proj2 (pathExists_false _ _)).
    - fold first. by rewrite Hfree. }
  assert (r2 = (ok ("File " +:+ dquote +:+ newName +:+ dquote
                    +:+ " uploaded successfully to /" +:+ Js.or_empty subpath),
                with_fs s1 (<[second := Fs.File c2]> (fs s1)))) as ->.
  { subst r2. apply upload_stores; try done.
    - rewrite Hs1. simpl. by rewrite lookup_insert_ne.
    - unfold storage_filename. rewrite truthy_getSafePath, Hsafe.
      fold safeName. rewrite join_canonical_plain by done. fold first.
      rewrite (proj2 (pathExists_true _ _)).
      + by fold ext base newName.
      + rewrite Hs1. simpl. rewrite lookup_insert_eq. eauto.
    - rewrite Hs1. simpl. by rewrite lookup_insert_ne. }
  split; [done|]. split; [done|]. simpl. split.
  - rewrite lookup_insert_ne by done. rewrite Hs1. simpl.
    apply lookup_insert_eq.
  - apply lookup_insert_eq.
Qed.

Lemma upload_twice_keeps_both_witness :
  let s := {| fs := small_disk; shareLinks := [] |} in
  let s1 := (api_upload "/home/app" "/srv/data" (Some "dir")
               (Some ("cat.png", "first")) 1700000000000 s).2 in
  let r2 := api_upload "/home/app" "/srv/data" (Some "dir")
              (Some ("cat.png", "second")) 1700000000123 s1 in
  fs r2.2 !! "/srv/data/dir/cat.png" = Some (Fs.File "first")
  ∧ fs r2.2 !! "/srv/data/dir/cat_1700000000123.png"
    = Some (Fs.File "second").
Proof.
  intros s.
  destruct (upload_twice_keeps_both "/home/app" "/srv/data" (Some "dir")
              "cat.png" "first" "second" 1700000000000 1700000000123 s
              "/srv/data/dir") as (_ & _ & Hfirst & Hsecond).
  - reflexivity.
  - reflexivity.
  - vm_compute. reflexivity.
  - discriminate.
  - discriminate.
  - discriminate.
  - vm_compute. reflexivity.
  - vm_compute. discriminate.
  - split; [exact Hfirst | exact Hsecond].
Defined.

(** ** Creating a share and using it *)

Section Shares.

Implicit Types links : list (string * Registry.ShareInfo).

Lemma own_set_eq links (id : string) (info : Registry.ShareInfo) :
  Registry.own (Registry.set links id info) id = Some info.
Proof.
  induction links as [|[k v] links IH]; simpl.
  - by rewrite str_eqb_refl.
  - destruct (Js.str_eqb k id) eqn:E; simpl; by rewrite E.
Qed.

Lemma own_set_ne links (id id' : string) (info : Registry.ShareInfo) :
  id' ≠ id →
  Registry.own (Registry.set links id info) id' = Registry.own links id'.
Proof.
  intros Hne. induction links as [|[k v] links IH]; simpl.
  - assert (Js.str_eqb id id' = false) as -> by by apply str_eqb_false.
    done.
  - destruct (Js.str_eqb k id) eqn:E; simpl.
    + apply str_eqb_true in E as ->.
      by assert (Js.str_eqb id id' = false) as -> by by apply str_eqb_false.
    + by rewrite IH.
Qed.

End Shares.

(** X16. Sharing a regular file and then opening the link: within the hour
    the link and the disk stay as they are, so the link can be opened
    again, and the file is served if its path is one the [send] stream
    takes, while the answer is 500 if the stream refuses it; after the hour
    the answer is 410. *)
Theorem share_then_access (cwd STORAGE_PATH path shareId origin : string)
    (now : Z) (s : Server) (p content : string) (clock : nat → Z) :
  path ≠ "" →
  getSafePath cwd STORAGE_PATH path = Some p →
  fs s !! p = Some (Fs.File content) →
  let created := api_share cwd STORAGE_PATH (Some path) shareId origin now s in
  created.1 = Json 200 (Share shareId (origin +:+ "/share/" +:+ shareId))
  ∧ fs created.2 = fs s
  ∧ (clock 0%nat <= now + 3600000 →
     let opened := share_access cwd STORAGE_PATH clock shareId created.2 in
     opened.2 = created.2
     ∧ (Express.send_error (Path.resolve cwd [p]) = None →
        opened.1 = Download p (Path.basename p))
     ∧ (Express.send_error (Path.resolve cwd [p]) ≠ None →
        opened.1 = Send 500 "Error downloading shared file."))
  ∧ (clock 0%nat > now + 3600000 →
     (share_access cwd STORAGE_PATH clock shareId created.2).1
     = Send 410 "Share link has expired (valid for 1 hour(s)).").
Proof.
  intros Hne Hp Hfile created.
  set (info := {| Registry.path := path; Registry.created_at := now |}).
  assert (created = (Json 200 (Share shareId (origin +:+ "/share/" +:+ shareId)),
                     with_links s (Registry.set (shareLinks s) shareId info)))
    as Hcreated.
  { subst created. unfold api_share. rewrite truthy_Some by done.
    rewrite truthy_getSafePath, Hp.
    rewrite (proj2 (pathExists_true _ _)) by eauto.
    unfold Fs.stat. by rewrite Hfile. }
  rewrite Hcreated. simpl. split; [done|]. split; [done|].
  pose proof (share_access_hit cwd STORAGE_PATH clock shareId
                (with_links s (Registry.set (shareLinks s) shareId info))
                info (own_set_eq _ _ _)) as Hhit.
  simpl in Hhit. rewrite Hp, Hfile in Hhit.
  change (expiry_of now) with (now + 3600000) in Hhit.
  destruct (clock 0%nat >? now + 3600000) eqn:Hgt.
  - apply Z.gtb_lt in Hgt. split; [lia|]. intros _. by rewrite Hhit.
  - rewrite Z.gtb_ltb in Hgt. apply Z.ltb_ge in Hgt. split; [|lia].
    intros _. rewrite Hhit. cbn [fst snd]. split; [done|].
    unfold res_download.
    destruct (Express.send_error _); split; intros; congruence.
Qed.

Lemma share_then_access_witness :
  let s := {| fs := small_disk; shareLinks := [] |} in
  let created :=
    api_share "/home/app" "/srv/data" (Some "a.txt") "0e37df36"
      "http://host" 1000 s in
  (share_access "/home/app" "/srv/data" (fun _ => 3601000) "0e37df36"
     created.2).1
  = Download "/srv/data/a.txt" "a.txt"
  ∧ (share_access "/home/app" "/srv/data" (fun _ => 3601001) "0e37df36"
       created.2).1
    = Send 410 "Share link has expired (valid for 1 hour(s)).".
Proof.
  intros s. split.
  - destruct (share_then_access "/home/app" "/srv/data" "a.txt" "0e37df36"
                "http://host" 1000 s "/srv/data/a.txt" "alpha"
                (fun _ => 3601000)) as (_ & _ & Hlive & _).
    + discriminate.
    + reflexivity.
    + vm_compute. reflexivity.
    + destruct Hlive as (_ & Hsent & _); [vm_compute; discriminate|].
      apply Hsent. vm_compute. reflexivity.
  - destruct (share_then_access "/home/app" "/srv/data" "a.txt" "0e37df36"
                "http://host" 1000 s "/srv/data/a.txt" "alpha"
                (fun _ => 3601001)) as (_ & _ & _ & Hgone).
    + discriminate.
    + reflexivity.
    + vm_compute. reflexivity.
    + apply Hgone. vm_compute. reflexivity.
Defined.

(** X17. [/api/share] never writes to the disk; it answers 200 only for a
    regular file behind a path that passes, and then records the path as
    sent and the time of creation under the new id; any other answer
    leaves the registry as it was, and no other id is touched. *)
Theorem share_creation (cwd STORAGE_PATH : string) (path : option string)
    (shareId origin : string) (now : Z) (s : Server) :
  let r := api_share cwd STORAGE_PATH path shareId origin now s in
  fs r.2 = fs s
  ∧ (status_of r.1 = Some 200 →
     ∃ suffix p content,
       path = Some suffix
       ∧ getSafePath cwd STORAGE_PATH suffix = Some p
       ∧ fs s !! p = Some (Fs.File content)
       ∧ Registry.own (shareLinks r.2) shareId
         = Some {| Registry.path := suffix; Registry.created_at := now |})
  ∧ (status_of r.1 ≠ Some 200 → r.2 = s)
  ∧ (∀ id, id ≠ shareId →
           Registry.own (shareLinks r.2) id = Registry.own (shareLinks s) id).
Proof.
  intros r. subst r. unfold api_share.
  destruct (truthy path) as [suffix|] eqn:Hpath; [|done].
  apply truthy_inv in Hpath as [-> Hne].
  rewrite truthy_getSafePath.
  destruct (getSafePath cwd STORAGE_PATH suffix) as [p|] eqn:Hp; [|done].
  unfold Fs.pathExists, Fs.stat.
  destruct (fs s !! p) as [[content|]|] eqn:Hnode.
  - rewrite bool_decide_eq_true_2 by eauto. simpl.
    split; [done|]. split; [|split; [done|]].
    + intros _. exists suffix, p, content. by rewrite own_set_eq.
    + intros id Hid. by apply own_set_ne.
  - rewrite bool_decide_eq_true_2 by eauto. simpl. done.
  - rewrite bool_decide_eq_false_2 by (by intros [? ?]). simpl. done.
Qed.

Lemma share_creation_witness :
  let s := {| fs := small_disk; shareLinks := two_stale_links |} in
  let r := api_share "/home/app" "/srv/data" (Some "dir") "0e37df36"
             "http://host" 1000 s in
  r.2 = s.
Proof.
  intros s.
  destruct (share_creation "/home/app" "/srv/data" (Some "dir") "0e37df36"
              "http://host" 1000 s) as (_ & _ & Hsame & _).
  apply Hsame. vm_compute. discriminate.
Defined.

(** X18. A miss removes no link that is still within its hour: such an entry
    is in the registry afterwards, unchanged. *)
Theorem share_miss_keeps_fresh (cwd STORAGE_PATH : string) (clock : nat → Z)
    (shareId : string) (s : Server) (t1 : Z) :
  Registry.wf (shareLinks s) = true →
  Registry.get (shareLinks s) shareId = Registry.Undefined →
  (∀ k, clock k <= t1) →
  ∀ id info,
    Registry.own (shareLinks s) id = Some info →
    t1 <= expiry_of (Registry.created_at info) →
    Registry.own
      (shareLinks (share_access cwd STORAGE_PATH clock shareId s).2) id
    = Some info.
Proof.
  intros Hwf Hmiss Hclock id info Hown Hfresh.
  unfold share_access. rewrite Hmiss.
  apply bool_decide_eq_true in Hwf.
  destruct (sweep_spec clock (Registry.keys (shareLinks s)) Hwf 0%nat
              (shareLinks s) (own_keys (shareLinks s)))
    as (links' & -> & _ & _ & Hkeep).
  simpl. apply Hkeep; [done|].
  intros i _. specialize (Hclock (0 + i)%nat). lia.
Qed.

Lemma share_miss_keeps_fresh_witness :
  Registry.own
    (shareLinks
       (share_access "/home/app" "/srv/data" (fun _ => 7200000) "0e37df36"
          {| fs := small_disk; shareLinks := fresh_and_stale |}).2)
    "1b9d6bcd"
  = Some {| Registry.path := "a.txt"; Registry.created_at := 7000000 |}.
Proof.
  apply (share_miss_keeps_fresh "/home/app" "/srv/data" (fun _ => 7200000)
           "0e37df36" {| fs := small_disk; shareLinks := fresh_and_stale |}
           7200000).
  - vm_compute. reflexivity.
  - vm_compute. reflexivity.
  - intros k. simpl. lia.
  - reflexivity.
  - vm_compute. discriminate.
Defined.

(** X20. What a share link serves is a regular file in the storage root, at
    the path the link was created for, and only while the link is within
    its hour; serving changes nothing. *)
Theorem share_serves_live_files (cwd STORAGE_PATH : string) (clock : nat → Z)
    (shareId : string) (s s' : Server) (p f : string) :
  share_access cwd STORAGE_PATH clock shareId s = (Download p f, s') →
  let root := RESOLVED_UPLOAD_FOLDER_ROOT cwd STORAGE_PATH in
  s' = s
  ∧ ∃ info content,
      Registry.own (shareLinks s) shareId = Some info
      ∧ clock 0%nat <= Registry.created_at info + 3600000
      ∧ getSafePath cwd STORAGE_PATH (Registry.path info) = Some p
      ∧ (p = root ∨ ∃ rest, p = root +:+ "/" +:+ rest)
      ∧ fs s !! p = Some (Fs.File content)
      ∧ f = Path.basename p.
Proof.
  intros Hserve root.
  destruct (Registry.own (shareLinks s) shareId) as [info|] eqn:Hown.
  - pose proof (share_access_hit cwd STORAGE_PATH clock shareId s info Hown)
      as Hhit.
    simpl in Hhit.
    change (expiry_of (Registry.created_at info))
      with (Registry.created_at info + 3600000) in Hhit.
    destruct (clock 0%nat >? Registry.created_at info + 3600000) eqn:Hgt;
      [congruence|].
    rewrite Z.gtb_ltb in Hgt. apply Z.ltb_ge in Hgt.
    destruct (getSafePath cwd STORAGE_PATH (Registry.path info)) as [q|] eqn:Hq;
      [|congruence].
    destruct (fs s !! q) as [[content|]|] eqn:Hnode; [|congruence..].
    rewrite Hhit in Hserve. unfold res_download in Hserve.
    destruct (Express.send_error _); [done|].
    injection Hserve as <- <- <-.
    split; [done|]. exists info, content.
    pose proof (getSafePath_inside _ _ _ _ Hq). by repeat split.
  - exfalso. unfold share_access, Registry.get in Hserve.
    rewrite Hown in Hserve.
    destruct (existsb _ _); [done|]. by destruct (sweep _ _ _ _).
Qed.

Lemma share_serves_live_files_witness :
  ∃ info content,
    Registry.own fresh_and_stale "1b9d6bcd" = Some info
    ∧ 7200000 <= Registry.created_at info + 3600000
    ∧ getSafePath "/home/app" "/srv/data" (Registry.path info)
      = Some "/srv/data/a.txt"
    ∧ small_disk !! "/srv/data/a.txt" = Some (Fs.File content).
Proof.
  destruct (share_serves_live_files "/home/app" "/srv/data"
              (fun _ => 7200000) "1b9d6bcd"
              {| fs := small_disk; shareLinks := fresh_and_stale |}
              {| fs := small_disk; shareLinks := fresh_and_stale |}
              "/srv/data/a.txt" "a.txt")
    as (_ & info & content & Hown & Hage & Hpath & _ & Hfile & _).
  - vm_compute. reflexivity.
  - exists info, content. repeat split; assumption.
Defined.

(** ** Moving *)

Section Moves.

Lemma app_inv_head_s (a b c : string) : a +:+ b = a +:+ c → b = c.
Proof.
  induction a as [|x a IH]; [done|]. rewrite !app_cons. intros [= H].
  by apply IH.
Qed.

Lemma rebase_app (src dst tail : string) :
  Fs.rebase src dst (src +:+ tail) = dst +:+ tail.
Proof.
  unfold Fs.rebase. rewrite length_app_s.
  replace (String.length src + String.length tail - String.length src)%nat
    with (String.length tail) by lia.
  by rewrite substring_skip_app.
Qed.

(** What lies within [src] is [src] followed by nothing or by a slash and
    more. *)
Lemma within_tail (src q : string) :
  src ≠ "/" → Fs.within src q = true →
  ∃ tail, q = src +:+ tail ∧ (tail = "" ∨ ∃ t, tail = "/" +:+ t).
Proof.
  intros Hsrc [-> | [[? _] | [_ [t ->]]]]%within_inv; [|done|].
  - exists "". rewrite app_empty_r. auto.
  - exists ("/" +:+ t). eauto.
Qed.

Lemma within_of_tail (src tail : string) :
  tail = "" ∨ (∃ t, tail = "/" +:+ t) → Fs.within src (src +:+ tail) = true.
Proof.
  intros [-> | [t ->]].
  - rewrite app_empty_r. apply within_self.
  - apply within_below.
Qed.

Lemma relocated_elem (src dst : string) (disk : gmap string Fs.node)
    (q : string) (v : Fs.node) :
  src ≠ "/" →
  In (q, v)
    (map (fun kv : string * Fs.node => (Fs.rebase src dst kv.1, kv.2))
       (map_to_list
          (filter (fun kv : string * Fs.node => Fs.within src kv.1 = true)
             disk))) →
  ∃ tail, q = dst +:+ tail ∧ (tail = "" ∨ ∃ t, tail = "/" +:+ t)
          ∧ disk !! (src +:+ tail) = Some v.
Proof.
  intros Hsrc [[k w] [Heq Hin]]%in_map_iff. simpl in Heq.
  injection Heq as <- <-.
  apply list_elem_of_In, elem_of_map_to_list, map_lookup_filter_Some in Hin
    as [Hk Hwithin].
  simpl in Hwithin. apply within_tail in Hwithin as (tail & -> & Htail);
    [|done].
  exists tail. by rewrite rebase_app.
Qed.

Lemma relocated_lookup_Some (src dst tail : string)
    (disk : gmap string Fs.node) (n : Fs.node) :
  src ≠ "/" → tail = "" ∨ (∃ t, tail = "/" +:+ t) →
  disk !! (src +:+ tail) = Some n →
  relocated src dst disk !! (dst +:+ tail) = Some n.
Proof.
  intros Hsrc Htail Hn. unfold relocated. apply elem_of_list_to_map_1'.
  - intros y Hy%list_elem_of_In.
    apply relocated_elem in Hy as (tail' & Heq & _ & Hy); [|done].
    apply app_inv_head_s in Heq as <-. congruence.
  - apply list_elem_of_In, in_map_iff. exists (src +:+ tail, n). split.
    + simpl. by rewrite rebase_app.
    + apply list_elem_of_In, elem_of_map_to_list, map_lookup_filter_Some.
      split; [done|]. simpl. by apply within_of_tail.
Qed.

Lemma relocated_lookup_None (src dst q : string) (disk : gmap string Fs.node) :
  src ≠ "/" → Fs.within dst q = false → relocated src dst disk !! q = None.
Proof.
  intros Hsrc Hq. unfold relocated. apply not_elem_of_list_to_map_1.
  intros [[k v] [Hk Hin]]%list_elem_of_fmap. simpl in Hk. subst k.
  apply list_elem_of_In, relocated_elem in Hin as (tail & -> & Htail & _);
    [|done].
  by rewrite within_of_tail in Hq.
Qed.

Lemma move_unfold (src dst : string) (disk : gmap string Fs.node) :
  is_Some (disk !! src) → disk !! dst = None →
  Fs.move src dst disk = Some (relocated src dst disk ∪ Fs.remove src disk).
Proof.
  intros Hsrc Hdst. unfold Fs.move.
  rewrite (proj2 (pathExists_false _ _)) by done.
  by rewrite (proj2 (pathExists_true _ _)) by done.
Qed.

End Moves.

(** X21. A move that passes every check puts the source, and every entry
    below it, under the destination directory with the same base name and
    the same content; the old places are empty afterwards, and nothing
    else on the disk, nor any share link, changes. *)
Theorem move_relocates (cwd STORAGE_PATH src dst srcPath dstPath : string)
    (s : Server) :
  Path.isAbsolute cwd = true →
  src ≠ "" →
  getSafePath cwd STORAGE_PATH src = Some srcPath →
  getSafePath cwd STORAGE_PATH dst = Some dstPath →
  is_Some (fs s !! srcPath) →
  fs s !! dstPath = Some Fs.Dir →
  let final := Path.join dstPath (Path.basename srcPath) in
  srcPath ≠ final → srcPath ≠ dstPath →
  Js.startsWith final (srcPath +:+ Path.sep) = false →
  fs s !! final = None →
  let r := api_move cwd STORAGE_PATH (Some src) (Some dst) s in
  r.1 = ok ("Successfully moved '" +:+ Path.basename srcPath
            +:+ "' to /" +:+ dst)
  ∧ shareLinks r.2 = shareLinks s
  ∧ (∀ tail n, tail = "" ∨ (∃ t, tail = "/" +:+ t) →
               fs s !! (srcPath +:+ tail) = Some n →
               fs r.2 !! (final +:+ tail) = Some n)
  ∧ (∀ q, Fs.within srcPath q = true → Fs.within final q = false →
          fs r.2 !! q = None)
  ∧ (∀ q, Fs.within srcPath q = false → Fs.within final q = false →
          fs r.2 !! q = fs s !! q).
Proof.
  intros Hcwd Hne Hsrc Hdst Hexists Hdir final Hdiff1 Hdiff2 Hbelow Hfree r.
  assert (srcPath ≠ "/") as Hnot_slash.
  { intros ->. apply Hdiff2.
    pose proof (getSafePath_canonical _ _ _ _ Hcwd Hdst) as Hcanon.
    pose proof (root_not_empty cwd STORAGE_PATH) as Hroot.
    assert (RESOLVED_UPLOAD_FOLDER_ROOT cwd STORAGE_PATH = "/") as Hslash.
    { destruct (getSafePath_inside _ _ _ _ Hsrc) as [<- | [rest Heq]]; [done|].
      apply (f_equal String.length) in Heq. rewrite length_app_s in Heq.
      destruct (RESOLVED_UPLOAD_FOLDER_ROOT cwd STORAGE_PATH); [done|].
      simpl in Heq. lia. }
    destruct (getSafePath_inside _ _ _ _ Hdst) as [-> | [rest Heq]]; [done|].
    rewrite Hslash in Heq. by apply canonical_no_double_slash in Heq. }
  assert (r = (ok ("Successfully moved '" +:+ Path.basename srcPath
                   +:+ "' to /" +:+ dst),
               with_fs s (relocated srcPath final (fs s)
                          ∪ Fs.remove srcPath (fs s)))) as ->.
  { subst r. unfold api_move. rewrite truthy_Some by done.
    rewrite !truthy_getSafePath, Hsrc, Hdst.
    rewrite (proj2 (pathExists_true _ _)) by done.
    rewrite (proj2 (pathExists_true _ _)) by eauto. simpl.
    unfold Fs.stat. rewrite Hdir. simpl. fold final.
    apply str_eqb_false in Hdiff1 as ->. apply str_eqb_false in Hdiff2 as ->.
    simpl. destruct Hexists as [n Hn]. rewrite Hn, Hbelow, andb_false_r.
    rewrite (proj2 (pathExists_false _ _)) by done.
    by rewrite move_unfold by eauto. }
  simpl. split; [done|]. split; [done|]. split; [|split].
  - intros tail n Htail Hn. apply lookup_union_Some_raw. left.
    by apply relocated_lookup_Some.
  - intros q Hin Hout. rewrite lookup_union_r
      by by apply relocated_lookup_None.
    by rewrite remove_lookup, Hin.
  - intros q Hout1 Hout2. rewrite lookup_union_r
      by by apply relocated_lookup_None.
    by rewrite remove_lookup, Hout1.
Qed.

Lemma move_relocates_witness :
  let s := {| fs := small_disk; shareLinks := [] |} in
  let r := api_move "/home/app" "/srv/data" (Some "a.txt") (Some "dir/sub") s in
  r.1 = ok "Successfully moved 'a.txt' to /dir/sub"
  ∧ fs r.2 !! "/srv/data/dir/sub/a.txt" = Some (Fs.File "alpha")
  ∧ fs r.2 !! "/srv/data/a.txt" = None.
Proof.
  intros s.
  destruct (move_relocates "/home/app" "/srv/data" "a.txt" "dir/sub"
              "/srv/data/a.txt" "/srv/data/dir/sub" s)
    as (Hanswer & _ & Hthere & Hgone & _).
  - reflexivity.
  - discriminate.
  - reflexivity.
  - reflexivity.
  - vm_compute. eexists. reflexivity.
  - vm_compute. reflexivity.
  - vm_compute. discriminate.
  - discriminate.
  - vm_compute. reflexivity.
  - vm_compute. reflexivity.
  - split; [exact Hanswer|]. split.
    + apply (Hthere "" (Fs.File "alpha")); [by left|]. vm_compute. reflexivity.
    + apply Hgone; vm_compute; reflexivity.
Defined.

(** X22. A move that is not answered 200 changes nothing; a move never
    touches the share links; and an item is not moved onto a name that is
    taken in the destination (409) nor into the directory it is in (400). *)
Theorem move_refusals (cwd STORAGE_PATH : string)
    (sourcePath destinationPath : option string) (s : Server) :
  let r := api_move cwd STORAGE_PATH sourcePath destinationPath s in
  (status_of r.1 ≠ Some 200 → r.2 = s)
  ∧ shareLinks r.2 = shareLinks s
  ∧ (∀ src dst srcPath dstPath,
       sourcePath = Some src → src ≠ "" → destinationPath = Some dst →
       getSafePath cwd STORAGE_PATH src = Some srcPath →
       getSafePath cwd STORAGE_PATH dst = Some dstPath →
       is_Some (fs s !! srcPath) → fs s !! dstPath = Some Fs.Dir →
       let final := Path.join dstPath (Path.basename srcPath) in
       (srcPath = final → status_of r.1 = Some 400)
       ∧ (srcPath ≠ final → srcPath ≠ dstPath →
          Js.startsWith final (srcPath +:+ Path.sep) = false →
          is_Some (fs s !! final) → status_of r.1 = Some 409)).
Proof.
  intros r. subst r. split; [|split].
  - unfold api_move.
    repeat (match goal with
            | |- context [match ?x with _ => _ end] => destruct x
            end; simpl; try done).
  - unfold api_move.
    repeat (match goal with
            | |- context [match ?x with _ => _ end] => destruct x
            end; simpl; try done).
  - intros src dst srcPath dstPath -> Hne -> Hsrc Hdst [n Hn] Hdir final.
    unfold api_move. rewrite truthy_Some by done.
    rewrite !truthy_getSafePath, Hsrc, Hdst.
    rewrite (proj2 (pathExists_true _ _)) by eauto.
    rewrite (proj2 (pathExists_true _ _)) by eauto. simpl.
    unfold Fs.stat. rewrite Hdir, Hn. simpl. fold final. split.
    + intros <-. by rewrite str_eqb_refl.
    + intros Hd1 Hd2 Hbelow Htaken.
      apply str_eqb_false in Hd1 as ->. apply str_eqb_false in Hd2 as ->.
      simpl. rewrite Hbelow, andb_false_r.
      by rewrite (proj2 (pathExists_true _ _)) by done.
Qed.

Lemma move_refusals_witness :
  let s := {| fs := small_disk; shareLinks := [] |} in
  status_of (api_move "/home/app" "/srv/data" (Some "a.txt") (Some "") s).1
  = Some 400
  ∧ status_of
      (api_move "/home/app" "/srv/data" (Some "dir/sub") (Some "")
         {| fs := <["/srv/data/sub" := Fs.File "x"]> small_disk;
            shareLinks := [] |}).1
    = Some 409.
Proof.
  intros s. split.
  - destruct (move_refusals "/home/app" "/srv/data" (Some "a.txt") (Some "") s)
      as (_ & _ & H).
    assert (is_Some (fs s !! "/srv/data/a.txt")) as Hex
      by (vm_compute; eexists; reflexivity).
    assert (fs s !! "/srv/data" = Some Fs.Dir) as Hdir
      by (vm_compute; reflexivity).
    destruct (H "a.txt" "" "/srv/data/a.txt" "/srv/data" eq_refl
                ltac:(discriminate) eq_refl eq_refl eq_refl Hex Hdir)
      as [Hsame _].
    exact (Hsame eq_refl).
  - destruct (move_refusals "/home/app" "/srv/data" (Some "dir/sub") (Some "")
                {| fs := <["/srv/data/sub" := Fs.File "x"]> small_disk;
                   shareLinks := [] |}) as (_ & _ & H).
    assert (is_Some ((<["/srv/data/sub" := Fs.File "x"]> small_disk)
                     !! "/srv/data/dir/sub")) as Hex
      by (vm_compute; eexists; reflexivity).
    assert ((<["/srv/data/sub" := Fs.File "x"]> small_disk) !! "/srv/data"
            = Some Fs.Dir) as Hdir by (vm_compute; reflexivity).
    assert (is_Some ((<["/srv/data/sub" := Fs.File "x"]> small_disk)
                     !! "/srv/data/sub")) as Htaken
      by (vm_compute; eexists; reflexivity).
    destruct (H "dir/sub" "" "/srv/data/dir/sub" "/srv/data" eq_refl
                ltac:(discriminate) eq_refl eq_refl eq_refl Hex Hdir)
      as [_ Hconflict].
    exact (Hconflict ltac:(discriminate) ltac:(discriminate) eq_refl Htaken).
Defined.

Example dirname_samples :
  dirname "a/b/c" = "a/b" ∧ dirname "a" = "." ∧ dirname "/a" = "/"
  ∧ dirname "/a/b/" = "/a" ∧ dirname "a//b" = "a/" ∧ dirname "//a" = "//"
  ∧ dirname "/" = "/" ∧ dirname "a/b//" = "a".
Proof. repeat split; reflexivity. Qed.

(** ** The paths of a listing *)

Section ListingPaths.

Lemma strip_trailing_no_sep (x : string) :
  no_sep x = true → strip_trailing_seps x = x.
Proof.
  induction x as [|c x IH]; [done|]. simpl.
  intros [Hc Hx]%andb_true_iff. apply negb_true_iff in Hc.
  by rewrite (IH Hx), Hc, andb_false_r.
Qed.

Lemma strip_trailing_app (a x : string) :
  x ≠ "" → no_sep x = true →
  strip_trailing_seps (a +:+ x) = a +:+ x.
Proof.
  intros Hne Hx. induction a as [|c a IH].
  - by apply strip_trailing_no_sep.
  - rewrite app_cons. simpl. rewrite IH.
    destruct (a +:+ x) eqn:E; [|done].
    destruct a; [|done]. rewrite app_empty_l in E. by subst x.
Qed.

Lemma before_last_sep_no_sep (x : string) :
  no_sep x = true → before_last_sep x = None.
Proof.
  induction x as [|c x IH]; [done|]. simpl.
  intros [Hc Hx]%andb_true_iff. apply negb_true_iff in Hc.
  by rewrite (IH Hx), Hc.
Qed.

Lemma before_last_sep_app (a x : string) :
  no_sep x = true → before_last_sep (a +:+ "/" +:+ x) = Some a.
Proof.
  intros Hx. induction a as [|c a IH].
  - rewrite app_empty_l, app_cons, app_empty_l. simpl.
    by rewrite before_last_sep_no_sep.
  - rewrite app_cons. simpl. by rewrite IH.
Qed.

Lemma replace_backslashes_id (s : string) :
  no_backslash s = true → replace_backslashes s = s.
Proof.
  induction s as [|c s IH]; [done|]. simpl.
  intros [Hc Hs]%andb_true_iff. apply negb_true_iff in Hc.
  by rewrite Hc, (IH Hs).
Qed.

Lemma no_backslash_app (a b : string) :
  no_backslash (a +:+ b) = no_backslash a && no_backslash b.
Proof.
  induction a as [|c a IH]; [done|].
  rewrite app_cons. simpl. by rewrite IH, andb_assoc.
Qed.

Lemma no_backslash_join (segs : list string) :
  Forall (fun seg => no_backslash seg = true) segs →
  no_backslash (Path.join_segments segs) = true.
Proof.
  induction 1 as [|x l Hx Hl IH]; [done|].
  destruct l as [|y l]; [done|].
  rewrite join_segments_cons, !no_backslash_app, Hx, IH. done.
Qed.

(** A relative path of plain segments is left as it is by
    [path.normalize]. *)
Lemma normalize_relative_plain (l : list string) :
  l ≠ [] → Forall plain_segment l →
  Path.normalize (Path.join_segments l) = Path.join_segments l.
Proof.
  intros Hne Hl.
  destruct (join_segments_relative l Hne Hl) as [Hnot_empty Hrel].
  unfold Path.normalize.
  apply str_eqb_false in Hnot_empty as Hb. rewrite Hb, Hrel.
  rewrite ends_with_sep_join by done. simpl negb.
  unfold Path.normalizeString, Path.normalize_segments.
  rewrite split_join_segments by (done || by apply plain_no_sep).
  rewrite fold_normalize_plain by done.
  rewrite app_nil_r, rev_involutive. by rewrite Hb.
Qed.

Lemma join_relative_plain (segs : list string) (name : string) :
  Forall plain_segment segs → plain_segment name →
  Path.join (Path.join_segments segs) name
  = Path.join_segments (segs ++ [name]).
Proof.
  intros Hsegs Hname.
  assert (Forall plain_segment (segs ++ [name])) as Hall
    by (apply Forall_app_2; [done | by apply Forall_singleton]).
  assert (name ≠ "") as Hne by apply Hname.
  unfold Path.join. destruct segs as [|x l].
  - change (Path.join_segments []) with "".
    change (Js.str_eqb "" "") with true.
    cbn iota. apply str_eqb_false in Hne as ->.
    by apply (normalize_relative_plain [name]).
  - destruct (join_segments_relative (x :: l)) as [Hj _]; [done..|].
    apply str_eqb_false in Hj as ->. apply str_eqb_false in Hne as ->.
    assert (Path.join_segments (x :: l) +:+ "/" +:+ name
            = Path.join_segments ((x :: l) ++ [name])) as ->
      by by rewrite join_segments_app.
    destruct (join_segments_relative ((x :: l) ++ [name])) as [Hj' _];
      [done..|].
    apply str_eqb_false in Hj' as ->.
    by apply normalize_relative_plain.
Qed.

Lemma dirname_join_snoc (segs : list string) (name : string) :
  Forall plain_segment segs → plain_segment name →
  dirname (Path.join_segments (segs ++ [name]))
  = if decide (segs = []) then "." else Path.join_segments segs.
Proof.
  intros Hsegs (Hsep & Hne & _). destruct segs as [|x l].
  - simpl. destruct name as [|c name]; [done|]. simpl in Hsep.
    apply andb_true_iff in Hsep as [Hc%negb_true_iff Hname].
    change (Path.join_segments [String c name]) with (String c name).
    unfold dirname. rewrite strip_trailing_no_sep by done.
    by rewrite before_last_sep_no_sep, Hc.
  - rewrite decide_False by done.
    rewrite join_segments_app by done.
    destruct (join_segments_relative (x :: l)) as [Hj Hrel]; [done..|].
    destruct (Path.join_segments (x :: l)) as [|c0 rest] eqn:E; [done|].
    simpl in Hrel. rewrite app_cons. unfold dirname.
    change (Path.join_segments [name]) with name.
    rewrite <- (app_assoc_s rest "/" name), strip_trailing_app by done.
    rewrite app_assoc_s, before_last_sep_app, Hrel by done.
    reflexivity.
Qed.

End ListingPaths.

(** X23. The paths a listing sends fit together: for a directory reached by
    plain segments without backslash, the path of an entry is the path of
    the directory followed by the name of the entry, and the parent path
    computed for that path is the path of the directory again; the root
    listing has no parent. *)
Theorem browse_paths_round_trip (segs : list string) (name : string) :
  Forall plain_segment segs →
  Forall (fun seg => no_backslash seg = true) segs →
  plain_segment name → no_backslash name = true →
  let subpath := Path.join_segments segs in
  browse_item_path subpath name = Path.join_segments (segs ++ [name])
  ∧ browse_parent_path (browse_item_path subpath name) = Some subpath
  ∧ browse_parent_path "" = None.
Proof.
  intros Hsegs Hback Hname Hname_back subpath.
  assert (no_backslash (Path.join_segments (segs ++ [name])) = true) as Hb.
  { apply no_backslash_join, Forall_app_2; [done|].
    by apply Forall_singleton. }
  assert (browse_item_path subpath name = Path.join_segments (segs ++ [name]))
    as Hitem.
  { unfold browse_item_path. subst subpath.
    rewrite join_relative_plain by done. by apply replace_backslashes_id. }
  split; [done|]. split; [|done]. rewrite Hitem.
  unfold browse_parent_path.
  assert (Forall plain_segment (segs ++ [name])) as Hall
    by (apply Forall_app_2; [done | by apply Forall_singleton]).
  destruct (join_segments_relative (segs ++ [name])) as [Hj _];
    [by destruct segs | done |].
  simpl Js.falsy. apply str_eqb_false in Hj as ->.
  rewrite dirname_join_snoc by done. subst subpath.
  destruct (decide (segs = [])) as [-> | Hne]; [done|].
  rewrite replace_backslashes_id by by apply no_backslash_join.
  destruct (join_segments_relative segs Hne Hsegs) as [_ Hrel].
  destruct (Js.str_eqb (Path.join_segments segs) ".") eqn:E; [|done].
  apply str_eqb_true in E. exfalso.
  destruct segs as [|x l]; [done|].
  inversion Hsegs as [|? ? (_ & _ & Hdot & _) _]; subst.
  destruct l as [|y l]; [by apply Hdot|].
  rewrite join_segments_cons in E.
  apply (f_equal String.length) in E. rewrite !length_app_s in E.
  change (String.length "/") with 1%nat in E.
  change (String.length ".") with 1%nat in E.
  destruct x as [|c x]; [|simpl in E; lia].
  by inversion Hsegs as [|? ? (_ & Hx & _) _].
Qed.

Lemma browse_paths_round_trip_witness :
  browse_item_path "photos/2024" "cat.png" = "photos/2024/cat.png"
  ∧ browse_parent_path (browse_item_path "photos/2024" "cat.png")
    = Some "photos/2024".
Proof.
  destruct (browse_paths_round_trip ["photos"; "2024"] "cat.png")
    as (Hitem & Hparent & _).
  - repeat constructor; discriminate.
  - repeat constructor.
  - repeat constructor; discriminate.
  - reflexivity.
  - split; [exact Hitem | exact Hparent].
Defined.

(** ** Names the sanitizer keeps *)

Lemma replace_illegal_clean (s : string) :
  clean s = true → Js.replace_illegal s = s.
Proof.
  induction s as [|c s IH]; [done|]. simpl.
  intros [Hc Hs]%andb_true_iff. apply negb_true_iff in Hc.
  by rewrite Hc, (IH Hs).
Qed.

(** X24. A directory name without any illegal character that is not made of
    dots only is used as it is, and sanitizing a sanitized name changes
    nothing more. *)
Theorem sanitize_keeps_valid_names (dir_name : string) :
  (clean dir_name = true → Js.only_dots dir_name = false →
   sanitize_dir_name dir_name = dir_name)
  ∧ sanitize_dir_name (sanitize_dir_name dir_name)
    = sanitize_dir_name dir_name.
Proof.
  assert (∀ d, clean d = true → Js.only_dots d = false →
               sanitize_dir_name d = d) as Hkeep.
  { intros d Hclean Hdots. unfold sanitize_dir_name, Js.replace_only_dots.
    by rewrite replace_illegal_clean, Hdots. }
  split; [apply Hkeep|].
  assert (sanitize_dir_name dir_name
          = if Js.only_dots (Js.replace_illegal dir_name) then "_"
            else Js.replace_illegal dir_name) as -> by reflexivity.
  destruct (Js.only_dots (Js.replace_illegal dir_name)) eqn:Hdots;
    [reflexivity|].
  apply Hkeep; [apply clean_replace_illegal | done].
Qed.

Lemma sanitize_keeps_valid_names_witness :
  sanitize_dir_name "photos 2024.d" = "photos 2024.d".
Proof.
  apply (sanitize_keeps_valid_names "photos 2024.d"); reflexivity.
Defined.

(** ** A share whose file is deleted *)

(** X25. A link to a file that is deleted afterwards is not served: within its
    hour, the next access is answered 404 and takes the link out of the
    registry. *)
Theorem share_of_deleted_file (cwd STORAGE_PATH path shareId origin : string)
    (now : Z) (s : Server) (p content : string) (clock : nat → Z) :
  path ≠ "" →
  getSafePath cwd STORAGE_PATH path = Some p →
  fs s !! p = Some (Fs.File content) →
  p ≠ RESOLVED_UPLOAD_FOLDER_ROOT cwd STORAGE_PATH →
  clock 0%nat <= now + 3600000 →
  let s1 := (api_share cwd STORAGE_PATH (Some path) shareId origin now s).2 in
  let s2 := (api_delete cwd STORAGE_PATH (Some path) s1).2 in
  let r := share_access cwd STORAGE_PATH clock shareId s2 in
  r.1 = Send 404 "The shared file is no longer available."
  ∧ Registry.own (shareLinks r.2) shareId = None
  ∧ fs r.2 = fs s2.
Proof.
  intros Hne Hp Hfile Hroot Hlive s1 s2 r.
  set (info := {| Registry.path := path; Registry.created_at := now |}).
  assert (s1 = with_links s (Registry.set (shareLinks s) shareId info)) as Hs1.
  { subst s1. unfold api_share. rewrite truthy_Some by done.
    rewrite truthy_getSafePath, Hp.
    rewrite (proj2 (pathExists_true _ _)) by eauto.
    unfold Fs.stat. by rewrite Hfile. }
  assert (s2 = with_fs s1 (Fs.remove p (fs s1))) as Hs2.
  { subst s2. unfold api_delete. rewrite truthy_Some by done.
    rewrite truthy_getSafePath, Hp.
    rewrite bool_decide_eq_false_2 by congruence.
    rewrite (proj2 (pathExists_true _ _)); [done|].
    rewrite Hs1. simpl. eauto. }
  assert (Registry.own (shareLinks s2) shareId = Some info) as Hown
    by (rewrite Hs2, Hs1; simpl; apply own_set_eq).
  assert (fs s2 !! p = None) as Hgone
    by (rewrite Hs2; simpl; by rewrite remove_lookup, within_self).
  pose proof (share_access_hit cwd STORAGE_PATH clock shareId s2 info Hown)
    as Hhit.
  simpl in Hhit. change (expiry_of now) with (now + 3600000) in Hhit.
  assert ((clock 0%nat >? now + 3600000) = false) as Hfresh.
  { rewrite Z.gtb_ltb. by apply Z.ltb_ge. }
  rewrite Hfresh, Hp, Hgone in Hhit. subst r. rewrite Hhit. simpl.
  split; [done|]. split; [apply own_delete_eq | done].
Qed.

Lemma share_of_deleted_file_witness :
  let s := {| fs := small_disk; shareLinks := [] |} in
  let s1 := (api_share "/home/app" "/srv/data" (Some "a.txt") "0e37df36"
               "http://host" 1000 s).2 in
  let s2 := (api_delete "/home/app" "/srv/data" (Some "a.txt") s1).2 in
  (share_access "/home/app" "/srv/data" (fun _ => 2000) "0e37df36" s2).1
  = Send 404 "The shared file is no longer available.".
Proof.
  intros s.
  destruct (share_of_deleted_file "/home/app" "/srv/data" "a.txt" "0e37df36"
              "http://host" 1000 s "/srv/data/a.txt" "alpha" (fun _ => 2000))
    as (Hanswer & _ & _).
  - discriminate.
  - reflexivity.
  - vm_compute. reflexivity.
  - vm_compute. discriminate.
  - vm_compute. discriminate.
  - exact Hanswer.
Defined.

(** ** Escapes, failed uploads, repeated saves *)

(** X26. A suffix and its decoded form are treated alike: when a suffix
    decodes to a string without percent sign, [getSafePath] gives for the
    suffix what it gives for that string, so writing a path with escapes
    changes nothing in what is accepted. *)
Theorem getSafePath_decoded_alike (cwd STORAGE_PATH suffix decoded : string) :
  Js.decodeURIComponent suffix = Some decoded →
  no_percent decoded = true →
  getSafePath cwd STORAGE_PATH suffix = getSafePath cwd STORAGE_PATH decoded.
Proof.
  intros Hdec Hpct.
  by rewrite !getSafePath_cases, Hdec, (decode_no_percent decoded Hpct).
Qed.

Lemma getSafePath_decoded_alike_witness :
  getSafePath "/home/app" "/srv/data" "%2E%2E%2Fdata%2Fa.txt"
  = getSafePath "/home/app" "/srv/data" "../data/a.txt".
Proof.
  apply (getSafePath_decoded_alike "/home/app" "/srv/data"
           "%2E%2E%2Fdata%2Fa.txt" "../data/a.txt"); reflexivity.
Defined.

(** X27. An upload that is not answered 200 stores no file: every file on
    the disk afterwards was there before with the same content (the
    destination directory may have been created), and the share links
    are never touched. *)
Theorem upload_failure_stores_nothing (cwd STORAGE_PATH : string)
    (subpath : option string) (file : option (string * string)) (now : Z)
    (s : Server) :
  Path.isAbsolute cwd = true →
  let r := api_upload cwd STORAGE_PATH subpath file now s in
  shareLinks r.2 = shareLinks s
  ∧ (status_of r.1 ≠ Some 200 →
     ∀ q content, fs r.2 !! q = Some (Fs.File content) →
                  fs s !! q = Some (Fs.File content)).
Proof.
  intros Hcwd r. subst r. unfold api_upload.
  destruct file as [[originalname content]|]; [|done].
  unfold storage_handle_file, storage_destination.
  rewrite truthy_getSafePath.
  destruct (getSafePath cwd STORAGE_PATH (Js.or_empty subpath)) as [dir|] eqn:Hd;
    [|done].
  pose proof (getSafePath_canonical _ _ _ _ Hcwd Hd) as Hcanon.
  destruct (Fs.ensureDir dir (fs s)) as [fs1|] eqn:He; [|done].
  destruct (ensureDir_spec _ _ _ Hcanon He) as (_ & _ & Honly).
  assert (∀ q c, fs1 !! q = Some (Fs.File c) → fs s !! q = Some (Fs.File c))
    as Hfiles.
  { intros q c Hq. by destruct (Honly _ _ Hq). }
  destruct (storage_filename _ _ _ _ _ fs1) as [err|filename]; [done|].
  by destruct (Fs.writeFile _ _ fs1).
Qed.

Lemma upload_failure_stores_nothing_witness :
  let s := {| fs := small_disk; shareLinks := two_stale_links |} in
  let r := api_upload "/home/app" "/srv/data" (Some "a.txt/x")
             (Some ("n.txt", "bytes")) 1700000000000 s in
  shareLinks r.2 = two_stale_links
  ∧ fs s !! "/srv/data/b.txt" = Some (Fs.File "beta").
Proof.
  intros s.
  destruct (upload_failure_stores_nothing "/home/app" "/srv/data"
              (Some "a.txt/x") (Some ("n.txt", "bytes")) 1700000000000 s
              eq_refl) as [Hlinks Hnothing].
  split; [exact Hlinks|].
  apply Hnothing; vm_compute; [discriminate | reflexivity].
Defined.

(** X28. Saving twice into the same file leaves what one save of the
    second content leaves: the last content is the content of the file
    and nothing else differs. *)
Theorem save_twice_last_wins (cwd STORAGE_PATH suffix c1 c2 p old : string)
    (s : Server) :
  suffix ≠ "" →
  getSafePath cwd STORAGE_PATH suffix = Some p →
  fs s !! p = Some (Fs.File old) →
  let s1 := (api_save cwd STORAGE_PATH (Some suffix) (Some c1) s).2 in
  api_save cwd STORAGE_PATH (Some suffix) (Some c2) s1
  = api_save cwd STORAGE_PATH (Some suffix) (Some c2) s
  ∧ fs (api_save cwd STORAGE_PATH (Some suffix) (Some c2) s1).2 !! p
    = Some (Fs.File c2).
Proof.
  intros Hne Hp Hfile s1.
  assert (∀ c t (st : Server), fs st !! p = Some (Fs.File t) →
            api_save cwd STORAGE_PATH (Some suffix) (Some c) st
            = (ok ("File '" +:+ Path.basename p +:+ "' saved successfully."),
               with_fs st (<[p := Fs.File c]> (fs st)))) as Hsave.
  { intros c t st Hst. unfold api_save. rewrite truthy_Some by done.
    rewrite truthy_getSafePath, Hp.
    rewrite (proj2 (pathExists_true _ _)) by eauto.
    unfold Fs.stat, Fs.writeFile. by rewrite Hst. }
  assert (s1 = with_fs s (<[p := Fs.File c1]> (fs s))) as Hs1
    by (subst s1; by rewrite (Hsave c1 old s)).
  rewrite (Hsave c2 c1 s1) by (rewrite Hs1; apply lookup_insert_eq).
  rewrite (Hsave c2 old s) by done. rewrite Hs1. simpl.
  split; [|apply lookup_insert_eq].
  unfold with_fs. simpl. by rewrite insert_insert_eq.
Qed.

Lemma save_twice_last_wins_witness :
  let s := {| fs := small_disk; shareLinks := [] |} in
  let s1 := (api_save "/home/app" "/srv/data" (Some "a.txt")
               (Some "draft") s).2 in
  fs (api_save "/home/app" "/srv/data" (Some "a.txt") (Some "final") s1).2
    !! "/srv/data/a.txt"
  = Some (Fs.File "final").
Proof.
  intros s.
  destruct (save_twice_last_wins "/home/app" "/srv/data" "a.txt" "draft"
              "final" "/srv/data/a.txt" "alpha" s) as [_ Hlast].
  - discriminate.
  - reflexivity.
  - vm_compute. reflexivity.
  - exact Hlast.
Defined.
